(** * bsearch: prefix binary search over line-ordered byte streams

    A shallow embedding of the Go package [bsearch] (files [bsearch.go] and
    [index.go]) together with the properties its specification states.

    Conventions of the embedding:
    - Go [int] and [int64] are [Z] (no value in this development comes near
      the 64-bit range, so no wrap-around is written out);
    - a Go [[]byte] value is a [list byte]; where the capacity of a slice
      matters (re-slicing past [len]) it is a [slice], see below;
    - a Go [string] is a Rocq [string]; both are byte sequences and are
      compared bytewise;
    - a run-time panic, a loop that is cut off, and a normal return are the
      three constructors of [exec]. *)

From Stdlib Require Import List ZArith Lia Bool NArith Sorted.
From Stdlib Require Import Strings.String Strings.Ascii Strings.Byte.
Import ListNotations.
Local Open Scope Z_scope.

(** ** Outcomes of a Go call *)

Inductive exec (A : Type) : Type :=
| Done (a : A)        (* the call returned [a] *)
| Panic               (* run-time panic (index or slice bounds out of range) *)
| OutOfFuel.            (* the model's iteration budget ran out *)
Arguments Done {A} a.
Arguments Panic {A}.
Arguments OutOfFuel {A}.

Definition bind {A B : Type} (m : exec A) (k : A -> exec B) : exec B :=
  match m with
  | Done a => k a
  | Panic => Panic
  | OutOfFuel => OutOfFuel
  end.

Notation "x <- m ;; k" := (bind m (fun x => k))
  (at level 61, m at next level, right associativity).
Notation "' pat <- m ;; k" := (bind m (fun x => match x with pat => k end))
  (at level 61, pat pattern, m at next level, right associativity).

(** ** Bytes and strings *)

Definition len {A : Type} (l : list A) : Z := Z.of_nat (List.length l).

Definition slen (s : string) : Z := Z.of_nat (String.length s).

Definition bytes_of (s : string) : list byte := list_byte_of_string s.

Definition nl : byte := x0a.

Module bytes.

Definition byte_compare (x y : byte) : comparison :=
  N.compare (Byte.to_N x) (Byte.to_N y).

(** [bytes.Compare]: lexicographic comparison, result in {-1, 0, +1}. *)
Fixpoint Compare (a b : list byte) : Z :=
  match a, b with
  | [], [] => 0
  | [], _ :: _ => -1
  | _ :: _, [] => 1
  | x :: a', y :: b' =>
      match byte_compare x y with
      | Eq => Compare a' b'
      | Lt => -1
      | Gt => 1
      end
  end.

(** [bytes.IndexByte]: index of the first [c] in [b], or -1. *)
Fixpoint IndexByte (b : list byte) (c : byte) : Z :=
  match b with
  | [] => -1
  | x :: b' =>
      if Byte.eqb x c then 0
      else let i := IndexByte b' c in if i =? -1 then -1 else i + 1
  end.

Fixpoint HasPrefix (s prefix : list byte) : bool :=
  match prefix, s with
  | [], _ => true
  | _ :: _, [] => false
  | p :: prefix', x :: s' => Byte.eqb x p && HasPrefix s' prefix'
  end.

(** [bytes.Index] for a non-empty separator: index of the first
    occurrence of [sep] in [s], or -1.  (For an empty separator Go
    returns 0, which this definition gives as well.) *)
Fixpoint Index (s sep : list byte) : Z :=
  if HasPrefix s sep then 0
  else match s with
       | [] => -1
       | _ :: s' => let i := Index s' sep in if i =? -1 then -1 else i + 1
       end.

End bytes.

Module strings.

Definition ascii_compare (x y : ascii) : comparison :=
  N.compare (N_of_ascii x) (N_of_ascii y).

(** [strings.Compare], and the order behind Go's [<], [==], [>] on
    strings: bytewise lexicographic. *)
Fixpoint Compare (a b : string) : Z :=
  match a, b with
  | EmptyString, EmptyString => 0
  | EmptyString, String _ _ => -1
  | String _ _, EmptyString => 1
  | String x a', String y b' =>
      match ascii_compare x y with
      | Eq => Compare a' b'
      | Lt => -1
      | Gt => 1
      end
  end.

(** [s[:n]] for [n <= len(s)]. *)
Fixpoint take (n : nat) (s : string) : string :=
  match n, s with
  | O, _ => EmptyString
  | S _, EmptyString => EmptyString
  | S n', String c s' => String c (take n' s')
  end.

Definition gt (a b : string) : bool := Compare a b =? 1.

End strings.

(** ** The comparator ([bsearch.go], [index.go]) *)

(** [PrefixCompare] compares the initial sequence of [bufa] with [b], up to
    [len(b)] only; a [bufa] shorter than [b] never compares equal. *)
Definition PrefixCompare (bufa b : list byte) : Z :=
  if len bufa <? len b then
    let cmp := bytes.Compare bufa (firstn (List.length bufa) b) in
    if cmp =? 0 then -1 else cmp
  else bytes.Compare (firstn (List.length b) bufa) b.

(** [prefixCompareString], the string-typed variant used on index keys. *)
Definition prefixCompareString (a b : string) : Z :=
  if slen a <? slen b then
    let cmp := strings.Compare a (strings.take (String.length a) b) in
    if cmp =? 0 then -1 else cmp
  else strings.Compare (strings.take (String.length b) a) b.

(** ** Errors

    The sentinel errors of both files; [ErrOther] stands for errors built
    with [fmt.Errorf] or [errors.New] in place, and for errors of the
    operating system.  A Go [error] value is an [option error], [None]
    being [nil]. *)

Inductive error : Type :=
| ErrNotFound
| ErrKeyExceedsBlocksize
| ErrNotFile
| ErrCompressedNoIndex
| ErrIndexNotFound
| ErrIndexExpired
| ErrIndexEmpty
| ErrIndexPathMismatch
| ErrIndexEntryNotFound
| ErrNotExist                 (* an error for which [os.IsNotExist] holds *)
| io_EOF
| ErrOther (msg : string).

(** ** The index model ([index.go]) *)

Module IndexEntry.
Record t : Type := mk {
  Key : string;
  Offset : Z;       (* file offset for start-of-block *)
  Length : Z        (* block length *)
}.
(** [IndexEntry{}] *)
Definition zero : t := mk "" 0 0.
End IndexEntry.

Module Index.
Record t : Type := mk {
  Blocksize : Z;
  Delimiter : list byte;
  Epoch : Z;
  Filepath : string;
  Header : bool;
  KeysIndexFirst : bool;
  KeysUnique : bool;
  Length : Z;
  List : list IndexEntry.t;
  Version : Z
}.
End Index.

(** [l[i]]: panics out of range. *)
Definition index {A : Type} (l : list A) (i : Z) : exec A :=
  if (0 <=? i) && (i <? len l) then
    match nth_error l (Z.to_nat i) with
    | Some a => Done a
    | None => Panic
    end
  else Panic.

(** *** The binary-search loop of [blockEntryLE] and [blockEntryLT]

    The two loops are the same text but for the test on [cmp]:

<<
	for end-begin > 0 {
		mid = ((end - begin) / 2) + begin
		if mid == begin { mid++ }
		cmp := ...(list[mid].Key, key)
		if cmp <= 0 {            // blockEntryLT: if cmp == -1 {
			begin = mid
		} else {
			if end == mid { break }
			end = mid
		}
	}
>>
    [goes_right e] is that test on the entry [list[mid]]. *)

Inductive iteration : Type :=
| Continue (begin end_ : Z)     (* next iteration, with the new bounds *)
| Break (begin : Z).            (* [break] *)

Section BinarySearch.

Variable list : list IndexEntry.t.
Variable goes_right : IndexEntry.t -> bool.

(** [mid], after the [mid++] adjustment. *)
Definition midpoint (begin end_ : Z) : Z :=
  let mid := Z.quot (end_ - begin) 2 + begin in
  if mid =? begin then mid + 1 else mid.

(** One pass through the loop body. *)
Definition search_step (begin end_ : Z) : exec iteration :=
  let mid := midpoint begin end_ in
  e <- index list mid ;;
  if goes_right e then Done (Continue mid end_)
  else if end_ =? mid then Done (Break begin)
  else Done (Continue begin mid).

(** The loop; it returns the final [begin]. *)
Fixpoint search_loop (fuel : nat) (begin end_ : Z) : exec Z :=
  if end_ - begin >? 0 then
    match fuel with
    | O => OutOfFuel
    | S fuel' =>
        it <- search_step begin end_ ;;
        match it with
        | Continue begin' end' => search_loop fuel' begin' end'
        | Break begin' => Done begin'
        end
    end
  else Done begin.

End BinarySearch.

(** [blockEntryLE] returns the last entry with a Key less-than-or-equal-to
    [key], and its position in the List; [ErrIndexEntryNotFound] if the
    first entry's Key is greater than [key].  The loop runs at most
    [len(list) - 1] times, the budget given to the model. *)
Definition blockEntryLE (i : Index.t) (key : list byte)
  : exec (Z * IndexEntry.t * option error) :=
  let keystr := string_of_list_byte key in
  e0 <- index (Index.List i) 0 ;;
  if strings.gt (IndexEntry.Key e0) keystr then
    Done (0, IndexEntry.zero, Some ErrIndexEntryNotFound)
  else
    let list := Index.List i in
    begin <- search_loop list
               (fun e => prefixCompareString (IndexEntry.Key e) keystr <=? 0)
               (List.length list) 0 (len list - 1) ;;
    e <- index list begin ;;
    Done (begin, e, None).

(** [blockEntryLT] returns the last entry with a Key less-than [key], and
    its position in the List; the first entry if there is none.  It calls
    [prefixCompare], a helper on byte slices that is declared in neither
    file; it is a parameter here. *)
Definition blockEntryLT (prefixCompare : list byte -> list byte -> Z)
    (i : Index.t) (key : list byte) : exec (Z * IndexEntry.t) :=
  let list := Index.List i in
  begin <- search_loop list
             (fun e => prefixCompare (list_byte_of_string (IndexEntry.Key e)) key =? -1)
             (List.length list) 0 (len list - 1) ;;
  e <- index list begin ;;
  Done (begin, e).

(** [blockEntryN] returns the nth entry and an ok flag. *)
Definition blockEntryN (i : Index.t) (n : Z) : IndexEntry.t * bool :=
  if (n <? 0) || (n >=? len (Index.List i)) then (IndexEntry.zero, false)
  else match nth_error (Index.List i) (Z.to_nat n) with
       | Some e => (e, true)
       | None => (IndexEntry.zero, false)
       end.

(** ** Byte slices with capacity

    [bsearch.go] re-slices its read buffer ([s.buf[:entry.Length]]) and takes
    fixed-width windows of it ([buf[offset : offset+n]]).  For a slice Go
    checks the upper bound of a slice expression against the capacity, not
    the length, so a window may reach past [len(buf)] into what an earlier
    read left in the backing array, and panics only past [cap(buf)]. *)

Module slice.

Record t : Type := mk {
  array : list byte;   (* backing array, from the slice's first element on *)
  length : nat         (* len; the capacity is the length of [array] *)
}.

Definition len (s : t) : Z := Z.of_nat (length s).
Definition cap (s : t) : Z := Z.of_nat (List.length (array s)).

(** The elements of the slice. *)
Definition data (s : t) : list byte := firstn (length s) (array s).

(** [make([]byte, n)]: zeroed, capacity equal to length. *)
Definition make (n : Z) : exec t :=
  if n <? 0 then Panic
  else Done (mk (repeat x00 (Z.to_nat n)) (Z.to_nat n)).

(** A slice holding exactly [l]. *)
Definition of_list (l : list byte) : t := mk l (List.length l).

(** [s[low:high]]: in range iff [0 <= low <= high <= cap(s)]. *)
Definition sub (s : t) (low high : Z) : exec t :=
  if (0 <=? low) && (low <=? high) && (high <=? cap s) then
    Done (mk (skipn (Z.to_nat low) (array s)) (Z.to_nat (high - low)))
  else Panic.

(** [s[low:]], that is [s[low:len(s)]]. *)
Definition from (s : t) (low : Z) : exec t := sub s low (len s).

(** [s[:high]]. *)
Definition upto (s : t) (high : Z) : exec t := sub s 0 high.

(** The slice after [got] has been copied to its front. *)
Definition write (s : t) (got : list byte) : t :=
  mk (got ++ skipn (List.length got) (array s)) (length s).

End slice.

(** [clone] returns a copy of the given byte slice. *)
Definition clone (b : list byte) : list byte := b.

(** [io.ReaderAt.ReadAt] on a file with the given contents: fills [b] from
    offset [off]; [io.EOF] when fewer than [len(b)] bytes were there. *)
Definition ReadAt (file : list byte) (b : slice.t) (off : Z)
  : slice.t * Z * option error :=
  if off <? 0 then (b, 0, Some (ErrOther "negative offset"))
  else
    let got := firstn (slice.length b) (skipn (Z.to_nat off) file) in
    (slice.write b got, len got,
     if len got <? slice.len b then Some io_EOF else None).

(** ** The searcher ([bsearch.go]) *)

Definition defaultBlocksize : Z := 4096.

(** The fields of [Searcher] that the functions below read or write; the
    index option, the logger and the compiled [reWord] are left out
    ([reWord] is always the expression [\w], see [reWord_Match]). *)
Module Searcher.
Record t : Type := mk {
  r : list byte;            (* data reader: the contents it reads from *)
  l : Z;                    (* data length *)
  blocksize : Z;
  buf : slice.t;            (* data buffer *)
  bufOffset : Z;            (* data buffer offset *)
  dbuf : slice.t;           (* decompressed data buffer *)
  dbufOffset : Z;           (* decompressed data buffer offset *)
  filepath : string;
  Index : option Index.t;   (* optional block index; [None] is [nil] *)
  compare : list byte -> list byte -> Z;
  header : bool;
  boundary : bool;          (* search string must be followed by a word boundary *)
  matchLE : bool
}.

Definition with_buf (s : t) (b : slice.t) (off : Z) : t :=
  mk (r s) (l s) (blocksize s) b off (dbuf s) (dbufOffset s) (filepath s)
     (Index s) (compare s) (header s) (boundary s) (matchLE s).

Definition with_dbuf (s : t) (b : slice.t) (off : Z) : t :=
  mk (r s) (l s) (blocksize s) (buf s) (bufOffset s) b off (filepath s)
     (Index s) (compare s) (header s) (boundary s) (matchLE s).

Definition with_Index (s : t) (i : Index.t) : t :=
  mk (r s) (l s) (blocksize s) (buf s) (bufOffset s) (dbuf s) (dbufOffset s)
     (filepath s) (Some i) (compare s) (header s) (boundary s) (matchLE s).
End Searcher.

(** The [Options] that the scanner reads. *)
Module Options.
Record t : Type := mk {
  Header : bool;
  Boundary : bool;
  MatchLE : bool
}.
End Options.

(** The searcher [NewSearcher] builds once [os.Stat] and [os.Open] have
    succeeded on [filename]: [file] is what the handle reads, [index] what
    loading the sibling index gave ([None] when there is none). *)
Definition NewSearcher (filename : string) (file : list byte)
    (index : option Index.t) : Searcher.t :=
  Searcher.mk file (len file) defaultBlocksize
    (slice.mk (repeat x00 (Z.to_nat (defaultBlocksize + 1)))
              (Z.to_nat (defaultBlocksize + 1)))
    (-1) (slice.mk [] 0) (-1) filename index PrefixCompare false false false.

(** [setOptions], for the three flags above. *)
Definition setOptions (s : Searcher.t) (options : Options.t) : Searcher.t :=
  Searcher.mk (Searcher.r s) (Searcher.l s) (Searcher.blocksize s)
    (Searcher.buf s) (Searcher.bufOffset s) (Searcher.dbuf s)
    (Searcher.dbufOffset s) (Searcher.filepath s) (Searcher.Index s)
    (Searcher.compare s)
    (if Options.Header options then true else Searcher.header s)
    (if Options.Boundary options then true else Searcher.boundary s)
    (if Options.MatchLE options then true else Searcher.matchLE s).

(** [reWord] is the regular expression [\w]: ASCII letters, digits and the
    underscore.  [reWord.Match(b)] holds when [b] contains such a byte. *)
Definition is_word (c : byte) : bool :=
  let n := Byte.to_N c in
  ((48 <=? n) && (n <=? 57) || (65 <=? n) && (n <=? 90) ||
   (97 <=? n) && (n <=? 122) || (n =? 95))%N.

Definition reWord_Match (b : list byte) : bool := existsb is_word b.

Definition getNBytesFrom (buf : slice.t) (offset n : Z) : exec slice.t :=
  slice.sub buf offset (offset + n).

(** The value [scanLineOffset] returns when it leaves its loop without a
    match. *)
Definition scanLineOffset_miss (s : Searcher.t) (trailing : Z) (terminate : bool)
  : Z * bool :=
  if Searcher.matchLE s && (trailing >? -1) then (trailing, terminate)
  else (-1, terminate).

Fixpoint scanLineOffset_loop (fuel : nat) (s : Searcher.t) (buf : slice.t)
    (k : list byte) (trailing offset : Z) : exec (Z * bool) :=
  if offset <? slice.len buf then
    match fuel with
    | O => OutOfFuel
    | S fuel' =>
        offsetPrefix <- getNBytesFrom buf offset (len k) ;;
        let cmp := Searcher.compare s (slice.data offsetPrefix) k in
        if cmp =? 0 then Done (offset, false)
        else if cmp =? 1 then Done (scanLineOffset_miss s trailing true)
        else
          rest <- slice.from buf offset ;;
          let nlidx := bytes.IndexByte (slice.data rest) nl in
          if nlidx =? -1 then Done (scanLineOffset_miss s trailing false)
          else scanLineOffset_loop fuel' s buf k offset (offset + nlidx + 1)
    end
  else Done (scanLineOffset_miss s trailing false).

(** [scanLineOffset] returns the offset of the first line within [buf] that
    begins with the key [k], and a terminate flag.  Every pass through the
    loop moves [offset] forward, so [len(buf)] passes are enough. *)
Definition scanLineOffset (s : Searcher.t) (buf : slice.t) (k : list byte)
  : exec (Z * bool) :=
  scanLineOffset_loop (slice.length buf) s buf k (-1) 0.

Fixpoint scanLinesMatching_loop (fuel : nat) (s : Searcher.t) (buf : slice.t)
    (b : list byte) (n : Z) (lines : list (list byte)) (offset : Z)
    (terminate : bool) : exec (list (list byte) * bool) :=
  if offset <? slice.len buf then
    match fuel with
    | O => OutOfFuel
    | S fuel' =>
        if (n >? 0) && (len lines >=? n) then
          Done (firstn (Z.to_nat n) lines, true)
        else
          offsetPrefix <- getNBytesFrom buf offset (len b) ;;
          let cmp := Searcher.compare s (slice.data offsetPrefix) b in
          rest <- slice.from buf offset ;;
          let nlidx := bytes.IndexByte (slice.data rest) nl in
          if cmp <? 0 then
            if nlidx =? -1 then Done (lines, terminate)
            else scanLinesMatching_loop fuel' s buf b n lines
                   (offset + nlidx + 1) terminate
          else if cmp =? 0 then
            if nlidx =? -1 then
              Done (lines ++ [clone (slice.data rest)], terminate)
            else
              line <- slice.sub buf offset (offset + nlidx) ;;
              scanLinesMatching_loop fuel' s buf b n
                (lines ++ [clone (slice.data line)]) (offset + nlidx + 1) terminate
          else Done (lines, true)
    end
  else Done (lines, terminate).

(** [scanLinesMatching] returns all lines beginning with byte sequence [b]
    from [buf], and a terminate flag. *)
Definition scanLinesMatching (s : Searcher.t) (buf : slice.t) (b : list byte)
    (n : Z) : exec (list (list byte) * bool) :=
  '(offset, terminate) <- scanLineOffset s buf b ;;
  if (offset =? -1) || terminate then Done ([], terminate)
  else scanLinesMatching_loop (slice.length buf) s buf b n [] offset terminate.

(** [checkPrefixMatch]: the one place where [s.boundary] is read.  No
    function of the package calls it. *)
Definition checkPrefixMatch (s : Searcher.t) (bufa b : list byte)
  : exec (list byte * bool * option error) :=
  let cmp := PrefixCompare bufa b in
  if cmp <? 0 then Done ([], false, Some (ErrOther "Error: badly sorted file?"))
  else if cmp >? 0 then Done ([], true, None)
  else if Searcher.boundary s && (len bufa >? len b) then
    blast <- slice.sub (slice.of_list bufa) (len b - 1) (len b) ;;
    bnext <- slice.sub (slice.of_list bufa) (len b) (len b + 1) ;;
    let wl := reWord_Match (slice.data blast) in
    let wn := reWord_Match (slice.data bnext) in
    if (wl && wn) || (negb wl && negb wn) then Done ([], false, None)
    else Done (clone bufa, false, None)
  else Done (clone bufa, false, None).

(** [readBlockEntry] reads the block of [entry] into [s.buf]. *)
Definition readBlockEntry (s : Searcher.t) (entry : IndexEntry.t)
  : exec (Searcher.t * option error) :=
  (* Noop if already done *)
  if Searcher.bufOffset s =? IndexEntry.Offset entry then Done (s, None)
  else
    buf <- (if IndexEntry.Length entry >? slice.cap (Searcher.buf s)
            then slice.make (IndexEntry.Length entry)
            else slice.upto (Searcher.buf s) (IndexEntry.Length entry)) ;;
    let '(buf, bytesread, err) := ReadAt (Searcher.r s) buf (IndexEntry.Offset entry) in
    match err with
    | Some io_EOF | None =>
        if bytesread <? IndexEntry.Length entry then
          Done (Searcher.with_buf s buf (-1),
                Some (ErrOther "error reading block entry"))
        else Done (Searcher.with_buf s buf (IndexEntry.Offset entry), None)
    | Some err => Done (Searcher.with_buf s buf (-1), Some err)
    end.

(** The regular expression [\.zst$]. *)
Definition reCompressed_MatchString (path : string) : bool :=
  let n := String.length path in
  (4 <=? n)%nat && String.eqb (String.substring (n - 4) 4 path) ".zst".

(** The value [scanIndexedLines] returns after its loop. *)
Definition indexed_result (lines : list (list byte))
  : list (list byte) * option error :=
  if len lines =? 0 then (lines, Some ErrNotFound) else (lines, None).

Section Lookup.

(** Four things the searcher uses are declared in neither source file:
    - [Index.BlockEntry], the block locator that [scanIndexedLines] and
      [scanCompressedLines] start from; it returns a position and an
      entry;
    - [zstd.Decompress(dst, src)], of the compression library;
    - [NewIndex] as a function of the file system: the index built for
      the file at a path, or an error;
    - the field [Index.Filename] that [isCompressed] reads.
    [Index.BlockEntryN] is taken to be [blockEntryN], which [index.go]
    has under the lower-case name. *)
Variable BlockEntry : Index.t -> list byte -> exec (Z * IndexEntry.t).
Variable zstd_Decompress : slice.t -> list byte -> slice.t * option error.
Variable NewIndex : string -> Index.t + error.
Variable Index_Filename : Index.t -> string.

Definition isCompressed (s : Searcher.t) : bool :=
  match Searcher.filepath s, Searcher.Index s with
  | EmptyString, None => false
  | EmptyString, Some i => reCompressed_MatchString (Index_Filename i)
  | path, _ => reCompressed_MatchString path
  end.

Definition decompressBlockEntry (s : Searcher.t) (entry : IndexEntry.t)
  : exec (Searcher.t * option error) :=
  (* Noop if already done *)
  if Searcher.dbufOffset s =? IndexEntry.Offset entry then Done (s, None)
  else
    '(s, err) <- readBlockEntry s entry ;;
    match err with
    | Some err => Done (s, Some err)
    | None =>
        let '(dbuf, err) :=
          zstd_Decompress (Searcher.dbuf s) (slice.data (Searcher.buf s)) in
        match err with
        | Some err => Done (Searcher.with_dbuf s dbuf (-1), Some err)
        | None => Done (Searcher.with_dbuf s dbuf (IndexEntry.Offset entry), None)
        end
    end.

(** The [for] loop of [scanIndexedLines].  After the first pass [e] is a
    valid position and grows by one each time, so the loop runs at most
    [len(list) + 1] times. *)
Fixpoint scanIndexedLines_loop (fuel : nat) (index : Index.t) (s : Searcher.t)
    (k : list byte) (n : Z) (lines : list (list byte)) (e : Z)
    (entry : IndexEntry.t)
  : exec (Searcher.t * (list (list byte) * option error)) :=
  match fuel with
  | O => OutOfFuel
  | S fuel' =>
      (* Read entry block into s.buf *)
      '(s, err) <- readBlockEntry s entry ;;
      match err with
      | Some err => Done (s, ([], Some err))
      | None =>
          (* Key search, so append delimiter *)
          let b := k ++ Index.Delimiter index in
          (* Scan matching lines *)
          '(l, terminate) <- scanLinesMatching s (Searcher.buf s) b n ;;
          let lines := if len l >? 0 then lines ++ l else lines in
          if terminate then Done (s, indexed_result lines)
          else
            (* Check next block *)
            let e := e + 1 in
            let '(entry, ok) := blockEntryN index e in
            if ok then scanIndexedLines_loop fuel' index s k n lines e entry
            else Done (s, indexed_result lines)
      end
  end.

(** [scanIndexedLines] returns all lines in the reader that begin with
    the key [k]; [ErrNotFound] when there are none. *)
Definition scanIndexedLines (s : Searcher.t) (k : list byte) (n : Z)
  : exec (Searcher.t * (list (list byte) * option error)) :=
  match Searcher.Index s with
  | None => Panic
  | Some index =>
      '(e, entry) <- BlockEntry index k ;;
      scanIndexedLines_loop (S (List.length (Index.List index))) index s k n [] e entry
  end.

(** The [for] loop of [scanCompressedLines].  The next block is always
    [BlockEntryN(e + 1)], [e] being the position [BlockEntry] gave: there is
    no bound on the number of passes, so the budget is an argument. *)
Fixpoint scanCompressedLines_loop (fuel : nat) (index : Index.t) (s : Searcher.t)
    (k : list byte) (n : Z) (lines : list (list byte)) (e : Z)
    (entry : IndexEntry.t)
  : exec (Searcher.t * (list (list byte) * option error)) :=
  match fuel with
  | O => OutOfFuel
  | S fuel' =>
      (* Decompress block from entry into s.dbuf *)
      '(s, err) <- decompressBlockEntry s entry ;;
      match err with
      | Some err => Done (s, ([], Some err))
      | None =>
          let b := k ++ Index.Delimiter index in
          '(l, terminate) <- scanLinesMatching s (Searcher.dbuf s) b n ;;
          let lines := if len l >? 0 then lines ++ l else lines in
          if terminate then Done (s, (lines, None))
          else
            let '(entry, ok) := blockEntryN index (e + 1) in
            if ok then scanCompressedLines_loop fuel' index s k n lines e entry
            else Done (s, (lines, None))
      end
  end.

Definition scanCompressedLines (fuel : nat) (s : Searcher.t) (k : list byte) (n : Z)
  : exec (Searcher.t * (list (list byte) * option error)) :=
  match Searcher.Index s with
  | None => Panic
  | Some index =>
      '(e, entry) <- BlockEntry index k ;;
      scanCompressedLines_loop fuel index s k n [] e entry
  end.

(** [LinesN] returns the first [n] lines in the reader that begin with key
    [k] ([n = 0]: all of them). *)
Definition LinesN (fuel : nat) (s : Searcher.t) (k : list byte) (n : Z)
  : exec (Searcher.t * (list (list byte) * option error)) :=
  if isCompressed s then
    match Searcher.Index s with
    | None => Done (s, ([], Some ErrCompressedNoIndex))
    | Some _ => scanCompressedLines fuel s k n
    end
  else
    (* If no index exists, build and use a temporary one (but don't write) *)
    match Searcher.Index s with
    | None =>
        match NewIndex (Searcher.filepath s) with
        | inr err => Done (s, ([], Some err))
        | inl index => scanIndexedLines (Searcher.with_Index s index) k n
        end
    | Some _ => scanIndexedLines s k n
    end.

(** [Line] returns the first line in the reader that begins with the key
    [k]. *)
Definition Line (fuel : nat) (s : Searcher.t) (k : list byte)
  : exec (Searcher.t * (list byte * option error)) :=
  '(s, (lines, err)) <- LinesN fuel s k 1 ;;
  match err, lines with
  | Some _, _ | _, [] => Done (s, ([], err))
  | None, line :: _ => Done (s, (line, None))
  end.

(** [Lines] returns all lines in the reader that begin with [b]. *)
Definition Lines (fuel : nat) (s : Searcher.t) (b : list byte)
  : exec (Searcher.t * (list (list byte) * option error)) :=
  LinesN fuel s b 0.

End Lookup.

(** ** The naive linear scan

    The reference the specification compares [Line] and [Lines] with: split
    the dataset into its lines and keep those whose first field is the key. *)

(** The lines of [data], without their terminating newline; [cur] holds
    the bytes of the line being read, last byte first. *)
Fixpoint split_lines_from (cur : list byte) (data : list byte) : list (list byte) :=
  match data with
  | [] => match cur with [] => [] | _ => [rev cur] end
  | c :: data' =>
      if Byte.eqb c nl then rev cur :: split_lines_from [] data'
      else split_lines_from (c :: cur) data'
  end.

Definition split_lines (data : list byte) : list (list byte) :=
  split_lines_from [] data.

(** The first field of [line]: the bytes before the first [delim], the whole
    line when there is none. *)
Definition key_field (delim line : list byte) : list byte :=
  let i := bytes.Index line delim in
  if i =? -1 then line else firstn (Z.to_nat i) line.

Definition has_key (delim k line : list byte) : bool :=
  bytes.Compare (key_field delim line) k =? 0.

Definition linear_scan_first (delim : list byte) (data k : list byte)
  : option (list byte) :=
  find (has_key delim k) (split_lines data).

Definition linear_scan_all (delim : list byte) (data k : list byte)
  : list (list byte) :=
  filter (has_key delim k) (split_lines data).

(** ** The index builders ([index.go]) *)

Module utf8.

(** The width [utf8.DecodeRune] reports for the first character of a
    non-empty [p]: 1 for ASCII and for a malformed sequence. *)
Definition in_range (lo hi : N) (b : byte) : bool :=
  ((lo <=? Byte.to_N b) && (Byte.to_N b <=? hi))%N.

Definition continuation (b : byte) : bool := in_range 128 191 b.

Definition first_width (p : list byte) : nat :=
  match p with
  | [] => 0
  | p0 :: rest =>
      let two (lo hi : N) :=
        match rest with
        | b1 :: _ => if in_range lo hi b1 then 2%nat else 1%nat
        | _ => 1%nat
        end in
      let three (lo hi : N) :=
        match rest with
        | b1 :: b2 :: _ =>
            if in_range lo hi b1 && continuation b2 then 3%nat else 1%nat
        | _ => 1%nat
        end in
      let four (lo hi : N) :=
        match rest with
        | b1 :: b2 :: b3 :: _ =>
            if in_range lo hi b1 && continuation b2 && continuation b3
            then 4%nat else 1%nat
        | _ => 1%nat
        end in
      let n := Byte.to_N p0 in
      if (n <? 194)%N then 1%nat
      else if (n <? 224)%N then two 128%N 191%N
      else if (n =? 224)%N then three 160%N 191%N
      else if (n =? 237)%N then three 128%N 159%N
      else if (n <? 240)%N then three 128%N 191%N
      else if (n =? 240)%N then four 144%N 191%N
      else if (n <? 244)%N then four 128%N 191%N
      else if (n =? 244)%N then four 128%N 143%N
      else 1%nat
  end.

End utf8.

(** [bytes.SplitN(s, sep, 2)[0]].  With a separator: the bytes before its
    first occurrence, or all of [s].  With an empty separator [s] is split
    after its first UTF-8 sequence; an empty [s] then gives no element at
    all, and taking element 0 panics. *)
Definition SplitN_2_first (s sep : list byte) : exec (list byte) :=
  match sep with
  | [] =>
      match s with
      | [] => Panic
      | [_] => Done s
      | _ => Done (firstn (utf8.first_width s) s)
      end
  | _ =>
      let i := bytes.Index s sep in
      if i =? -1 then Done s else Done (firstn (Z.to_nat i) s)
  end.

(** [list[len(list)-1].Length = blockPosition - last.Offset] *)
Definition close_last (list : list IndexEntry.t) (blockPosition : Z)
  : Datatypes.list IndexEntry.t :=
  match rev list with
  | [] => list
  | last :: before =>
      rev before ++
      [IndexEntry.mk (IndexEntry.Key last) (IndexEntry.Offset last)
         (blockPosition - IndexEntry.Offset last)]
  end.

Definition set_Header (i : Index.t) (h : bool) : Index.t :=
  Index.mk (Index.Blocksize i) (Index.Delimiter i) (Index.Epoch i)
    (Index.Filepath i) h (Index.KeysIndexFirst i) (Index.KeysUnique i)
    (Index.Length i) (Index.List i) (Index.Version i).

Definition set_KeysUnique (i : Index.t) (u : bool) : Index.t :=
  Index.mk (Index.Blocksize i) (Index.Delimiter i) (Index.Epoch i)
    (Index.Filepath i) (Index.Header i) (Index.KeysIndexFirst i) u
    (Index.Length i) (Index.List i) (Index.Version i).

Definition set_KeysIndexFirst (i : Index.t) (f : bool) : Index.t :=
  Index.mk (Index.Blocksize i) (Index.Delimiter i) (Index.Epoch i)
    (Index.Filepath i) (Index.Header i) f (Index.KeysUnique i)
    (Index.Length i) (Index.List i) (Index.Version i).

Definition set_List (i : Index.t) (list : list IndexEntry.t) : Index.t :=
  Index.mk (Index.Blocksize i) (Index.Delimiter i) (Index.Epoch i)
    (Index.Filepath i) (Index.Header i) (Index.KeysIndexFirst i)
    (Index.KeysUnique i) (len list) list (Index.Version i).

Definition set_Version (i : Index.t) (v : Z) : Index.t :=
  Index.mk (Index.Blocksize i) (Index.Delimiter i) (Index.Epoch i)
    (Index.Filepath i) (Index.Header i) (Index.KeysIndexFirst i)
    (Index.KeysUnique i) (Index.Length i) (Index.List i) v.

(** The [for scanner.Scan()] loop of [generateLineIndex], over the lines the
    scanner yields.  [index] is the index being filled in ([Header] and
    [KeysUnique] are written to as the loop runs); the result is its state
    when the loop is left, with the locals the code after the loop reads, or
    the error the loop returns. *)
Fixpoint generateLineIndex_loop (lines : list (list byte)) (index : Index.t)
    (list : list IndexEntry.t) (blockPosition blockNumber : Z)
    (prevKey : Datatypes.list byte) (skipHeader : bool)
  : exec (Index.t * (Datatypes.list IndexEntry.t * Z) * option error) :=
  match lines with
  | [] => Done (index, (list, blockPosition), None)
  | line :: lines' =>
      if skipHeader then
        generateLineIndex_loop lines' index list (blockPosition + (len line + 1))
          blockNumber prevKey false
      else
        key <- SplitN_2_first line (Index.Delimiter index) ;;
        (* Check key ordering *)
        let cmp := bytes.Compare prevKey key in
        if (cmp =? 1) && negb ((blockNumber =? 0) && negb (Index.Header index)) then
          (* prevKey > key *)
          Done (index, (list, blockPosition), Some (ErrOther "Error: key sort violation"))
        else
          let '(index, list, blockNumber) :=
            if cmp =? 1 then
              (* Special case - allow second record out-of-order due to header *)
              (set_Header index true, [], -1)
            else if cmp =? 0 then (set_KeysUnique index false, list, blockNumber)
            else (index, list, blockNumber) in
          (* Add the first line of each block to our index *)
          if Index.Blocksize index =? 0 then Panic
          else
            let currentBlockNumber := Z.quot blockPosition (Index.Blocksize index) in
            let '(list, blockNumber) :=
              if currentBlockNumber >? blockNumber then
                (close_last list blockPosition ++
                   [IndexEntry.mk (string_of_list_byte key) blockPosition 0],
                 currentBlockNumber)
              else (list, blockNumber) in
            generateLineIndex_loop lines' index list (blockPosition + (len line + 1))
              blockNumber key false
  end.

(** [generateLineIndex] processes the input line by line, generating index
    entries for the first full line in each block.  [lines] are the tokens
    of the [bufio.Scanner] on the reader (each line without its end-of-line
    marker) and [scan_err] is what [scanner.Err()] returns at the end.  The
    result is the index as the call leaves it, and the error returned. *)
Definition generateLineIndex (index : Index.t) (lines : list (list byte))
    (scan_err : option error) : exec (Index.t * option error) :=
  if Index.Blocksize index <? 0 then Panic
  else
    let index := set_KeysUnique index true in
    '(index, (list, blockPosition), err) <-
      generateLineIndex_loop lines index [] 0 (-1) [] (Index.Header index) ;;
    match err, scan_err with
    | Some err, _ => Done (index, Some err)
    | None, Some err => Done (index, Some err)
    | None, None =>
        if len list =? 0 then Done (index, Some ErrIndexEmpty)
        else
          (* Update the final index entry *)
          let list := close_last list blockPosition in
          let index :=
            if Index.KeysUnique index then set_KeysIndexFirst index true else index in
          Done (set_List index list, None)
    end.

(** [processBlock] processes the block in [buf[:bytesread]] and returns an
    entry for the first line it finds, with the block position it ended at.
    It calls itself after re-reading, with no bound on the depth: the
    budget is an argument. *)
Fixpoint processBlock (fuel : nat) (reader : list byte) (buf : slice.t)
    (bytesread blockPosition : Z) (delim : list byte) (eof : bool)
  : exec (IndexEntry.t * Z * option error) :=
  match fuel with
  | O => OutOfFuel
  | S fuel' =>
      let reread (blockPosition : Z) :=
        let '(buf, bytesread, err) := ReadAt reader buf blockPosition in
        match err with
        | None => processBlock fuel' reader buf bytesread blockPosition delim false
        | Some io_EOF => processBlock fuel' reader buf bytesread blockPosition delim true
        | Some err => Done (IndexEntry.zero, blockPosition, Some err)
        end in
      (* Find first newline *)
      nlidx <- (if blockPosition >? 0 then
                  head <- slice.upto buf bytesread ;;
                  Done (bytes.IndexByte (slice.data head) nl)
                else Done (-1)) ;;
      if (blockPosition >? 0) && (nlidx =? -1) then
        (* If no newline exists in block, we can skip the block entirely *)
        reread (blockPosition + bytesread)
      else
        rest <- slice.sub buf (nlidx + 1) bytesread ;;
        let didx := bytes.Index (slice.data rest) delim in
        if didx =? -1 then
          if nlidx =? -1 then Done (IndexEntry.zero, blockPosition, Some ErrKeyExceedsBlocksize)
          else reread (blockPosition + nlidx)
        else
          let didx := didx + (nlidx + 1) in
          (* Check that there's no newline in this chunk *)
          chunk <- slice.sub buf (nlidx + 1) didx ;;
          let nlidx2 := bytes.IndexByte (slice.data chunk) nl in
          if negb (nlidx2 =? -1) then
            _ <- slice.sub buf (nlidx + 1) nlidx2 ;;
            Done (IndexEntry.zero, blockPosition,
                  Some (ErrOther "Error: line without delimiter found"))
          else
            (* Create entry *)
            let entry :=
              IndexEntry.mk (string_of_list_byte (slice.data chunk))
                (blockPosition + nlidx + 1) (bytesread - nlidx - 1) in
            (* On the first block only, check for the presence of a header *)
            if blockPosition =? 0 then
              head <- slice.upto buf bytesread ;;
              let nlidx := bytes.IndexByte (slice.data head) nl in
              if nlidx =? -1 then
                Done (IndexEntry.zero, blockPosition,
                      Some (ErrOther "Missing first block nlidx handling not yet implemented"))
              else
                buf2 <- slice.sub buf nlidx bytesread ;;
                '(entry2, bp2, err) <-
                  processBlock fuel' reader buf2 (bytesread - nlidx)
                    (blockPosition + nlidx) delim eof ;;
                match err with
                | Some err => Done (IndexEntry.zero, blockPosition + nlidx, Some err)
                | None =>
                    (* If the entry.Key > entry2.Key, assume the first is a header *)
                    if strings.gt (IndexEntry.Key entry) (IndexEntry.Key entry2)
                    then Done (entry2, bp2, None)
                    else Done (entry, blockPosition, None)
                end
            else Done (entry, blockPosition, None)
  end.

(** [list[i].Length = list[i+1].Offset - list[i].Offset] for all but the
    last entry. *)
Fixpoint reset_lengths (list : list IndexEntry.t) : Datatypes.list IndexEntry.t :=
  match list with
  | e :: ((e' :: _) as rest) =>
      IndexEntry.mk (IndexEntry.Key e) (IndexEntry.Offset e)
        (IndexEntry.Offset e' - IndexEntry.Offset e) :: reset_lengths rest
  | _ => list
  end.

(** The [for] loop of [generateBlockIndex]. *)
Fixpoint generateBlockIndex_loop (fuel : nat) (reader : list byte) (index : Index.t)
    (buf : slice.t) (list : list IndexEntry.t) (blockPosition : Z)
    (firstBlock : bool) (prev : IndexEntry.t)
  : exec (Index.t * Datatypes.list IndexEntry.t * option error) :=
  match fuel with
  | O => OutOfFuel
  | S fuel' =>
      let '(buf, bytesread, err) := ReadAt reader buf blockPosition in
      match err with
      | Some io_EOF | None =>
          let eof := match err with Some _ => true | None => false end in
          if bytesread >? 0 then
            '(entry, blockPosition, err) <-
              processBlock fuel' reader buf bytesread blockPosition
                (Index.Delimiter index) eof ;;
            match err with
            | Some err => Done (index, list, Some err)
            | None =>
                (* Check that all entry keys are sorted as we expect *)
                if strings.gt (IndexEntry.Key prev) (IndexEntry.Key entry) then
                  Done (index, list, Some (ErrOther "Error: key sort violation"))
                else
                  let list :=
                    if String.eqb (IndexEntry.Key prev) (IndexEntry.Key entry)
                       && (IndexEntry.Offset prev =? IndexEntry.Offset entry)
                    then list            (* duplicate index entry: skipped *)
                    else list ++ [entry] in
                  (* Set prev and blockPosition *)
                  let blockPosition := blockPosition + bytesread in
                  (* If the first offset is not zero we've skipped a header *)
                  let index :=
                    if firstBlock && (IndexEntry.Offset entry >? 0)
                    then set_Header index true else index in
                  (* [err] is nil by now: the loop goes round once more *)
                  generateBlockIndex_loop fuel' reader index buf list blockPosition
                    false entry
            end
          else if eof then Done (index, list, None)
          else generateBlockIndex_loop fuel' reader index buf list blockPosition
                 false prev
      | Some err => Done (index, list, Some err)
      end
  end.

(** [generateBlockIndex] processes the input in blocks, adding index entries
    for the first full line of each block. *)
Definition generateBlockIndex (fuel : nat) (index : Index.t) (reader : list byte)
  : exec (Index.t * option error) :=
  buf <- slice.make (Index.Blocksize index) ;;
  '(index, list, err) <-
    generateBlockIndex_loop fuel reader index buf [] 0 true IndexEntry.zero ;;
  match err with
  | Some err => Done (index, Some err)
  | None =>
      if len list =? 0 then Done (index, Some ErrIndexEmpty)
      else Done (set_List (set_KeysUnique index false) (reset_lengths list), None)
  end.

(** ** Loading an index ([index.go])

    [LoadIndex] talks to the file system and to two libraries.  They are the
    fields of an [Env]: each call the function makes is a field, with the
    result the call gives. *)

Module os.
Record FileInfo : Type := mkFileInfo {
  IsDir : bool;
  Size : Z;
  ModTime_Unix : Z        (* [ModTime().Unix()] *)
}.

Definition IsNotExist (err : error) : bool :=
  match err with ErrNotExist => true | _ => false end.
End os.

Module yaml.
(** A parsed index document: for each key of the mapping, its value if the
    document has the key. *)
Record doc : Type := mkdoc {
  blocksize : option Z;
  delim : option (list byte);
  epoch : option Z;
  filepath : option string;
  header : option bool;
  keys_index_first : option bool;
  keys_unique : option bool;
  length : option Z;
  list : option (Datatypes.list IndexEntry.t);
  version : option Z
}.

Definition or_else {A : Type} (o : option A) (a : A) : A :=
  match o with Some x => x | None => a end.

(** [yaml.Unmarshal(data, &index)]: the fields whose keys the document has
    are overwritten, the others are left as they were. *)
Definition Unmarshal (d : doc) (index : Index.t) : Index.t :=
  Index.mk
    (or_else (blocksize d) (Index.Blocksize index))
    (or_else (delim d) (Index.Delimiter index))
    (or_else (epoch d) (Index.Epoch index))
    (or_else (filepath d) (Index.Filepath index))
    (or_else (header d) (Index.Header index))
    (or_else (keys_index_first d) (Index.KeysIndexFirst index))
    (or_else (keys_unique d) (Index.KeysUnique index))
    (or_else (length d) (Index.Length index))
    (or_else (list d) (Index.List index))
    (or_else (version d) (Index.Version index)).
End yaml.

Record Env : Type := mkEnv {
  filepath_Abs : string -> string + error;
  filepath_Split : string -> string * string;
  filepath_Join : string -> string -> string;
  os_Stat : string -> os.FileInfo + error;
  (* [os.Open]: what the handle reads *)
  os_Open : string -> list byte + error;
  (* [ioutil.ReadAll(zstd.NewReader(fh))] *)
  zstd_ReadAll : list byte -> list byte + error;
  (* the document the YAML decoder finds in the data; a decoding error is
     dropped by [LoadIndex] *)
  yaml_parse : list byte -> yaml.doc
}.

Definition and_then {A B : Type} (m : A + error) (k : A -> B + error) : B + error :=
  match m with
  | inl a => k a
  | inr err => inr err
  end.

Notation "x <-? m ;; k" := (and_then m (fun x => k))
  (at level 61, m at next level, right associativity).

Definition indexSuffix : string := "bsx".

(** [reDot.ReplaceAllString(filename, "_")] *)
Fixpoint replace_dots (s : string) : string :=
  match s with
  | EmptyString => EmptyString
  | String c s' =>
      String (if Ascii.eqb c "."%char then "_"%char else c) (replace_dots s')
  end.

(** [indexFile] returns the index file associated with [filename]. *)
Definition indexFile (filename : string) : string :=
  String.append (replace_dots filename) (String.append "." indexSuffix).

(** [epoch] returns the modtime for [path] in unix format. *)
Definition epoch (w : Env) (path : string) : Z + error :=
  stat <-? os_Stat w path ;;
  inl (os.ModTime_Unix stat).

(** [IndexPath] returns the filepath of the index associated with [path]. *)
Definition IndexPath (w : Env) (path : string) : string + error :=
  path <-? filepath_Abs w path ;;
  let '(dir, base) := filepath_Split w path in
  inl (filepath_Join w dir (indexFile base)).

(** [Index{List: []IndexEntry{}}] *)
Definition Index_zero : Index.t :=
  Index.mk 0 [] 0 "" false false false 0 [] 0.

(** [LoadIndex] loads the index from the index file associated with
    [path]. *)
Definition LoadIndex (w : Env) (path : string) : Index.t + error :=
  path <-? filepath_Abs w path ;;
  idxpath <-? IndexPath w path ;;
  match os_Stat w idxpath with
  | inr err => if os.IsNotExist err then inr ErrIndexNotFound else inr err
  | inl _ =>
      fh <-? os_Open w idxpath ;;
      data <-? zstd_ReadAll w fh ;;
      let index := yaml.Unmarshal (yaml_parse w data) Index_zero in
      (* Check index.Filepath == path *)
      if negb (String.eqb (Index.Filepath index) path) then inr ErrIndexPathMismatch
      else
        (* Check index.Epoch is still valid *)
        fe <-? epoch w path ;;
        if fe >? Index.Epoch index then inr ErrIndexExpired
        else
          (* Set index.Version to 1 if unset *)
          inl (if Index.Version index =? 0 then set_Version index 1 else index)
  end.

(** ** Notions used in the statements *)

(** What one pass through the loop body does to the bounds. *)
Definition makes_progress (begin end_ : Z) (it : iteration) : Prop :=
  match it with
  | Continue begin' end' =>
      begin <= begin' /\ begin' <= end' /\ end' <= end_ /\
      end' - begin' < end_ - begin
  | Break begin' => begin' = begin
  end.

(** The prefix comparator on strings, by recursion on the two strings. *)
Fixpoint prefix_cmp (a b : string) : Z :=
  match b, a with
  | EmptyString, _ => 0
  | String _ _, EmptyString => -1
  | String y b', String x a' =>
      match strings.ascii_compare x y with
      | Eq => prefix_cmp a' b'
      | Lt => -1
      | Gt => 1
      end
  end.

(** Entries in ascending bytewise key order, as both index builders check
    while they collect them. *)
Definition key_le (e1 e2 : IndexEntry.t) : Prop :=
  strings.Compare (IndexEntry.Key e1) (IndexEntry.Key e2) <= 0.


(** ** Concrete data used by the examples below *)

(** An index over [/data/d.csv] with the entries [l], as built with the
    given blocksize. *)
Definition index_with (blocksize : Z) (l : list IndexEntry.t) : Index.t :=
  Index.mk blocksize (bytes_of ",") 0 "/data/d.csv" false false false (len l) l 2.

Definition index_of_entries (l : list IndexEntry.t) : Index.t :=
  index_with defaultBlocksize l.

Definition three_entries : Index.t :=
  index_of_entries
    [IndexEntry.mk "a" 0 10; IndexEntry.mk "c" 10 10; IndexEntry.mk "e" 20 10].

(** One block, whose first key has the query ["a"] as a proper prefix. *)
Definition index_ab : Index.t := index_of_entries [IndexEntry.mk "ab" 0 10].

(** Entries out of key order. *)
Definition index_unsorted : Index.t :=
  index_of_entries
    [IndexEntry.mk "a" 0 10; IndexEntry.mk "z" 10 10; IndexEntry.mk "b" 20 10].

(** The bytes of a file with the given lines, each newline-terminated. *)
Definition join_lines (ls : list (list byte)) : list byte :=
  flat_map (fun l => l ++ [nl]) ls.

Definition unlines (ls : list string) : list byte :=
  join_lines (map bytes_of ls).

(** The line [key,xxx...x] with [pad] bytes in its second field. *)
Definition row (key : string) (pad : nat) : list byte :=
  bytes_of key ++ bytes_of "," ++ repeat "x"%byte pad.

(** A searcher on [/data/d.csv] with the given contents and index. *)
Definition searcher_with (blocksize : Z) (file : list byte)
    (entries : list IndexEntry.t) : Searcher.t :=
  NewSearcher "/data/d.csv" file (Some (index_with blocksize entries)).

Definition searcher_on (file : list byte) (entries : list IndexEntry.t) : Searcher.t :=
  searcher_with defaultBlocksize file entries.

(** A sorted file of 4100 bytes: four lines of 1024 bytes with the key [a],
    then the line [b,1].  With a blocksize of 8192 it is one block. *)
Definition file_ab : list byte :=
  join_lines (repeat (row "a" 1021) 4 ++ [bytes_of "b,1"]).

Definition entries_ab : list IndexEntry.t := [IndexEntry.mk "a" 0 4100].

(** A sorted file of 4098 bytes: three lines of 1024 bytes with the key
    [a], a line of 1023 bytes with the key [bbbb], then the line [c,].  With
    a blocksize of 8192 it is one block. *)
Definition file_abc : list byte :=
  join_lines (repeat (row "a" 1021) 3 ++ [row "bbbb" 1017; bytes_of "c,"]).

Definition entries_abc : list IndexEntry.t := [IndexEntry.mk "a" 0 4098].

(** A sorted file of 4104 bytes: four lines of 1024 bytes with the key [a],
    then the lines [b,1] and [d,1].  The line [b,1] starts at offset 4096,
    the end of the first 4096-byte chunk, so the blocks of the index are the
    first 4100 bytes and the last 4. *)
Definition file_abd : list byte :=
  join_lines (repeat (row "a" 1021) 4 ++ [bytes_of "b,1"; bytes_of "d,1"]).

Definition entries_abd : list IndexEntry.t :=
  [IndexEntry.mk "a" 0 4100; IndexEntry.mk "d" 4100 4].

(** A sorted file of 4102 bytes: three lines of 1024 bytes with the key
    [a], a line of 1023 bytes with the key [bbbb], then [c,] and [d,1].  The
    line [c,] straddles offset 4096, so the first block is the first 4098
    bytes and ends with it. *)
Definition file_abcd : list byte :=
  join_lines (repeat (row "a" 1021) 3 ++
              [row "bbbb" 1017; bytes_of "c,"; bytes_of "d,1"]).

Definition entries_abcd : list IndexEntry.t :=
  [IndexEntry.mk "a" 0 4098; IndexEntry.mk "d" 4098 4].

(** The first line of the test data [alstom2.csv] after its header. *)
Definition alstom_block : list byte :=
  unlines ["alstom.com,alstom.com,SOA"%string].

(** A file with the single line [a,1], and its one-block index. *)
Definition file_a : list byte := unlines ["a,1"%string].

Definition entries_a : list IndexEntry.t := [IndexEntry.mk "a" 0 4].

(** A key of 4097 bytes. *)
Definition long_key : list byte := repeat "b"%byte 4097.

(** Stand-ins for what the searcher takes from outside the two files, where
    an example has to name them: the locator [blockEntryLT] of [index.go]
    under the exported comparator, a decompressor that is never called, no
    index to build, and [Filepath] for [Filename]. *)
Definition locator_LT (i : Index.t) (key : list byte) : exec (Z * IndexEntry.t) :=
  blockEntryLT PrefixCompare i key.

(** The position and entry that [blockEntryLE] returns. *)
Definition locator_LE (i : Index.t) (key : list byte) : exec (Z * IndexEntry.t) :=
  '(position, entry, _) <- blockEntryLE i key ;;
  Done (position, entry).

Definition no_Decompress (dst : slice.t) (src : list byte) : slice.t * option error :=
  (dst, Some (ErrOther "not a zstd frame")).

Definition no_NewIndex (path : string) : Index.t + error := inr ErrIndexEmpty.

(** Three records, the third out of order. *)
Definition records_bca : list (list byte) :=
  [bytes_of "b,1"; bytes_of "c,1"; bytes_of "a,1"].

(** The index [NewIndexOptions] hands to the builders for [/data/d.csv]
    with the given blocksize, before any entry is added. *)
Definition empty_index (blocksize : Z) : Index.t := index_with blocksize [].

(** A directory [/data] that holds [d.csv], modified at time [mtime], and
    next to it [d_csv.bsx], whose document is [d]. *)
Definition data_dir (mtime : Z) (d : yaml.doc) : Env :=
  mkEnv
    (fun p => inl p)
    (fun p => ("/data/"%string, String.substring 6 (String.length p - 6) p))
    (fun dir file => String.append dir file)
    (fun p =>
       if String.eqb p "/data/d.csv" then inl (os.mkFileInfo false 8 mtime)
       else if String.eqb p "/data/d_csv.bsx" then inl (os.mkFileInfo false 64 mtime)
       else inr ErrNotExist)
    (fun p => if String.eqb p "/data/d_csv.bsx" then inl [] else inr ErrNotExist)
    (fun fh => inl fh)
    (fun _ => d).

(** An index document for [/data/d.csv] written at time 100, without a
    [version] key. *)
Definition doc_v1 : yaml.doc :=
  yaml.mkdoc (Some 4096) (Some (bytes_of ",")) (Some 100) (Some "/data/d.csv"%string)
    (Some false) (Some false) (Some false) (Some 1)
    (Some [IndexEntry.mk "a" 0 8]) None.

(** The lines around [alstom.com] in the test data [alstom1.csv]. *)
Definition alstom_lines : list string :=
  ["alstom.com,alstom.com,SOA"; "alstom.com,alstom.com,ULT";
   "alstom.com.au,alstom.com,RED"; "alstom.com.br,alstom.com,RED"]%string.

Definition file_alstom : list byte := unlines alstom_lines.

Definition entries_alstom : list IndexEntry.t := [IndexEntry.mk "alstom.com" 0 110].

(** A frame format that stores its block as it is: standing in for zstd
    where an example has to decompress. *)
Definition stored_Decompress (dst : slice.t) (src : list byte)
  : slice.t * option error :=
  (slice.of_list src, None).

(** A compressed dataset of two blocks, the lines [aa,1] and [ab!1,1]. *)
Definition file_two_blocks : list byte := unlines ["aa,1"; "ab!1,1"]%string.

Definition entries_two_blocks : list IndexEntry.t :=
  [IndexEntry.mk "aa" 0 5; IndexEntry.mk "ab!1" 5 7].

Definition searcher_zst : Searcher.t :=
  NewSearcher "/data/d.csv.zst" file_two_blocks
    (Some (index_of_entries entries_two_blocks)).

(** The searcher after [decompressBlockEntry] has loaded a block. *)
Definition after_load (s : Searcher.t) (entry : IndexEntry.t) : Searcher.t :=
  match decompressBlockEntry stored_Decompress s entry with
  | Done (s', _) => s'
  | _ => s
  end.

Definition searcher_zst_1 : Searcher.t :=
  after_load searcher_zst (IndexEntry.mk "aa" 0 5).

Definition searcher_zst_2 : Searcher.t :=
  after_load searcher_zst_1 (IndexEntry.mk "ab!1" 5 7).

(** A file of five lines in three blocks; the lines with key [b] begin in
    the first block and fill the second. *)
Definition file_spill : list byte :=
  unlines ["a,1"; "b,1"; "b,2"; "b,3"; "c,1"]%string.

Definition entries_spill : list IndexEntry.t :=
  [IndexEntry.mk "a" 0 8; IndexEntry.mk "b" 8 8; IndexEntry.mk "c" 16 4].

(** ** Further functions of [bsearch.go] and [index.go] *)

(** Go's [<] on strings. *)
Definition string_less (a b : string) : bool := strings.Compare a b =? -1.

(** [PrefixCompareString] compares the initial bytes of [bufa] with [b] (up
    to [len(b)] only), after conversion to strings. *)
Definition PrefixCompareString (bufa b : list byte) : Z :=
  let sa := string_of_list_byte bufa in
  let sb := string_of_list_byte b in
  (* If len(sa) < len(sb) we compare up to len(sa), but disallow equality *)
  if slen sa <? slen sb then
    let sb := strings.take (String.length sa) sb in
    if string_less sa sb then -1
    else if String.eqb sa sb then -1
    else 1
  else
    let sa := strings.take (String.length sb) sa in
    if string_less sa sb then -1
    else if String.eqb sa sb then 0
    else 1.

(** *** Notions for the scan of one block *)

(** How the scan sees a line of a block: the line with the newline that
    ends it, compared with the search bytes [b]. *)
Definition line_cmp (b line : list byte) : Z := PrefixCompare (line ++ [nl]) b.

Fixpoint take_while {A : Type} (f : A -> bool) (l : list A) : list A :=
  match l with
  | [] => []
  | x :: l' => if f x then x :: take_while f l' else []
  end.

(** The lines that match [b] among those before the first line that is
    greater than [b]. *)
Definition matching_lines (b : list byte) (ls : list (list byte)) : list (list byte) :=
  filter (fun l => line_cmp b l =? 0)
         (take_while (fun l => negb (line_cmp b l =? 1)) ls).

(** The cap [LinesN] puts on the number of lines: none unless [n > 0]. *)
Definition cap_lines (n : Z) (ls : list (list byte)) : list (list byte) :=
  if n >? 0 then firstn (Z.to_nat n) ls else ls.

(** What the terminate flag [t] of a scan of the lines [cur] tells, [acc]
    being the lines found before: without a cap it says whether a line
    greater than [b] was met; with one it may also say that the cap was
    reached. *)
Definition flag_ok (b : list byte) (n : Z) (acc : list (list byte))
    (cur : list (list byte)) (t : bool) : Prop :=
  (n <= 0 -> t = existsb (fun l => line_cmp b l =? 1) cur) /\
  (existsb (fun l => line_cmp b l =? 1) cur = true -> t = true) /\
  (t = true ->
   existsb (fun l => line_cmp b l =? 1) cur = true \/
   (n > 0 /\ len (acc ++ matching_lines b cur) >= n)).

(** A buffer that holds the newline-terminated lines [ls]; [stale] is what
    its backing array has after them. *)
Definition block_buffer (ls : list (list byte)) (stale : list byte) : slice.t :=
  slice.mk (join_lines ls ++ stale) (List.length (join_lines ls)).

(** [scanLineOffset] on the lines [cur] that start at offset [off], when
    [MatchLE] is not set. *)
Fixpoint first_not_less (b : list byte) (off : Z) (cur : list (list byte)) : Z * bool :=
  match cur with
  | [] => (-1, false)
  | l :: rest =>
      if line_cmp b l =? 0 then (off, false)
      else if line_cmp b l =? 1 then (-1, true)
      else first_not_less b (off + len l + 1) rest
  end.

(** The order of two lines as the bytes of the file have them, each with
    the newline that ends it. *)
Definition line_le (l1 l2 : list byte) : Prop :=
  bytes.Compare (l1 ++ [nl]) (l2 ++ [nl]) <= 0.

(** *** Notions for the scan of several blocks *)

(** The entries [entries] lie on the blocks [blocks], the first of which
    starts at offset [off] of the file: each entry has the offset and the
    length of its block. *)
Fixpoint block_layout (off : Z) (entries : list IndexEntry.t)
    (blocks : list (list (list byte))) : bool :=
  match entries, blocks with
  | [], [] => true
  | e :: es, ls :: bs =>
      (IndexEntry.Offset e =? off) &&
      (IndexEntry.Length e =? len (join_lines ls)) &&
      block_layout (off + len (join_lines ls)) es bs
  | _, _ => false
  end.

(** A block of the lines [ls] that a read buffer of capacity [cap] holds
    with room for the windows of [len b] bytes that the scan takes. *)
Definition block_fits (cap : Z) (b : list byte) (ls : list (list byte)) : Prop :=
  ls <> [] /\
  len (join_lines ls) <= cap /\
  len (join_lines ls) + len b <= cap + 1 /\
  forall l, In l ls -> ~ In nl l.

(** The blocks of [file_spill], as [entries_spill] cuts them. *)
Definition blocks_spill : list (list (list byte)) :=
  [map bytes_of ["a,1"; "b,1"]%string;
   map bytes_of ["b,2"; "b,3"]%string;
   map bytes_of ["c,1"]%string].

(** The entries [entries], the last of them closed at [pos], lie on blocks
    of lines that make up the lines [done], after the lines [skipped]. *)
Definition laid_out (entries : list IndexEntry.t) (pos : Z)
    (done : list (list byte)) : Prop :=
  exists skipped blocks,
    done = skipped ++ List.concat blocks /\
    Forall (fun ls => ls <> []) blocks /\
    block_layout (len (join_lines skipped)) (close_last entries pos) blocks = true.

(** The index [generateLineIndex] builds for the lines of [file_spill] with
    a blocksize of 8. *)
Definition lines_spill : list (list byte) :=
  map bytes_of ["a,1"; "b,1"; "b,2"; "b,3"; "c,1"]%string.

Definition line_index_spill : Index.t :=
  match generateLineIndex (empty_index 8) lines_spill None with
  | Done (i, _) => i
  | _ => empty_index 8
  end.

(** A file of four lines in two blocks; the lines with key [b] begin in
    the first block and fill the second. *)
Definition file_four : list byte :=
  unlines ["a,1"; "b,1"; "b,2"; "b,3"]%string.

Definition entries_four : list IndexEntry.t :=
  [IndexEntry.mk "a" 0 8; IndexEntry.mk "b" 8 8].

(** * Properties *)

(** *** Facts about [bytes.Compare] *)

Lemma byte_compare_eq (x y : byte) :
  bytes.byte_compare x y = Eq <-> x = y.
Proof.
  unfold bytes.byte_compare. rewrite N.compare_eq_iff. split.
  - intros H.
    assert (E : Byte.of_N (Byte.to_N x) = Byte.of_N (Byte.to_N y)) by now rewrite H.
    rewrite !Byte.of_to_N in E. now inversion E.
  - now intros ->.
Qed.

Lemma bytes_Compare_range (a b : list byte) :
  bytes.Compare a b = -1 \/ bytes.Compare a b = 0 \/ bytes.Compare a b = 1.
Proof.
  revert b. induction a as [|x a IH]; intros [|y b]; simpl; auto.
  destruct (bytes.byte_compare x y); auto.
Qed.

Lemma bytes_Compare_eq (a b : list byte) :
  bytes.Compare a b = 0 <-> a = b.
Proof.
  revert b. induction a as [|x a IH]; intros [|y b]; simpl;
    try (split; [lia | discriminate]); try tauto.
  destruct (bytes.byte_compare x y) eqn:E.
  - apply byte_compare_eq in E. subst y. rewrite IH.
    split; [now intros -> | now inversion 1].
  - split; [lia |]. inversion 1; subst.
    assert (bytes.byte_compare y y = Eq) by now apply byte_compare_eq.
    congruence.
  - split; [lia |]. inversion 1; subst.
    assert (bytes.byte_compare y y = Eq) by now apply byte_compare_eq.
    congruence.
Qed.

(** ** C3 *)

(** C3. [PrefixCompare a b] is 0 exactly when [b] is a prefix of [a]
    ([len a >= len b] and [a[:len b] = b]); and when [a] is strictly shorter
    than [b] and equal to [b[:len a]], the result is negative
    (short-is-less). *)
Theorem PrefixCompare_prefix_test (a b : list byte) :
  (PrefixCompare a b = 0 <->
     len a >= len b /\ firstn (List.length b) a = b) /\
  (len a < len b -> a = firstn (List.length a) b -> PrefixCompare a b < 0).
Proof.
  unfold PrefixCompare, len. split.
  - destruct (Z.ltb_spec (Z.of_nat (List.length a)) (Z.of_nat (List.length b))) as [Hlt|Hge].
    + split.
      * destruct (Z.eqb_spec (bytes.Compare a (firstn (List.length a) b)) 0); lia.
      * lia.
    + rewrite bytes_Compare_eq. split; [intros H; split; [lia | exact H] | tauto].
  - intros Hlt Heq.
    destruct (Z.ltb_spec (Z.of_nat (List.length a)) (Z.of_nat (List.length b))); [|lia].
    assert (E : bytes.Compare a (firstn (List.length a) b) = 0)
      by now apply bytes_Compare_eq.
    rewrite E. simpl. lia.
Qed.

Lemma PrefixCompare_prefix_test_witness :
  (PrefixCompare (bytes_of "foo,1") (bytes_of "foo,") = 0 <->
     len (bytes_of "foo,1") >= len (bytes_of "foo,") /\
     firstn (List.length (bytes_of "foo,")) (bytes_of "foo,1") = bytes_of "foo,") /\
  PrefixCompare (bytes_of "fo") (bytes_of "foo,") < 0.
Proof.
  split.
  - apply (PrefixCompare_prefix_test (bytes_of "foo,1") (bytes_of "foo,")).
  - apply (PrefixCompare_prefix_test (bytes_of "fo") (bytes_of "foo,")).
    + vm_compute. reflexivity.
    + reflexivity.
Defined.


(** ** The block locator: termination of the binary searches *)

Lemma index_Done {A : Type} (l : list A) (i : Z) :
  0 <= i < len l -> exists a, index l i = Done a /\ nth_error l (Z.to_nat i) = Some a.
Proof.
  intros [H0 H1]. unfold index, len in *.
  destruct (Z.leb_spec 0 i); [|lia].
  destruct (Z.ltb_spec i (Z.of_nat (List.length l))); [|lia]. simpl.
  destruct (nth_error l (Z.to_nat i)) eqn:E; [eauto|].
  apply nth_error_None in E. lia.
Qed.

Lemma midpoint_range (begin end_ : Z) :
  begin < end_ -> begin < midpoint begin end_ <= end_.
Proof.
  intros H. unfold midpoint.
  assert (Hq : 0 <= Z.quot (end_ - begin) 2 <= (end_ - begin))
    by (rewrite Z.quot_div_nonneg by lia; split;
        [apply Z.div_pos; lia | apply Z.div_le_upper_bound; lia]).
  destruct (Z.eqb_spec (Z.quot (end_ - begin) 2 + begin) begin); lia.
Qed.

Section BinarySearchTermination.

Variable list : list IndexEntry.t.
Variable goes_right : IndexEntry.t -> bool.

Lemma search_step_progress (begin end_ : Z) :
  0 <= begin -> begin < end_ -> end_ < len list ->
  exists it, search_step list goes_right begin end_ = Done it /\
             makes_progress begin end_ it.
Proof.
  intros H0 Hlt Hlen. unfold search_step.
  pose proof (midpoint_range begin end_ Hlt) as Hm.
  destruct (index_Done list (midpoint begin end_)) as (e & -> & _); [lia|].
  simpl. destruct (goes_right e).
  - eexists; split; [reflexivity|]. simpl. lia.
  - destruct (Z.eqb_spec end_ (midpoint begin end_)).
    + eexists; split; [reflexivity|]. reflexivity.
    + eexists; split; [reflexivity|]. simpl. lia.
Qed.

Lemma search_loop_exit (fuel : nat) (begin end_ : Z) :
  end_ - begin <= 0 -> search_loop list goes_right fuel begin end_ = Done begin.
Proof.
  intros H. destruct fuel; simpl;
    destruct (Z.gtb_spec (end_ - begin) 0); try lia; reflexivity.
Qed.

Lemma search_loop_returns (fuel : nat) :
  forall begin end_,
    0 <= begin -> end_ < len list -> end_ - begin <= Z.of_nat fuel ->
    exists p, search_loop list goes_right fuel begin end_ = Done p /\
              begin <= p /\ (p <= end_ \/ end_ < begin).
Proof.
  induction fuel as [|fuel IH]; intros begin end_ H0 Hlen Hfuel.
  - rewrite search_loop_exit by lia. exists begin. split; [reflexivity | lia].
  - destruct (Z.le_gt_cases (end_ - begin) 0) as [Hle|Hgt].
    + rewrite search_loop_exit by lia. exists begin. split; [reflexivity | lia].
    + simpl. destruct (Z.gtb_spec (end_ - begin) 0); [|lia].
      destruct (search_step_progress begin end_) as (it & -> & Hp); try lia.
      simpl. destruct it as [b e|b]; simpl in Hp.
      * destruct (IH b e) as (p & Hp1 & Hp2); try lia.
        exists p. split; [exact Hp1|]. lia.
      * subst b. exists begin. split; [reflexivity|]. lia.
Qed.

End BinarySearchTermination.

(** C9. For an index with a non-empty entry list and any query key, the
    binary-search loops of [blockEntryLE] and [blockEntryLT] terminate:
    [mid] lies in [(begin, end]]; from every state the loop can be in with
    [end - begin > 0], one pass through the body returns and either leaves
    the loop or strictly decreases [end - begin]; with [end - begin <= 0] the
    loop is left at once; and both functions return. *)
Theorem blockEntry_searches_terminate
    (prefixCompare : list byte -> list byte -> Z) (i : Index.t) (key : list byte) :
  Index.List i <> [] ->
  let list := Index.List i in
  let le := fun e => prefixCompareString (IndexEntry.Key e) (string_of_list_byte key) <=? 0 in
  let lt := fun e => prefixCompare (list_byte_of_string (IndexEntry.Key e)) key =? -1 in
  (forall begin end_, 0 <= begin -> begin < end_ -> end_ < len list ->
     begin < midpoint begin end_ <= end_ /\
     (exists it, search_step list le begin end_ = Done it /\ makes_progress begin end_ it) /\
     (exists it, search_step list lt begin end_ = Done it /\ makes_progress begin end_ it)) /\
  (forall fuel begin end_, end_ - begin <= 0 ->
     search_loop list le fuel begin end_ = Done begin /\
     search_loop list lt fuel begin end_ = Done begin) /\
  (exists r, blockEntryLE i key = Done r) /\
  (exists r, blockEntryLT prefixCompare i key = Done r).
Proof.
  intros Hne list le lt. subst list.
  set (list := Index.List i) in *.
  assert (Hlen : 0 < len list).
  { unfold len. destruct list; [congruence | simpl; lia]. }
  repeat split.
  - apply midpoint_range; lia.
  - apply midpoint_range; lia.
  - now apply search_step_progress.
  - now apply search_step_progress.
  - now apply search_loop_exit.
  - now apply search_loop_exit.
  - unfold blockEntryLE. fold list.
    destruct (index_Done list 0) as (e0 & -> & _); [lia|]. simpl.
    destruct (strings.gt (IndexEntry.Key e0) (string_of_list_byte key)); [eauto|].
    destruct (search_loop_returns list le (List.length list) 0 (len list - 1))
      as (p & Hp & Hp1 & Hp2); try (unfold len; lia).
    fold le. rewrite Hp. simpl.
    destruct (index_Done list p) as (e & -> & _); [lia|]. simpl. eauto.
  - unfold blockEntryLT. fold list.
    destruct (search_loop_returns list lt (List.length list) 0 (len list - 1))
      as (p & Hp & Hp1 & Hp2); try (unfold len; lia).
    fold lt. rewrite Hp. simpl.
    destruct (index_Done list p) as (e & -> & _); [lia|]. simpl. eauto.
Qed.

Lemma blockEntry_searches_terminate_witness :
  (exists r, blockEntryLE three_entries (bytes_of "d") = Done r) /\
  (exists r, blockEntryLT PrefixCompare three_entries (bytes_of "d") = Done r).
Proof.
  apply (blockEntry_searches_terminate PrefixCompare three_entries (bytes_of "d")).
  discriminate.
Defined.

(** ** The block locator: what [blockEntryLE] returns *)

Lemma prefixCompareString_prefix_cmp (a b : string) :
  prefixCompareString a b = prefix_cmp a b.
Proof.
  unfold prefixCompareString, slen.
  revert b. induction a as [|x a IH]; intros [|y b]; simpl String.length.
  - reflexivity.
  - reflexivity.
  - reflexivity.
  - specialize (IH b).
    replace (Z.of_nat (S (String.length a)) <? Z.of_nat (S (String.length b)))
      with (Z.of_nat (String.length a) <? Z.of_nat (String.length b)).
    2:{ destruct (Z.ltb_spec (Z.of_nat (String.length a)) (Z.of_nat (String.length b)));
        destruct (Z.ltb_spec (Z.of_nat (S (String.length a))) (Z.of_nat (S (String.length b))));
        lia. }
    destruct (Z.of_nat (String.length a) <? Z.of_nat (String.length b)); simpl;
      destruct (strings.ascii_compare x y); try reflexivity; exact IH.
Qed.

Lemma ascii_compare_eq (x y : ascii) : strings.ascii_compare x y = Eq <-> x = y.
Proof.
  unfold strings.ascii_compare. rewrite N.compare_eq_iff. split.
  - intros H. rewrite <- (ascii_N_embedding x), <- (ascii_N_embedding y). now rewrite H.
  - now intros ->.
Qed.

Lemma ascii_compare_trans (x y z : ascii) (c : comparison) :
  strings.ascii_compare x y = c -> strings.ascii_compare y z = c ->
  strings.ascii_compare x z = c.
Proof.
  unfold strings.ascii_compare. destruct c; intros H1 H2.
  - apply N.compare_eq_iff in H1, H2. apply N.compare_eq_iff. congruence.
  - rewrite N.compare_lt_iff in *. lia.
  - rewrite N.compare_gt_iff in *. lia.
Qed.

Lemma strings_Compare_range (a b : string) :
  strings.Compare a b = -1 \/ strings.Compare a b = 0 \/ strings.Compare a b = 1.
Proof.
  revert b. induction a as [|x a IH]; intros [|y b]; simpl; auto.
  destruct (strings.ascii_compare x y); auto.
Qed.

Lemma strings_Compare_refl (a : string) : strings.Compare a a = 0.
Proof.
  induction a as [|x a IH]; simpl; [reflexivity|].
  now rewrite (proj2 (ascii_compare_eq x x) eq_refl).
Qed.

Lemma strings_Compare_le_trans (a b c : string) :
  strings.Compare a b <= 0 -> strings.Compare b c <= 0 -> strings.Compare a c <= 0.
Proof.
  revert b c. induction a as [|x a IH]; intros [|y b] [|z c]; simpl; try lia.
  destruct (strings.ascii_compare x y) eqn:Exy;
    destruct (strings.ascii_compare y z) eqn:Eyz; try lia; intros H1 H2.
  - rewrite (ascii_compare_trans x y z Eq Exy Eyz). eauto.
  - apply ascii_compare_eq in Exy. subst y. now rewrite Eyz.
  - apply ascii_compare_eq in Eyz. subst z. now rewrite Exy.
  - now rewrite (ascii_compare_trans x y z Lt Exy Eyz).
Qed.

(** The prefix comparator is monotone in its first argument. *)
Lemma prefix_cmp_mono (k x y : string) :
  strings.Compare x y <= 0 -> prefix_cmp y k <= 0 -> prefix_cmp x k <= 0.
Proof.
  revert x y. induction k as [|c k IH]; intros [|a x] [|b y]; simpl; try lia.
  destruct (strings.ascii_compare a b) eqn:Eab; try lia; intros H1 H2.
  - apply ascii_compare_eq in Eab. subst b.
    destruct (strings.ascii_compare a c); try lia. eauto.
  - destruct (strings.ascii_compare b c) eqn:Ebc; try lia.
    + apply ascii_compare_eq in Ebc. subst c. rewrite Eab. lia.
    + rewrite (ascii_compare_trans a b c Lt Eab Ebc). lia.
Qed.

Lemma Compare_le_prefix_cmp (a k : string) :
  strings.Compare a k <= 0 -> prefix_cmp a k <= 0.
Proof.
  intros H. apply (prefix_cmp_mono k a k H).
  clear. induction k as [|c k IH]; simpl; [lia|].
  now rewrite (proj2 (ascii_compare_eq c c) eq_refl).
Qed.

Lemma Sorted_key_le_nth (l : list IndexEntry.t) :
  Sorted key_le l ->
  forall i j ei ej, (i <= j)%nat ->
    nth_error l i = Some ei -> nth_error l j = Some ej -> key_le ei ej.
Proof.
  intros HS. apply Sorted_StronglySorted in HS.
  2:{ intros x y z. unfold key_le. apply strings_Compare_le_trans. }
  induction HS as [|e l HS IH HF]; intros i j ei ej Hij Hi Hj.
  - destruct i; discriminate.
  - destruct i as [|i], j as [|j]; simpl in *; try lia.
    + inversion Hi; inversion Hj; subst. unfold key_le.
      rewrite strings_Compare_refl. lia.
    + inversion Hi; subst. rewrite Forall_forall in HF.
      apply HF. eapply nth_error_In; eauto.
    + apply (IH i j ei ej); auto. lia.
Qed.

Lemma midpoint_at_end (begin end_ : Z) :
  begin < end_ -> midpoint begin end_ = end_ -> end_ = begin + 1.
Proof.
  unfold midpoint. intros H.
  assert (Hq : Z.quot (end_ - begin) 2 = (end_ - begin) / 2)
    by (apply Z.quot_div_nonneg; lia).
  destruct (Z.eqb_spec (Z.quot (end_ - begin) 2 + begin) begin); [lia|].
  intros E. assert (2 * ((end_ - begin) / 2) <= end_ - begin)
    by (apply Z.mul_div_le; lia). lia.
Qed.

Section BinarySearchResult.

Variable list : list IndexEntry.t.
Variable goes_right : IndexEntry.t -> bool.

(** The entries that pass the test form an initial segment of the list. *)
Hypothesis initial_segment :
  forall i j ei ej, (i <= j)%nat ->
    nth_error list i = Some ei -> nth_error list j = Some ej ->
    goes_right ej = true -> goes_right ei = true.

Lemma search_loop_last (fuel : nat) :
  forall begin end_ eb,
    0 <= begin -> begin <= end_ -> end_ < len list ->
    end_ - begin <= Z.of_nat fuel ->
    nth_error list (Z.to_nat begin) = Some eb -> goes_right eb = true ->
    (forall j e, end_ < j -> nth_error list (Z.to_nat j) = Some e ->
                 goes_right e = false) ->
    exists p e,
      search_loop list goes_right fuel begin end_ = Done p /\
      begin <= p <= end_ /\
      nth_error list (Z.to_nat p) = Some e /\ goes_right e = true /\
      (forall j e', p < j -> nth_error list (Z.to_nat j) = Some e' ->
                    goes_right e' = false).
Proof.
  induction fuel as [|fuel IH]; intros begin end_ eb H0 Hbe Hlen Hfuel Hb Hgb Hend.
  - rewrite search_loop_exit by lia. exists begin, eb.
    repeat split; auto; try lia.
    intros j e' Hj. apply Hend. lia.
  - destruct (Z.le_gt_cases (end_ - begin) 0) as [Hle|Hgt].
    { rewrite search_loop_exit by lia. exists begin, eb.
      repeat split; auto; try lia.
      intros j e' Hj. apply Hend. lia. }
    simpl. destruct (Z.gtb_spec (end_ - begin) 0); [|lia].
    unfold search_step.
    pose proof (midpoint_range begin end_ ltac:(lia)) as Hm.
    destruct (index_Done list (midpoint begin end_)) as (em & -> & Hem); [lia|].
    simpl. destruct (goes_right em) eqn:Egm; simpl.
    + destruct (IH (midpoint begin end_) end_ em) as (p & e & Hp & Hr & Hrest);
        auto; try lia.
      exists p, e. split; [exact Hp|]. split; [lia | exact Hrest].
    + destruct (Z.eqb_spec end_ (midpoint begin end_)) as [Heq|Hne]; simpl.
      * exists begin, eb. repeat split; auto; try lia.
        intros j e' Hj Hje.
        pose proof (midpoint_at_end begin end_ ltac:(lia) (eq_sym Heq)).
        destruct (Z.eq_dec j end_) as [->|].
        -- rewrite Heq in Hje. congruence.
        -- apply (Hend j e'); [lia | exact Hje].
      * destruct (IH begin (midpoint begin end_) eb) as (p & e & Hp & Hr & Hrest);
          auto; try lia.
        { intros j e' Hj Hje.
          destruct (goes_right e') eqn:Ege; [|reflexivity].
          rewrite <- Egm. symmetry.
          apply (initial_segment (Z.to_nat (midpoint begin end_)) (Z.to_nat j) em e');
            auto. lia. }
        exists p, e. split; [exact Hp|]. split; [lia | exact Hrest].
Qed.

End BinarySearchResult.

(** C4, as the code has it.  For an index whose non-empty entry list is in
    ascending key order: [blockEntryLE] fails with [ErrIndexEntryNotFound]
    exactly when the first entry's key is strictly greater than the query in
    plain bytewise string order (Go's [>]); otherwise it returns the position
    and value of the last entry whose key is less-than-or-equal-to the query
    under the prefix comparator. *)
Theorem blockEntryLE_sorted (i : Index.t) (key : list byte)
    (e0 : IndexEntry.t) (rest : list IndexEntry.t) :
  Index.List i = e0 :: rest ->
  Sorted key_le (Index.List i) ->
  let keystr := string_of_list_byte key in
  (blockEntryLE i key = Done (0, IndexEntry.zero, Some ErrIndexEntryNotFound) <->
     strings.Compare (IndexEntry.Key e0) keystr = 1) /\
  (strings.Compare (IndexEntry.Key e0) keystr <> 1 ->
     exists p e,
       blockEntryLE i key = Done (p, e, None) /\
       0 <= p /\ nth_error (Index.List i) (Z.to_nat p) = Some e /\
       prefixCompareString (IndexEntry.Key e) keystr <= 0 /\
       (forall j e', p < j -> nth_error (Index.List i) (Z.to_nat j) = Some e' ->
                     prefixCompareString (IndexEntry.Key e') keystr > 0)).
Proof.
  intros Hl HS keystr.
  set (le := fun e => prefixCompareString (IndexEntry.Key e) keystr <=? 0).
  assert (Hlen : 0 < len (Index.List i)) by (rewrite Hl; unfold len; simpl; lia).
  assert (Hidx0 : index (Index.List i) 0 = Done e0) by (rewrite Hl; reflexivity).
  assert (Hfound : strings.Compare (IndexEntry.Key e0) keystr <> 1 ->
     exists p e,
       blockEntryLE i key = Done (p, e, None) /\
       0 <= p /\ nth_error (Index.List i) (Z.to_nat p) = Some e /\
       prefixCompareString (IndexEntry.Key e) keystr <= 0 /\
       (forall j e', p < j -> nth_error (Index.List i) (Z.to_nat j) = Some e' ->
                     prefixCompareString (IndexEntry.Key e') keystr > 0)).
  { intros Hguard.
    assert (Hle0 : strings.Compare (IndexEntry.Key e0) keystr <= 0)
      by (destruct (strings_Compare_range (IndexEntry.Key e0) keystr) as [?|[?|?]]; lia).
    destruct (search_loop_last (Index.List i) le) with
        (fuel := List.length (Index.List i)) (begin := 0)
        (end_ := len (Index.List i) - 1) (eb := e0)
      as (p & e & Hp & Hr & Hpe & Hge & Hrest); try lia; try (unfold len; lia).
    - intros a b ea eb Hab Ha Hb. unfold le. rewrite !Z.leb_le.
      rewrite !prefixCompareString_prefix_cmp. apply prefix_cmp_mono.
      exact (Sorted_key_le_nth _ HS a b ea eb Hab Ha Hb).
    - now rewrite Hl.
    - unfold le. rewrite Z.leb_le, prefixCompareString_prefix_cmp.
      now apply Compare_le_prefix_cmp.
    - intros j e' Hj Hje. assert (nth_error (Index.List i) (Z.to_nat j) <> None) by congruence.
      apply nth_error_Some in H. unfold len in Hj. lia.
    - exists p, e. unfold blockEntryLE. fold keystr. rewrite Hidx0.
      simpl bind. unfold strings.gt.
      destruct (Z.eqb_spec (strings.Compare (IndexEntry.Key e0) keystr) 1); [lia|].
      fold le. rewrite Hp. simpl bind.
      destruct (index_Done (Index.List i) p) as (e' & -> & He'); [lia|].
      assert (e' = e) by congruence. subst e'. simpl.
      split; [reflexivity|]. split; [lia|]. split; [exact Hpe|].
      split; [unfold le in Hge; now apply Z.leb_le in Hge|].
      intros j e' Hj Hje. specialize (Hrest j e' Hj Hje). unfold le in Hrest.
      apply Z.leb_gt in Hrest. lia. }
  split; [|exact Hfound].
  split.
  - intros Hres.
    destruct (Z.eq_dec (strings.Compare (IndexEntry.Key e0) keystr) 1) as [|Hn]; [assumption|].
    destruct (Hfound Hn) as (p & e & Hp & _). congruence.
  - intros Hgt. unfold blockEntryLE. fold keystr. rewrite Hidx0.
    simpl bind. unfold strings.gt. rewrite Hgt. reflexivity.
Qed.

Lemma blockEntryLE_sorted_witness :
  exists p e,
    blockEntryLE three_entries (bytes_of "d") = Done (p, e, None) /\
    0 <= p /\ nth_error (Index.List three_entries) (Z.to_nat p) = Some e /\
    prefixCompareString (IndexEntry.Key e) "d" <= 0 /\
    (forall j e', p < j -> nth_error (Index.List three_entries) (Z.to_nat j) = Some e' ->
                  prefixCompareString (IndexEntry.Key e') "d" > 0).
Proof.
  apply (blockEntryLE_sorted three_entries (bytes_of "d")
           (IndexEntry.mk "a" 0 10)
           [IndexEntry.mk "c" 10 10; IndexEntry.mk "e" 20 10]).
  - reflexivity.
  - repeat constructor; unfold key_le; vm_compute; discriminate.
  - vm_compute. discriminate.
Defined.

(** C4 as stated fails in two ways.  The guard is Go's plain [>] on strings,
    not the prefix comparator: with the single key ["ab"] and the query
    ["a"] the call fails although the prefix comparator finds the two equal.
    And the search relies on the order of the entries: on the keys
    ["a"; "z"; "b"] and the query ["c"] it returns position 0 although the
    entry at position 2 is less than the query. *)
Lemma blockEntryLE_counterexample :
  (blockEntryLE index_ab (bytes_of "a")
     = Done (0, IndexEntry.zero, Some ErrIndexEntryNotFound) /\
   prefixCompareString "ab" "a" = 0) /\
  (blockEntryLE index_unsorted (bytes_of "c")
     = Done (0, IndexEntry.mk "a" 0 10, None) /\
   nth_error (Index.List index_unsorted) 2 = Some (IndexEntry.mk "b" 20 10) /\
   prefixCompareString "b" "c" = -1).
Proof. vm_compute. repeat split; reflexivity. Qed.

(** ** The line scanner *)

(** C10. [PrefixCompare a b] is 0 for every [a] when [b] is empty; so, under
    the default comparator, [scanLineOffset] with an empty key returns offset
    0 and [terminate = false] on every non-empty buffer: the empty key
    matches the first line, whatever it is. *)
Theorem empty_key_matches_every_line :
  (forall a, PrefixCompare a [] = 0) /\
  (forall (s : Searcher.t) (buf : slice.t),
     Searcher.compare s = PrefixCompare ->
     0 < slice.len buf ->
     scanLineOffset s buf [] = Done (0, false)).
Proof.
  split.
  - intros a. unfold PrefixCompare, len. simpl.
    destruct (Z.ltb_spec (Z.of_nat (List.length a)) 0); [lia | reflexivity].
  - intros s buf Hcmp Hlen. unfold scanLineOffset, slice.len in *.
    destruct (slice.length buf) as [|n] eqn:E; [simpl in Hlen; lia|].
    simpl scanLineOffset_loop. unfold slice.len. rewrite E.
    destruct (Z.ltb_spec 0 (Z.of_nat (S n))); [|lia].
    change (len (@nil byte)) with 0.
    unfold getNBytesFrom, slice.sub, slice.cap. simpl.
    destruct (Z.leb_spec 0 (Z.of_nat (List.length (slice.array buf)))); [|lia].
    simpl. rewrite Hcmp. reflexivity.
Qed.

Lemma empty_key_matches_every_line_witness :
  scanLineOffset (searcher_on alstom_block []) (slice.of_list alstom_block) []
  = Done (0, false).
Proof.
  apply (proj2 empty_key_matches_every_line).
  - reflexivity.
  - vm_compute. reflexivity.
Defined.

(** The scan does not read [s.boundary]: two searchers that differ in that
    flag only scan alike. *)
Lemma scanLineOffset_loop_same (s s' : Searcher.t) :
  Searcher.compare s' = Searcher.compare s ->
  Searcher.matchLE s' = Searcher.matchLE s ->
  forall fuel buf k trailing offset,
    scanLineOffset_loop fuel s' buf k trailing offset =
    scanLineOffset_loop fuel s buf k trailing offset.
Proof.
  intros Hc Hm. induction fuel as [|fuel IH]; intros; simpl.
  - unfold scanLineOffset_miss. now rewrite Hm.
  - unfold scanLineOffset_miss. rewrite Hc, Hm.
    destruct (offset <? slice.len buf); [|reflexivity].
    destruct (getNBytesFrom buf offset (len k)); simpl; try reflexivity.
    destruct (_ =? 0); [reflexivity|]. destruct (_ =? 1); [reflexivity|].
    destruct (slice.from buf offset); simpl; try reflexivity.
    destruct (_ =? -1); [reflexivity|]. apply IH.
Qed.

Lemma scanLinesMatching_loop_same (s s' : Searcher.t) :
  Searcher.compare s' = Searcher.compare s ->
  forall fuel buf b n lines offset terminate,
    scanLinesMatching_loop fuel s' buf b n lines offset terminate =
    scanLinesMatching_loop fuel s buf b n lines offset terminate.
Proof.
  intros Hc. induction fuel as [|fuel IH]; intros; simpl; [reflexivity|].
  rewrite Hc.
  destruct (offset <? slice.len buf); [|reflexivity].
  destruct ((n >? 0) && (len lines >=? n)); [reflexivity|].
  destruct (getNBytesFrom buf offset (len b)); simpl; try reflexivity.
  destruct (slice.from buf offset); simpl; try reflexivity.
  destruct (_ <? 0).
  - destruct (_ =? -1); [reflexivity | apply IH].
  - destruct (_ =? 0); [|reflexivity].
    destruct (_ =? -1); [reflexivity|].
    destruct (slice.sub buf offset _); simpl; try reflexivity. apply IH.
Qed.

Lemma scanLinesMatching_ignores_boundary (s : Searcher.t) (o : Options.t)
    (buf : slice.t) (b : list byte) (n : Z) :
  Options.MatchLE o = false ->
  scanLinesMatching (setOptions s o) buf b n = scanLinesMatching s buf b n.
Proof.
  intros Hm. unfold scanLinesMatching, scanLineOffset.
  rewrite (scanLineOffset_loop_same s (setOptions s o)).
  - destruct (scanLineOffset_loop _ s buf b (-1) 0) as [[offset terminate]| |];
      simpl; try reflexivity.
    destruct ((offset =? -1) || terminate); [reflexivity|].
    now apply scanLinesMatching_loop_same.
  - reflexivity.
  - simpl. now rewrite Hm.
Qed.

(** C5 (code at the failing input).  With [Boundary] set, the scan for
    ["alstom.c"] still returns the line [alstom.com,alstom.com,SOA], in which
    the last byte of the match (['c']) and the byte after it (['o']) are
    both word characters; [checkPrefixMatch], which no function calls, is
    the one that rejects the line, without asking to stop. *)
Theorem scan_with_boundary_keeps_unbounded_match :
  let s := setOptions (searcher_on alstom_block []) (Options.mk false true false) in
  Searcher.boundary s = true /\
  scanLinesMatching s (slice.of_list alstom_block) (bytes_of "alstom.c") 0
    = Done ([bytes_of "alstom.com,alstom.com,SOA"], false) /\
  checkPrefixMatch s (bytes_of "alstom.com,alstom.com,SOA") (bytes_of "alstom.c")
    = Done ([], false, None).
Proof. vm_compute. repeat split; reflexivity. Qed.

(** ** Lookups: the window past the end of a block *)

(** The block-scan builder gives the indexes used below: one block for the
    first two files at a blocksize of 8192, two blocks for the other two at
    the default blocksize. *)
Lemma generateBlockIndex_examples :
  generateBlockIndex 5 (empty_index 8192) file_ab
    = Done (index_with 8192 entries_ab, None) /\
  generateBlockIndex 5 (empty_index 8192) file_abc
    = Done (index_with 8192 entries_abc, None) /\
  generateBlockIndex 5 (empty_index defaultBlocksize) file_abd
    = Done (index_of_entries entries_abd, None) /\
  generateBlockIndex 5 (empty_index defaultBlocksize) file_abcd
    = Done (index_of_entries entries_abcd, None).
Proof. vm_compute. repeat split; reflexivity. Qed.

Lemma scan_block_ab_panics :
  scanIndexedLines_loop 2 (index_with 8192 entries_ab)
    (searcher_with 8192 file_ab entries_ab) (bytes_of "cccc") 1 [] 0
    (IndexEntry.mk "a" 0 4100) = Panic.
Proof. vm_compute. reflexivity. Qed.

Lemma scan_block_abc_panics :
  scanIndexedLines_loop 2 (index_with 8192 entries_abc)
    (searcher_with 8192 file_abc entries_abc) (bytes_of "bbbb") 0 [] 0
    (IndexEntry.mk "a" 0 4098) = Panic.
Proof. vm_compute. reflexivity. Qed.

Lemma scan_block_a_panics :
  scanIndexedLines_loop 2 (index_of_entries entries_a)
    (searcher_on file_a entries_a) long_key 0 [] 0
    (IndexEntry.mk "a" 0 4) = Panic.
Proof. vm_compute. reflexivity. Qed.

(** Unfolds a lookup on [s], a searcher on an uncompressed file with the
    index [index], up to the call of the locator. *)
Ltac enter_indexed_lookup s index :=
  unfold Line, Lines, LinesN, scanIndexedLines;
  change (isCompressed _ s) with false;
  change (Searcher.Index s) with (Some index);
  cbv iota.

(** Replaces the scan of the one block of [index] by its result [Hpanic]. *)
Ltac scan_panics index Hpanic :=
  change (S (List.length (Index.List index))) with 2%nat;
  cbv beta iota delta [bind]; rewrite Hpanic; reflexivity.

Section FailingLookups.

Variable BlockEntry : Index.t -> list byte -> exec (Z * IndexEntry.t).
Variable zstd_Decompress : slice.t -> list byte -> slice.t * option error.
Variable NewIndex : string -> Index.t + error.
Variable Index_Filename : Index.t -> string.
Variable fuel : nat.

(** C1 (code at the failing input).  The file is four lines of 1024 bytes
    with the key [a] and the line [b,1], in one block of 4100 bytes; no line
    has the key [cccc], so the linear scan finds nothing and [Line] should
    return [ErrNotFound].  The block is longer than the searcher's buffer
    and so is read into a fresh buffer of capacity 4100; at its last line,
    [b,1] at offset 4096, the window [buf[4096:4101]] for the five bytes of
    [cccc,] is out of range, and the call panics. *)
Theorem Line_absent_key_panics :
  BlockEntry (index_with 8192 entries_ab) (bytes_of "cccc")
    = Done (0, IndexEntry.mk "a" 0 4100) ->
  linear_scan_first (bytes_of ",") file_ab (bytes_of "cccc") = None /\
  Line BlockEntry zstd_Decompress NewIndex Index_Filename fuel
    (searcher_with 8192 file_ab entries_ab) (bytes_of "cccc") = Panic.
Proof.
  intros HBE. split; [vm_compute; reflexivity|].
  enter_indexed_lookup (searcher_with 8192 file_ab entries_ab)
                       (index_with 8192 entries_ab).
  rewrite HBE. scan_panics (index_with 8192 entries_ab) scan_block_ab_panics.
Qed.

(** C2 (code at the failing input).  The file is three lines of 1024 bytes
    with the key [a], one line with the key [bbbb] and the line [c,], in one
    block of 4098 bytes; the lines with key [bbbb] are that one line.  After
    it has been collected, the window [buf[4095:4100]] at the last line,
    [c,] at offset 4095, is out of range for a buffer of capacity 4098, and
    [Lines] panics instead of returning the line. *)
Theorem Lines_present_key_panics :
  BlockEntry (index_with 8192 entries_abc) (bytes_of "bbbb")
    = Done (0, IndexEntry.mk "a" 0 4098) ->
  linear_scan_all (bytes_of ",") file_abc (bytes_of "bbbb") = [row "bbbb" 1017] /\
  Lines BlockEntry zstd_Decompress NewIndex Index_Filename fuel
    (searcher_with 8192 file_abc entries_abc) (bytes_of "bbbb") = Panic.
Proof.
  intros HBE. split; [vm_compute; reflexivity|].
  enter_indexed_lookup (searcher_with 8192 file_abc entries_abc)
                       (index_with 8192 entries_abc).
  rewrite HBE. scan_panics (index_with 8192 entries_abc) scan_block_abc_panics.
Qed.

(** C6 (code at the failing input).  The file is the single line [a,1]
    and the key is 4097 bytes long, so no line matches it.  On the
    uncompressed path the first window, [buf[0:4098]], is already past the
    4097 bytes of capacity that [NewSearcher] gives the buffer: [LinesN]
    panics where [ErrNotFound] is due. *)
Theorem LinesN_long_key_panics :
  BlockEntry (index_of_entries entries_a) long_key
    = Done (0, IndexEntry.mk "a" 0 4) ->
  linear_scan_all (bytes_of ",") file_a long_key = [] /\
  LinesN BlockEntry zstd_Decompress NewIndex Index_Filename fuel
    (searcher_on file_a entries_a) long_key 0 = Panic.
Proof.
  intros HBE. split; [vm_compute; reflexivity|].
  enter_indexed_lookup (searcher_on file_a entries_a) (index_of_entries entries_a).
  rewrite HBE. scan_panics (index_of_entries entries_a) scan_block_a_panics.
Qed.

End FailingLookups.

Lemma Line_absent_key_panics_witness :
  linear_scan_first (bytes_of ",") file_ab (bytes_of "cccc") = None /\
  Line locator_LT no_Decompress no_NewIndex Index.Filepath 0
    (searcher_with 8192 file_ab entries_ab) (bytes_of "cccc") = Panic.
Proof.
  apply (Line_absent_key_panics locator_LT no_Decompress no_NewIndex Index.Filepath 0).
  vm_compute. reflexivity.
Defined.

Lemma Lines_present_key_panics_witness :
  linear_scan_all (bytes_of ",") file_abc (bytes_of "bbbb") = [row "bbbb" 1017] /\
  Lines locator_LT no_Decompress no_NewIndex Index.Filepath 0
    (searcher_with 8192 file_abc entries_abc) (bytes_of "bbbb") = Panic.
Proof.
  apply (Lines_present_key_panics locator_LT no_Decompress no_NewIndex Index.Filepath 0).
  vm_compute. reflexivity.
Defined.

Lemma LinesN_long_key_panics_witness :
  linear_scan_all (bytes_of ",") file_a long_key = [] /\
  LinesN locator_LT no_Decompress no_NewIndex Index.Filepath 0
    (searcher_on file_a entries_a) long_key 0 = Panic.
Proof.
  apply (LinesN_long_key_panics locator_LT no_Decompress no_NewIndex Index.Filepath 0).
  vm_compute. reflexivity.
Defined.

(** The same happens with the index built at the default blocksize, where the
    files have a second block: from either locator of [index.go] the lookups
    start at the first block, which is longer than the buffer, and panic at
    its last line. *)
Lemma lookups_panic_at_default_blocksize :
  linear_scan_first (bytes_of ",") file_abd (bytes_of "cccc") = None /\
  Line locator_LT no_Decompress no_NewIndex Index.Filepath 0
    (searcher_on file_abd entries_abd) (bytes_of "cccc") = Panic /\
  Line locator_LE no_Decompress no_NewIndex Index.Filepath 0
    (searcher_on file_abd entries_abd) (bytes_of "cccc") = Panic /\
  linear_scan_all (bytes_of ",") file_abcd (bytes_of "bbbb") = [row "bbbb" 1017] /\
  Lines locator_LT no_Decompress no_NewIndex Index.Filepath 0
    (searcher_on file_abcd entries_abcd) (bytes_of "bbbb") = Panic /\
  Lines locator_LE no_Decompress no_NewIndex Index.Filepath 0
    (searcher_on file_abcd entries_abcd) (bytes_of "bbbb") = Panic.
Proof. vm_compute. repeat split; reflexivity. Qed.

(** ** The line-scan builder: a key out of order *)

(** C8 (code at the failing input).  No header is declared and the records
    are [b,1], [c,1], [a,1]: the key that is less than its predecessor is on
    the third record.  The builder tests [blockNumber == 0], which holds for
    every record that starts in the first block, not only for the second
    one: with the default blocksize the build does not fail but sets
    [Header], drops the entries it had and returns an index whose only entry
    is the third record.  With a blocksize of 4 bytes the second record
    opens block 1, and the same input is a sort violation. *)
Theorem generateLineIndex_third_record_out_of_order :
  generateLineIndex (empty_index 4096) records_bca None
    = Done (Index.mk 4096 (bytes_of ",") 0 "/data/d.csv" true true true 1
              [IndexEntry.mk "a" 8 4] 2, None) /\
  exists index,
    generateLineIndex (empty_index 4) records_bca None
      = Done (index, Some (ErrOther "Error: key sort violation")).
Proof. split; [vm_compute; reflexivity | eexists; vm_compute; reflexivity]. Qed.

(** ** Loading an index: the order of the checks *)

(** C7.  [LoadIndex] fails with [ErrIndexNotFound] when the sibling index
    file does not exist; once the file has been read, it fails with
    [ErrIndexPathMismatch] when the [filepath] of the index differs from the
    absolute dataset path, whatever the modification times are; when the
    paths agree it fails with [ErrIndexExpired] if the dataset's
    modification time is strictly greater than the [epoch] of the index; and
    otherwise it succeeds, with [Version] 1 when the document has no
    [version] key. *)
Theorem LoadIndex_checks (w : Env) (path abs idxpath : string) :
  filepath_Abs w path = inl abs ->
  IndexPath w abs = inl idxpath ->
  (forall err, os_Stat w idxpath = inr err -> os.IsNotExist err = true ->
     LoadIndex w path = inr ErrIndexNotFound) /\
  (forall info fh data,
     os_Stat w idxpath = inl info -> os_Open w idxpath = inl fh ->
     zstd_ReadAll w fh = inl data ->
     let d := yaml_parse w data in
     let index := yaml.Unmarshal d Index_zero in
     (Index.Filepath index <> abs -> LoadIndex w path = inr ErrIndexPathMismatch) /\
     (Index.Filepath index = abs ->
      forall fe, epoch w abs = inl fe ->
        (fe > Index.Epoch index -> LoadIndex w path = inr ErrIndexExpired) /\
        (fe <= Index.Epoch index ->
           exists loaded, LoadIndex w path = inl loaded /\
             (yaml.version d = None -> Index.Version loaded = 1) /\
             (Index.Version index <> 0 -> loaded = index)))).
Proof.
  intros Habs Hidx.
  unfold LoadIndex, and_then. rewrite Habs, Hidx.
  split.
  - intros err Hstat Hne. now rewrite Hstat, Hne.
  - intros info fh data Hstat Hopen Hread.
    rewrite Hstat, Hopen, Hread.
    set (index := yaml.Unmarshal (yaml_parse w data) Index_zero).
    split.
    + intros Hneq. apply String.eqb_neq in Hneq. now rewrite Hneq.
    + intros Heq fe Hfe. apply String.eqb_eq in Heq. rewrite Heq. simpl negb. cbv iota.
      rewrite Hfe. split.
      * intros Hgt. destruct (Z.gtb_spec fe (Index.Epoch index)); [reflexivity | lia].
      * intros Hle. destruct (Z.gtb_spec fe (Index.Epoch index)); [lia|].
        eexists. split; [reflexivity|]. split.
        -- intros Hv. replace (Index.Version index) with 0.
           ++ reflexivity.
           ++ subst index. unfold yaml.Unmarshal. simpl. now rewrite Hv.
        -- intros Hv. destruct (Z.eqb_spec (Index.Version index) 0); [contradiction | reflexivity].
Qed.

Lemma LoadIndex_checks_witness :
  (LoadIndex (data_dir 100 doc_v1) "/data/x.csv" = inr ErrIndexNotFound) /\
  (exists loaded, LoadIndex (data_dir 100 doc_v1) "/data/d.csv" = inl loaded /\
                  Index.Version loaded = 1) /\
  (LoadIndex (data_dir 101 doc_v1) "/data/d.csv" = inr ErrIndexExpired).
Proof.
  split; [|split].
  - apply (proj1 (LoadIndex_checks (data_dir 100 doc_v1) "/data/x.csv" "/data/x.csv"
                    "/data/x_csv.bsx" eq_refl eq_refl) ErrNotExist); reflexivity.
  - destruct (proj2 (LoadIndex_checks (data_dir 100 doc_v1) "/data/d.csv" "/data/d.csv"
                       "/data/d_csv.bsx" eq_refl eq_refl)
                (os.mkFileInfo false 64 100) [] [] eq_refl eq_refl eq_refl) as [_ H].
    destruct (H eq_refl 100 eq_refl) as [_ H'].
    destruct (H' ltac:(vm_compute; discriminate)) as (loaded & Hl & Hv & _).
    exists loaded. split; [exact Hl | apply Hv; reflexivity].
  - destruct (proj2 (LoadIndex_checks (data_dir 101 doc_v1) "/data/d.csv" "/data/d.csv"
                       "/data/d_csv.bsx" eq_refl eq_refl)
                (os.mkFileInfo false 64 101) [] [] eq_refl eq_refl eq_refl) as [_ H].
    destruct (H eq_refl 101 eq_refl) as [H' _].
    apply H'. reflexivity.
Defined.

(** ** Lookups that return *)

(** On a block that is shorter than the buffer the lookups are those of the
    package's tests: the first line with the key, all lines with the key and
    none whose key merely starts with it, [ErrNotFound] for a key that is
    not there. *)
Example Lines_alstom :
  exists s,
    Lines locator_LT no_Decompress no_NewIndex Index.Filepath 0
      (searcher_on file_alstom entries_alstom) (bytes_of "alstom.com")
    = Done (s, (map bytes_of ["alstom.com,alstom.com,SOA";
                              "alstom.com,alstom.com,ULT"]%string, None)) /\
    linear_scan_all (bytes_of ",") file_alstom (bytes_of "alstom.com")
    = map bytes_of ["alstom.com,alstom.com,SOA"; "alstom.com,alstom.com,ULT"]%string.
Proof. eexists. vm_compute. split; reflexivity. Qed.

Example Line_alstom :
  (exists s,
     Line locator_LT no_Decompress no_NewIndex Index.Filepath 0
       (searcher_on file_alstom entries_alstom) (bytes_of "alstom.com.au")
     = Done (s, (bytes_of "alstom.com.au,alstom.com,RED", None))) /\
  (exists s,
     Line locator_LT no_Decompress no_NewIndex Index.Filepath 0
       (searcher_on file_alstom entries_alstom) (bytes_of "alstom.co")
     = Done (s, ([], Some ErrNotFound))).
Proof. split; eexists; vm_compute; reflexivity. Qed.

(** Lines with one key that go over a block boundary are collected from
    all the blocks they are in. *)
Example Lines_spill :
  exists s,
    Lines locator_LT no_Decompress no_NewIndex Index.Filepath 0
      (searcher_on file_spill entries_spill) (bytes_of "b")
    = Done (s, (map bytes_of ["b,1"; "b,2"; "b,3"]%string, None)) /\
    linear_scan_all (bytes_of ",") file_spill (bytes_of "b")
    = map bytes_of ["b,1"; "b,2"; "b,3"]%string.
Proof. eexists. vm_compute. split; reflexivity. Qed.

(** Where the two scanning loops return, they differ as documented: the
    uncompressed one returns [ErrNotFound] exactly when it has collected no
    line, the compressed one returns whatever it has collected and no
    error. *)
Lemma indexed_result_cases (lines : list (list byte)) :
  (lines = [] /\ indexed_result lines = ([], Some ErrNotFound)) \/
  (lines <> [] /\ indexed_result lines = (lines, None)).
Proof.
  unfold indexed_result, len. destruct lines as [|l lines]; simpl.
  - left. split; reflexivity.
  - right. split; [discriminate | reflexivity].
Qed.

Lemma readBlockEntry_error (s s' : Searcher.t) (entry : IndexEntry.t) (err : error) :
  readBlockEntry s entry = Done (s', Some err) -> err <> ErrNotFound.
Proof.
  unfold readBlockEntry.
  destruct (Searcher.bufOffset s =? IndexEntry.Offset entry); [discriminate|].
  destruct (if IndexEntry.Length entry >? slice.cap (Searcher.buf s)
            then slice.make (IndexEntry.Length entry)
            else slice.upto (Searcher.buf s) (IndexEntry.Length entry));
    simpl; try discriminate.
  unfold ReadAt. destruct (IndexEntry.Offset entry <? 0).
  - intros H. inversion H. discriminate.
  - destruct (len _ <? slice.len a);
      destruct (len _ <? IndexEntry.Length entry); intros H; inversion H; discriminate.
Qed.

Lemma scanIndexedLines_loop_returns (fuel : nat) (index : Index.t) :
  forall s k n lines e entry s' ls err,
    scanIndexedLines_loop fuel index s k n lines e entry = Done (s', (ls, err)) ->
    (ls = [] /\ err = Some ErrNotFound) \/
    (ls <> [] /\ err = None) \/
    (ls = [] /\ exists e', err = Some e' /\ e' <> ErrNotFound).
Proof.
  induction fuel as [|fuel IH]; intros s k n lines e entry s' ls err; simpl;
    [discriminate|].
  destruct (readBlockEntry s entry) as [[s1 [rerr|]]| |] eqn:Hread; simpl;
    try discriminate.
  - intros H. inversion H; subst. right. right. split; [reflexivity|].
    eexists. split; [reflexivity|]. eapply readBlockEntry_error; eauto.
  - destruct (scanLinesMatching s1 (Searcher.buf s1) (k ++ Index.Delimiter index) n)
      as [[l terminate]| |]; simpl; try discriminate.
    set (lines' := if len l >? 0 then lines ++ l else lines).
    assert (Hres : forall s0, Done (s0, indexed_result lines') = Done (s', (ls, err)) ->
              (ls = [] /\ err = Some ErrNotFound) \/
              (ls <> [] /\ err = None) \/
              (ls = [] /\ exists e', err = Some e' /\ e' <> ErrNotFound)).
    { intros s0 H.
      destruct (indexed_result_cases lines') as [[E R]|[E R]]; rewrite R in H;
        inversion H; subst; auto. }
    destruct terminate; [apply Hres|].
    destruct (blockEntryN index (e + 1)) as [entry' ok]. destruct ok; [apply IH | apply Hres].
Qed.

Section CompressedLoop.

Variable zstd_Decompress : slice.t -> list byte -> slice.t * option error.

Lemma scanCompressedLines_loop_returns (fuel : nat) (index : Index.t) :
  forall s k n lines e entry s' ls err,
    scanCompressedLines_loop zstd_Decompress fuel index s k n lines e entry
      = Done (s', (ls, err)) ->
    err = None \/
    (ls = [] /\ exists s0 entry0,
        decompressBlockEntry zstd_Decompress s0 entry0 = Done (s', err)).
Proof.
  induction fuel as [|fuel IH]; intros s k n lines e entry s' ls err; simpl;
    [discriminate|].
  destruct (decompressBlockEntry zstd_Decompress s entry) as [[s1 [derr|]]| |] eqn:Hd;
    simpl; try discriminate.
  - intros H. inversion H; subst. right. split; [reflexivity|]. eauto.
  - destruct (scanLinesMatching s1 (Searcher.dbuf s1) (k ++ Index.Delimiter index) n)
      as [[l terminate]| |]; simpl; try discriminate.
    destruct terminate; [intros H; inversion H; subst; now left|].
    destruct (blockEntryN index (e + 1)) as [entry' ok].
    destruct ok; [apply IH | intros H; inversion H; subst; now left].
Qed.

(** The compressed loop asks for [BlockEntryN(e + 1)] on every pass and
    never changes [e].  Once it is at that block, and the scan of the block
    neither finds a line nor asks to stop, every further pass is the same:
    no budget is enough for the loop to return. *)
Lemma scanCompressedLines_loop_stuck (index : Index.t) (s : Searcher.t)
    (k : list byte) (n : Z) (lines : list (list byte)) (e : Z) (next : IndexEntry.t) :
  Searcher.dbufOffset s = IndexEntry.Offset next ->
  scanLinesMatching s (Searcher.dbuf s) (k ++ Index.Delimiter index) n
    = Done ([], false) ->
  blockEntryN index (e + 1) = (next, true) ->
  forall fuel,
    scanCompressedLines_loop zstd_Decompress fuel index s k n lines e next = OutOfFuel.
Proof.
  intros Hoff Hscan Hnext. induction fuel as [|fuel IH]; simpl; [reflexivity|].
  unfold decompressBlockEntry. rewrite Hoff, Z.eqb_refl. simpl.
  rewrite Hscan. simpl. rewrite Hnext. exact IH.
Qed.

End CompressedLoop.

(** An instance, with the locator [blockEntryLT] and blocks that are stored
    as they are.  The blocks hold the lines [aa,1] and [ab!1,1]; the key
    [ab] has no line, and both lines sort before [ab,].  The lookup starts
    at block 0, goes on to block 1, and stays there. *)
Lemma LinesN_compressed_never_returns (fuel : nat) :
  linear_scan_all (bytes_of ",") file_two_blocks (bytes_of "ab") = [] /\
  LinesN locator_LT stored_Decompress no_NewIndex Index.Filepath fuel
    searcher_zst (bytes_of "ab") 0 = OutOfFuel.
Proof.
  split; [vm_compute; reflexivity|].
  unfold LinesN, scanCompressedLines.
  change (isCompressed Index.Filepath searcher_zst) with true.
  change (Searcher.Index searcher_zst) with (Some (index_of_entries entries_two_blocks)).
  cbv iota.
  replace (locator_LT (index_of_entries entries_two_blocks) (bytes_of "ab"))
    with (Done (0, IndexEntry.mk "aa" 0 5)) by (vm_compute; reflexivity).
  cbv beta iota delta [bind].
  destruct fuel as [|fuel]; [reflexivity|].
  cbn [scanCompressedLines_loop].
  replace (decompressBlockEntry stored_Decompress searcher_zst (IndexEntry.mk "aa" 0 5))
    with (Done (searcher_zst_1, @None error)) by (vm_compute; reflexivity).
  cbv beta iota delta [bind].
  replace (scanLinesMatching searcher_zst_1 (Searcher.dbuf searcher_zst_1)
             (bytes_of "ab" ++ Index.Delimiter (index_of_entries entries_two_blocks)) 0)
    with (Done (@nil (list byte), false)) by (vm_compute; reflexivity).
  cbv beta iota delta [bind].
  replace (blockEntryN (index_of_entries entries_two_blocks) (0 + 1))
    with (IndexEntry.mk "ab!1" 5 7, true) by (vm_compute; reflexivity).
  change (len (@nil (list byte)) >? 0) with false. cbv iota.
  destruct fuel as [|fuel]; [reflexivity|].
  cbn [scanCompressedLines_loop].
  replace (decompressBlockEntry stored_Decompress searcher_zst_1 (IndexEntry.mk "ab!1" 5 7))
    with (Done (searcher_zst_2, @None error)) by (vm_compute; reflexivity).
  cbv beta iota delta [bind].
  replace (scanLinesMatching searcher_zst_2 (Searcher.dbuf searcher_zst_2)
             (bytes_of "ab" ++ Index.Delimiter (index_of_entries entries_two_blocks)) 0)
    with (Done (@nil (list byte), false)) by (vm_compute; reflexivity).
  cbv beta iota delta [bind].
  replace (blockEntryN (index_of_entries entries_two_blocks) (0 + 1))
    with (IndexEntry.mk "ab!1" 5 7, true) by (vm_compute; reflexivity).
  change (len (@nil (list byte)) >? 0) with false. cbv iota.
  apply scanCompressedLines_loop_stuck; vm_compute; reflexivity.
Qed.

(** ** The budgets given to the bounded loops are enough *)

Lemma IndexByte_range (b : list byte) (c : byte) : -1 <= bytes.IndexByte b c.
Proof.
  induction b as [|x b IH]; simpl; [lia|].
  destruct (Byte.eqb x c); [lia|].
  destruct (Z.eqb_spec (bytes.IndexByte b c) (-1)); lia.
Qed.

Lemma slice_sub_returns (s : slice.t) (low high : Z) :
  slice.sub s low high <> OutOfFuel.
Proof. unfold slice.sub. destruct (_ && _); discriminate. Qed.

(** Takes the cases of a slice expression: a slice, or a panic. *)
Ltac slice_cases e :=
  let E := fresh "E" in
  destruct e eqn:E; simpl; try discriminate;
  try (exfalso; first [ apply (slice_sub_returns _ _ _ E) ]).

Lemma scanLineOffset_loop_fuel (s : Searcher.t) (buf : slice.t) (k : list byte) :
  forall fuel trailing offset,
    slice.len buf - offset <= Z.of_nat fuel ->
    scanLineOffset_loop fuel s buf k trailing offset <> OutOfFuel.
Proof.
  induction fuel as [|fuel IH]; intros trailing offset Hfuel; simpl.
  - destruct (Z.ltb_spec offset (slice.len buf)); [lia | discriminate].
  - destruct (Z.ltb_spec offset (slice.len buf)); [|discriminate].
    unfold getNBytesFrom, slice.from.
    slice_cases (slice.sub buf offset (offset + len k)).
    destruct (_ =? 0); [discriminate|]. destruct (_ =? 1); [discriminate|].
    slice_cases (slice.sub buf offset (slice.len buf)).
    match goal with |- context [bytes.IndexByte ?d nl] =>
      pose proof (IndexByte_range d nl);
      destruct (Z.eqb_spec (bytes.IndexByte d nl) (-1)); [discriminate|] end.
    apply IH. lia.
Qed.

Lemma scanLineOffset_loop_offset (s : Searcher.t) (buf : slice.t) (k : list byte) :
  forall fuel trailing offset o t,
    -1 <= trailing -> 0 <= offset ->
    scanLineOffset_loop fuel s buf k trailing offset = Done (o, t) -> -1 <= o.
Proof.
  assert (Hmiss : forall trailing t o t', -1 <= trailing ->
            Done (scanLineOffset_miss s trailing t) = Done (o, t') -> -1 <= o).
  { intros trailing t o t' Ht. unfold scanLineOffset_miss.
    destruct (Searcher.matchLE s && (trailing >? -1)); intros H; inversion H; lia. }
  induction fuel as [|fuel IH]; intros trailing offset o t Ht Ho; simpl.
  - destruct (offset <? slice.len buf); [discriminate | apply Hmiss; lia].
  - destruct (offset <? slice.len buf); [|apply Hmiss; lia].
    destruct (getNBytesFrom buf offset (len k)); simpl; try discriminate.
    destruct (_ =? 0); [intros H; inversion H; lia|].
    destruct (_ =? 1); [apply Hmiss; lia|].
    destruct (slice.from buf offset) as [rest| |]; simpl; try discriminate.
    pose proof (IndexByte_range (slice.data rest) nl).
    destruct (Z.eqb_spec (bytes.IndexByte (slice.data rest) nl) (-1));
      [apply Hmiss; lia|].
    apply IH; lia.
Qed.

Lemma scanLinesMatching_loop_fuel (s : Searcher.t) (buf : slice.t) (b : list byte)
    (n : Z) :
  forall fuel lines offset terminate,
    slice.len buf - offset <= Z.of_nat fuel ->
    scanLinesMatching_loop fuel s buf b n lines offset terminate <> OutOfFuel.
Proof.
  induction fuel as [|fuel IH]; intros lines offset terminate Hfuel; simpl.
  - destruct (Z.ltb_spec offset (slice.len buf)); [lia | discriminate].
  - destruct (Z.ltb_spec offset (slice.len buf)); [|discriminate].
    destruct ((n >? 0) && (len lines >=? n)); [discriminate|].
    unfold getNBytesFrom, slice.from.
    slice_cases (slice.sub buf offset (offset + len b)).
    slice_cases (slice.sub buf offset (slice.len buf)).
    match goal with |- context [bytes.IndexByte ?d nl] =>
      pose proof (IndexByte_range d nl);
      destruct (Z.eqb_spec (bytes.IndexByte d nl) (-1)) end.
    + destruct (_ <? 0); [discriminate|]. destruct (_ =? 0); discriminate.
    + destruct (_ <? 0); [apply IH; lia|].
      destruct (_ =? 0); [|discriminate].
      match goal with |- context [slice.sub buf offset ?h] =>
        slice_cases (slice.sub buf offset h) end.
      apply IH. lia.
Qed.

(** Neither scan is ever cut off. *)
Lemma scanLinesMatching_fuel (s : Searcher.t) (buf : slice.t) (b : list byte) (n : Z) :
  scanLineOffset s buf b <> OutOfFuel /\ scanLinesMatching s buf b n <> OutOfFuel.
Proof.
  assert (H1 : scanLineOffset s buf b <> OutOfFuel).
  { unfold scanLineOffset. apply scanLineOffset_loop_fuel. unfold slice.len. lia. }
  split; [exact H1|].
  unfold scanLinesMatching.
  destruct (scanLineOffset s buf b) as [[offset terminate]| |] eqn:E; simpl;
    try discriminate; [|contradiction].
  pose proof (scanLineOffset_loop_offset s buf b (slice.length buf) (-1) 0
                offset terminate ltac:(lia) ltac:(lia) E) as Ho.
  destruct (Z.eqb_spec offset (-1)); simpl; [discriminate|].
  destruct terminate; [discriminate|].
  apply scanLinesMatching_loop_fuel. unfold slice.len. lia.
Qed.

Lemma readBlockEntry_returns (s : Searcher.t) (entry : IndexEntry.t) :
  readBlockEntry s entry <> OutOfFuel.
Proof.
  unfold readBlockEntry. destruct (_ =? _); [discriminate|].
  assert (H : forall (m : exec slice.t) (k : slice.t -> exec (Searcher.t * option error)),
             m <> OutOfFuel -> (forall b, k b <> OutOfFuel) -> bind m k <> OutOfFuel).
  { intros [b| |] k Hm Hk; simpl; [apply Hk | discriminate | contradiction]. }
  apply H.
  - destruct (_ >? _).
    + unfold slice.make. destruct (_ <? 0); discriminate.
    + apply slice_sub_returns.
  - intros b. destruct (ReadAt _ _ _) as [[buf bytesread] [err|]].
    + destruct err; try discriminate. destruct (_ <? _); discriminate.
    + destruct (_ <? _); discriminate.
Qed.

(** Nor is the loop over the blocks of an uncompressed file. *)
Lemma scanIndexedLines_loop_fuel (index : Index.t) (k : list byte) (n : Z) :
  forall fuel s lines e entry,
    (1 <= fuel)%nat ->
    (0 <= e + 1 -> len (Index.List index) - (e + 1) < Z.of_nat fuel) ->
    scanIndexedLines_loop fuel index s k n lines e entry <> OutOfFuel.
Proof.
  induction fuel as [|fuel IH]; intros s lines e entry H1 He; [lia|]. simpl.
  pose proof (readBlockEntry_returns s entry) as Hr.
  destruct (readBlockEntry s entry) as [[s1 [err|]]| |]; simpl;
    try discriminate; [|contradiction].
  pose proof (proj2 (scanLinesMatching_fuel s1 (Searcher.buf s1)
                       (k ++ Index.Delimiter index) n)) as Hs.
  destruct (scanLinesMatching s1 (Searcher.buf s1) (k ++ Index.Delimiter index) n)
    as [[l terminate]| |]; simpl; try discriminate; [|contradiction].
  destruct terminate; [discriminate|].
  unfold blockEntryN.
  destruct (Z.ltb_spec (e + 1) 0); simpl; [discriminate|].
  destruct (Z.geb_spec (e + 1) (len (Index.List index))); simpl; [discriminate|].
  destruct (nth_error (Index.List index) (Z.to_nat (e + 1))); [|discriminate].
  apply IH; lia.
Qed.

Lemma scanIndexedLines_fuel
    (BlockEntry : Index.t -> list byte -> exec (Z * IndexEntry.t))
    (s : Searcher.t) (k : list byte) (n : Z) :
  (forall index, BlockEntry index k <> OutOfFuel) ->
  scanIndexedLines BlockEntry s k n <> OutOfFuel.
Proof.
  intros HBE. unfold scanIndexedLines.
  destruct (Searcher.Index s) as [index|]; [|discriminate].
  specialize (HBE index).
  destruct (BlockEntry index k) as [[e entry]| |]; cbv beta iota delta [bind];
    try discriminate; [|contradiction].
  apply scanIndexedLines_loop_fuel; [lia|]. unfold len. lia.
Qed.

(** ** The comparators agree *)

Lemma N_of_ascii_of_byte (x : byte) : N_of_ascii (ascii_of_byte x) = Byte.to_N x.
Proof. destruct x; reflexivity. Qed.

Lemma strings_Compare_bytes (a b : list byte) :
  strings.Compare (string_of_list_byte a) (string_of_list_byte b) = bytes.Compare a b.
Proof.
  revert b. induction a as [|x a IH]; intros [|y b]; try reflexivity.
  change (string_of_list_byte (x :: a)) with (String (ascii_of_byte x) (string_of_list_byte a)).
  change (string_of_list_byte (y :: b)) with (String (ascii_of_byte y) (string_of_list_byte b)).
  simpl. unfold strings.ascii_compare, bytes.byte_compare.
  rewrite !N_of_ascii_of_byte, IH. reflexivity.
Qed.

Lemma length_string_of_list_byte (a : list byte) :
  String.length (string_of_list_byte a) = List.length a.
Proof.
  induction a as [|x a IH]; [reflexivity|].
  change (string_of_list_byte (x :: a)) with (String (ascii_of_byte x) (string_of_list_byte a)).
  simpl. now rewrite IH.
Qed.

Lemma take_string_of_list_byte (n : nat) (a : list byte) :
  strings.take n (string_of_list_byte a) = string_of_list_byte (firstn n a).
Proof.
  revert a. induction n as [|n IH]; intros [|x a]; try reflexivity.
  change (string_of_list_byte (x :: a)) with (String (ascii_of_byte x) (string_of_list_byte a)).
  simpl strings.take. rewrite IH. reflexivity.
Qed.

Lemma strings_Compare_eq (a b : string) : strings.Compare a b = 0 <-> a = b.
Proof.
  revert b. induction a as [|x a IH]; intros [|y b]; simpl;
    try (split; [lia | discriminate]); try tauto.
  destruct (strings.ascii_compare x y) eqn:E.
  - apply ascii_compare_eq in E. subst y. rewrite IH.
    split; [now intros -> | now inversion 1].
  - split; [lia|]. inversion 1; subst.
    rewrite (proj2 (ascii_compare_eq y y) eq_refl) in E. discriminate.
  - split; [lia|]. inversion 1; subst.
    rewrite (proj2 (ascii_compare_eq y y) eq_refl) in E. discriminate.
Qed.

Lemma prefixCompareString_bytes (a b : list byte) :
  prefixCompareString (string_of_list_byte a) (string_of_list_byte b)
  = PrefixCompare a b.
Proof.
  unfold prefixCompareString, PrefixCompare, slen, len.
  rewrite !length_string_of_list_byte, !take_string_of_list_byte,
    !strings_Compare_bytes. reflexivity.
Qed.

(** X1. The string-typed comparator of [index.go] is the bytes comparator, read
    through the conversion between [[]byte] and [string], in both
    directions. *)
Theorem prefixCompareString_is_PrefixCompare :
  (forall a b : list byte,
     prefixCompareString (string_of_list_byte a) (string_of_list_byte b)
     = PrefixCompare a b) /\
  (forall a b : string,
     prefixCompareString a b
     = PrefixCompare (list_byte_of_string a) (list_byte_of_string b)).
Proof.
  split; [exact prefixCompareString_bytes|].
  intros a b. rewrite <- prefixCompareString_bytes.
  now rewrite !string_of_list_byte_of_string.
Qed.

(** X2. The exported string comparator returns what [PrefixCompare] returns, on
    all inputs: either can be the searcher's [compare]. *)
Theorem PrefixCompareString_is_PrefixCompare (a b : list byte) :
  PrefixCompareString a b = PrefixCompare a b.
Proof.
  unfold PrefixCompareString, PrefixCompare, slen, len, string_less.
  rewrite !length_string_of_list_byte, !take_string_of_list_byte,
    !strings_Compare_bytes.
  destruct (Z.of_nat (List.length a) <? Z.of_nat (List.length b)).
  - destruct (bytes_Compare_range a (firstn (List.length a) b)) as [E|[E|E]];
      rewrite E; simpl; try reflexivity.
    + assert (H : string_of_list_byte a = string_of_list_byte (firstn (List.length a) b)).
      { apply strings_Compare_eq. now rewrite strings_Compare_bytes. }
      rewrite H, String.eqb_refl. reflexivity.
    + destruct (String.eqb_spec (string_of_list_byte a)
                  (string_of_list_byte (firstn (List.length a) b))) as [H|H];
        [|reflexivity].
      apply strings_Compare_eq in H. rewrite strings_Compare_bytes in H. lia.
  - destruct (bytes_Compare_range (firstn (List.length b) a) b) as [E|[E|E]];
      rewrite E; simpl; try reflexivity.
    + assert (H : string_of_list_byte (firstn (List.length b) a) = string_of_list_byte b).
      { apply strings_Compare_eq. now rewrite strings_Compare_bytes. }
      rewrite H, String.eqb_refl. reflexivity.
    + destruct (String.eqb_spec (string_of_list_byte (firstn (List.length b) a))
                  (string_of_list_byte b)) as [H|H]; [|reflexivity].
      apply strings_Compare_eq in H. rewrite strings_Compare_bytes in H. lia.
Qed.

(** ** Order properties of [PrefixCompare] *)

Lemma prefix_cmp_range (x k : string) : -1 <= prefix_cmp x k <= 1.
Proof.
  revert x. induction k as [|c k IH]; intros [|a x]; simpl; try lia.
  destruct (strings.ascii_compare a c); auto; lia.
Qed.

Lemma prefix_cmp_monotone (k x y : string) :
  strings.Compare x y <= 0 -> prefix_cmp x k <= prefix_cmp y k.
Proof.
  revert x y. induction k as [|c k IH]; intros [|a x] [|b y]; simpl; try lia.
  - pose proof (prefix_cmp_range y k). destruct (strings.ascii_compare b c); lia.
  - pose proof (prefix_cmp_range x k) as Rx. pose proof (prefix_cmp_range y k) as Ry.
    destruct (strings.ascii_compare a b) eqn:Eab; try lia; intros Hle.
    + apply ascii_compare_eq in Eab. subst b.
      destruct (strings.ascii_compare a c); try lia. eauto.
    + destruct (strings.ascii_compare b c) eqn:Ebc.
      * apply ascii_compare_eq in Ebc. subst c. rewrite Eab. lia.
      * rewrite (ascii_compare_trans a b c Lt Eab Ebc). lia.
      * destruct (strings.ascii_compare a c); lia.
Qed.

Lemma PrefixCompare_range (x k : list byte) :
  PrefixCompare x k = -1 \/ PrefixCompare x k = 0 \/ PrefixCompare x k = 1.
Proof.
  unfold PrefixCompare. destruct (len x <? len k).
  - destruct (bytes_Compare_range x (firstn (List.length x) k)) as [E|[E|E]];
      rewrite E; simpl; auto.
  - apply bytes_Compare_range.
Qed.

Lemma PrefixCompare_mono (k x y : list byte) :
  bytes.Compare x y <= 0 -> PrefixCompare x k <= PrefixCompare y k.
Proof.
  intros H. rewrite <- !prefixCompareString_bytes,
    !prefixCompareString_prefix_cmp.
  apply prefix_cmp_monotone. now rewrite strings_Compare_bytes.
Qed.

(** X3. [PrefixCompare] returns -1, 0 or 1 only (the scanner tests [cmp == 1]),
    and it is monotone in its first argument: on lines in ascending bytewise
    order the results against one key never decrease, so the lines that
    compare less come first, then the matches, then the greater ones. *)
Theorem PrefixCompare_monotone (k x y : list byte) :
  (PrefixCompare x k = -1 \/ PrefixCompare x k = 0 \/ PrefixCompare x k = 1) /\
  (bytes.Compare x y <= 0 -> PrefixCompare x k <= PrefixCompare y k).
Proof.
  split; [apply PrefixCompare_range | apply PrefixCompare_mono].
Qed.

Lemma PrefixCompare_monotone_witness :
  PrefixCompare (bytes_of "alstom.com,1") (bytes_of "alstom.com,")
  <= PrefixCompare (bytes_of "alstom.com.au,1") (bytes_of "alstom.com,").
Proof.
  apply (PrefixCompare_monotone (bytes_of "alstom.com,")
           (bytes_of "alstom.com,1") (bytes_of "alstom.com.au,1")).
  vm_compute. discriminate.
Defined.

(** ** The scan of one block *)

Lemma PrefixCompare_nil_r (x : list byte) : PrefixCompare x [] = 0.
Proof.
  unfold PrefixCompare, len. simpl.
  destruct (Z.ltb_spec (Z.of_nat (List.length x)) 0); [lia | reflexivity].
Qed.

Lemma PrefixCompare_nil_l (c : byte) (b : list byte) : PrefixCompare [] (c :: b) = -1.
Proof. reflexivity. Qed.

Lemma PrefixCompare_cons (a c : byte) (x b : list byte) :
  PrefixCompare (a :: x) (c :: b) =
  match bytes.byte_compare a c with
  | Eq => PrefixCompare x b
  | Lt => -1
  | Gt => 1
  end.
Proof.
  rewrite <- !prefixCompareString_bytes, !prefixCompareString_prefix_cmp.
  change (string_of_list_byte (a :: x)) with (String (ascii_of_byte a) (string_of_list_byte x)).
  change (string_of_list_byte (c :: b)) with (String (ascii_of_byte c) (string_of_list_byte b)).
  simpl. unfold strings.ascii_compare, bytes.byte_compare.
  now rewrite !N_of_ascii_of_byte.
Qed.

Lemma byte_compare_refl (x : byte) : bytes.byte_compare x x = Eq.
Proof. now apply byte_compare_eq. Qed.

(** The window of [len(b)] bytes at the start of a line compares with [b]
    as the line with its newline does, whatever follows the newline. *)
Lemma window_compare (b : list byte) :
  ~ In nl b ->
  forall (l more : list byte),
    (List.length b <= List.length (l ++ nl :: more))%nat ->
    bytes.Compare (firstn (List.length b) (l ++ nl :: more)) b = line_cmp b l.
Proof.
  unfold line_cmp. induction b as [|c b IH]; intros Hnl l more Hlen.
  - simpl. now rewrite PrefixCompare_nil_r.
  - assert (Hc : c <> nl) by (intros ->; apply Hnl; now left).
    assert (Hb : ~ In nl b) by (intros H; apply Hnl; now right).
    destruct l as [|a l]; simpl app; simpl firstn; rewrite PrefixCompare_cons; simpl.
    + destruct (bytes.byte_compare nl c) eqn:E; try reflexivity.
      apply byte_compare_eq in E. congruence.
    + destruct (bytes.byte_compare a c); try reflexivity.
      apply IH; [assumption|]. simpl in Hlen. lia.
Qed.

Lemma PrefixCompare_window (b w : list byte) :
  List.length w = List.length b -> PrefixCompare w b = bytes.Compare w b.
Proof.
  intros H. unfold PrefixCompare, len. rewrite H, Z.ltb_irrefl.
  rewrite <- H, firstn_all. reflexivity.
Qed.

Lemma join_lines_app (a b : list (list byte)) :
  join_lines (a ++ b) = join_lines a ++ join_lines b.
Proof. unfold join_lines. apply flat_map_app. Qed.

Lemma join_lines_cons (l : list byte) (rest : list (list byte)) :
  join_lines (l :: rest) = l ++ nl :: join_lines rest.
Proof. unfold join_lines. simpl. now rewrite <- app_assoc. Qed.

Lemma skipn_length_app {A : Type} (x y : list A) : skipn (List.length x) (x ++ y) = y.
Proof. induction x; simpl; auto. Qed.

Lemma firstn_length_app {A : Type} (x y : list A) : firstn (List.length x) (x ++ y) = x.
Proof. induction x; simpl; [reflexivity | now f_equal]. Qed.

Lemma IndexByte_line (l more : list byte) :
  ~ In nl l -> bytes.IndexByte (l ++ nl :: more) nl = len l.
Proof.
  unfold len. induction l as [|a l IH]; intros Hnl.
  - reflexivity.
  - assert (Ha : Byte.eqb a nl = false).
    { destruct (Byte.eqb a nl) eqn:E; [|reflexivity].
      apply Byte.byte_dec_bl in E. subst. exfalso. apply Hnl. now left. }
    simpl app. simpl bytes.IndexByte. rewrite Ha, IH by (intros H; apply Hnl; now right).
    destruct (Z.eqb_spec (Z.of_nat (List.length l)) (-1)); [lia|].
    simpl List.length. lia.
Qed.

Lemma matching_lines_cons (b l : list byte) (rest : list (list byte)) :
  matching_lines b (l :: rest)
  = if line_cmp b l =? 1 then []
    else if line_cmp b l =? 0 then l :: matching_lines b rest
    else matching_lines b rest.
Proof.
  unfold matching_lines. cbn [take_while].
  destruct (line_cmp b l =? 1); cbn [negb filter]; reflexivity.
Qed.

Section BlockScan.

Variable s : Searcher.t.
Variable b : list byte.
Variable stale : list byte.

Hypothesis default_compare : Searcher.compare s = PrefixCompare.
Hypothesis no_newline : ~ In nl b.
Hypothesis windows_fit : len b <= len stale + 1.

(** What the scanner computes at the start of the line [l], which has the
    lines [pre] before it and the lines [rest] after it. *)
Lemma at_line (pre : list (list byte)) (l : list byte) (rest : list (list byte)) :
  ~ In nl l ->
  let buf := block_buffer (pre ++ l :: rest) stale in
  let off := len (join_lines pre) in
  (off <? slice.len buf) = true /\
  (exists w, getNBytesFrom buf off (len b) = Done w /\
             Searcher.compare s (slice.data w) b = line_cmp b l) /\
  (exists r, slice.from buf off = Done r /\
             bytes.IndexByte (slice.data r) nl = len l) /\
  (exists r, slice.sub buf off (off + len l) = Done r /\ slice.data r = l) /\
  off + len l + 1 = len (join_lines (pre ++ [l])).
Proof.
  intros Hl buf off.
  assert (Harr : slice.array buf
                 = join_lines pre ++ (l ++ nl :: (join_lines rest ++ stale))).
  { unfold buf, block_buffer. simpl.
    rewrite join_lines_app, join_lines_cons, <- !app_assoc. reflexivity. }
  assert (Hlen : slice.len buf = off + len l + 1 + len (join_lines rest)).
  { unfold buf, block_buffer, slice.len, off, len. simpl.
    rewrite join_lines_app, join_lines_cons, !length_app. simpl. lia. }
  assert (Hcap : slice.cap buf = slice.len buf + len stale).
  { unfold buf, block_buffer, slice.cap, slice.len, len. simpl.
    rewrite length_app. lia. }
  assert (Hoff : Z.to_nat off = List.length (join_lines pre))
    by (unfold off, len; lia).
  assert (H0 : 0 <= off) by (unfold off, len; lia).
  assert (Hb0 : 0 <= len b) by (unfold len; lia).
  assert (Hl0 : 0 <= len l) by (unfold len; lia).
  assert (Hr0 : 0 <= len (join_lines rest)) by (unfold len; lia).
  assert (Hs0 : 0 <= len stale) by (unfold len; lia).
  split; [apply Z.ltb_lt; lia|].
  assert (Hsub : forall high, off <= high -> high <= slice.cap buf ->
            slice.sub buf off high
            = Done (slice.mk (l ++ nl :: (join_lines rest ++ stale))
                             (Z.to_nat (high - off)))).
  { intros high H1 H2. unfold slice.sub.
    destruct (Z.leb_spec 0 off); [|lia].
    destruct (Z.leb_spec off high); [|lia].
    destruct (Z.leb_spec high (slice.cap buf)); [|lia]. cbn [andb].
    rewrite Harr, Hoff, skipn_length_app. reflexivity. }
  split; [|split; [|split]].
  - eexists. split.
    + unfold getNBytesFrom. apply Hsub; lia.
    + rewrite default_compare. unfold slice.data. simpl.
      replace (Z.to_nat (off + len b - off)) with (List.length b) by (unfold len; lia).
      assert (Hfit : (List.length b <= List.length (l ++ nl :: (join_lines rest ++ stale)))%nat).
      { rewrite length_app. simpl. rewrite length_app. unfold len in *. lia. }
      rewrite PrefixCompare_window by (rewrite length_firstn; lia).
      now apply window_compare.
  - eexists. split.
    + unfold slice.from. apply Hsub; lia.
    + unfold slice.data. simpl.
      replace (Z.to_nat (slice.len buf - off))
        with (List.length (l ++ nl :: join_lines rest))
        by (rewrite length_app; simpl; unfold len in *; lia).
      replace (l ++ nl :: join_lines rest ++ stale)
        with ((l ++ nl :: join_lines rest) ++ stale)
        by (now rewrite <- app_assoc).
      rewrite firstn_length_app. now apply IndexByte_line.
  - eexists. split.
    + apply Hsub; lia.
    + unfold slice.data. simpl.
      replace (Z.to_nat (off + len l - off)) with (List.length l) by (unfold len; lia).
      apply firstn_length_app.
  - unfold off, len. rewrite join_lines_app, length_app.
    unfold join_lines at 3. simpl. rewrite app_nil_r, length_app. simpl. lia.
Qed.

Lemma line_cmp_range (l : list byte) :
  line_cmp b l = -1 \/ line_cmp b l = 0 \/ line_cmp b l = 1.
Proof. apply PrefixCompare_range. Qed.

Lemma cap_lines_full (n : Z) (acc : list (list byte)) :
  len acc <= n \/ n <= 0 -> cap_lines n acc = acc.
Proof.
  unfold cap_lines, len. intros H.
  destruct (Z.gtb_spec n 0); [|reflexivity].
  apply firstn_all2. lia.
Qed.

Lemma cap_lines_reached (n : Z) (acc more : list (list byte)) :
  n > 0 -> len acc >= n ->
  cap_lines n (acc ++ more) = firstn (Z.to_nat n) acc.
Proof.
  unfold cap_lines, len. intros Hn Hacc.
  destruct (Z.gtb_spec n 0); [|lia].
  rewrite firstn_app.
  replace (Z.to_nat n - List.length acc)%nat with 0%nat by lia.
  simpl. now rewrite app_nil_r.
Qed.

Lemma flag_ok_nil (n : Z) (acc : list (list byte)) : flag_ok b n acc [] false.
Proof. repeat split; simpl; intros; discriminate. Qed.

Lemma flag_ok_greater (n : Z) (acc : list (list byte)) (l : list byte)
    (rest : list (list byte)) :
  line_cmp b l = 1 -> flag_ok b n acc (l :: rest) true.
Proof.
  intros E. unfold flag_ok. cbn [existsb]. rewrite E. simpl. auto.
Qed.

Lemma flag_ok_less (n : Z) (acc : list (list byte)) (l : list byte)
    (rest : list (list byte)) (t : bool) :
  line_cmp b l = -1 -> flag_ok b n acc rest t -> flag_ok b n acc (l :: rest) t.
Proof.
  intros E. unfold flag_ok. rewrite matching_lines_cons. cbn [existsb].
  rewrite E. simpl. auto.
Qed.

Lemma flag_ok_match (n : Z) (acc : list (list byte)) (l : list byte)
    (rest : list (list byte)) (t : bool) :
  line_cmp b l = 0 -> flag_ok b n (acc ++ [l]) rest t ->
  flag_ok b n acc (l :: rest) t.
Proof.
  intros E. unfold flag_ok. rewrite matching_lines_cons. cbn [existsb].
  rewrite E. simpl. rewrite <- app_assoc. simpl. auto.
Qed.

Lemma scanLinesMatching_loop_block (ls : list (list byte)) (n : Z) :
  forall cur pre fuel acc,
    ls = pre ++ cur ->
    (forall l, In l cur -> ~ In nl l) ->
    (List.length (join_lines cur) <= fuel)%nat ->
    len acc <= n \/ n <= 0 ->
    exists terminate,
      scanLinesMatching_loop fuel s (block_buffer ls stale) b n acc
        (len (join_lines pre)) false
      = Done (cap_lines n (acc ++ matching_lines b cur), terminate) /\
      flag_ok b n acc cur terminate.
Proof.
  induction cur as [|l rest IH]; intros pre fuel acc Hls Hnl Hfuel Hacc.
  - rewrite app_nil_r in Hls. subst pre.
    assert (E : (len (join_lines ls) <? slice.len (block_buffer ls stale)) = false)
      by (apply Z.ltb_ge; unfold block_buffer, slice.len, len; simpl; lia).
    exists false. split; [|apply flag_ok_nil].
    unfold matching_lines. simpl filter.
    rewrite app_nil_r, cap_lines_full by assumption.
    destruct fuel; simpl; rewrite E; reflexivity.
  - destruct (at_line pre l rest (Hnl l (or_introl eq_refl)))
      as (Hlt & (w & Hw & Hcmp) & (r & Hr & Hidx) & (r' & Hr' & Hdata) & Hnext).
    rewrite <- Hls in Hlt, Hw, Hr, Hr'.
    destruct fuel as [|fuel].
    { rewrite join_lines_cons, length_app in Hfuel. simpl in Hfuel. lia. }
    assert (Hl0 : (len l =? -1) = false) by (apply Z.eqb_neq; unfold len; lia).
    assert (Hfuel' : (List.length (join_lines rest) <= fuel)%nat).
    { rewrite join_lines_cons, length_app in Hfuel. simpl in Hfuel. lia. }
    assert (Hrest : forall l', In l' rest -> ~ In nl l')
      by (intros l' H; apply Hnl; now right).
    assert (Hpre : ls = (pre ++ [l]) ++ rest)
      by (now rewrite <- app_assoc).
    cbn [scanLinesMatching_loop]. rewrite Hlt.
    destruct ((n >? 0) && (len acc >=? n)) eqn:Hcap.
    { apply andb_prop in Hcap. destruct Hcap as [Hn Hge].
      apply Z.gtb_lt in Hn. apply Z.geb_le in Hge.
      exists true. rewrite cap_lines_reached by lia.
      split; [reflexivity|]. repeat split; intros; try lia.
      right. split; [lia|]. unfold len in *. rewrite length_app. lia. }
    assert (Hroom : len acc < n \/ n <= 0).
    { apply andb_false_iff in Hcap. destruct Hcap as [H|H].
      - right. destruct (Z.gtb_spec n 0); [discriminate|lia].
      - left. destruct (Z.geb_spec (len acc) n); [discriminate|lia]. }
    rewrite Hw. cbn [bind]. rewrite Hcmp, Hr. cbn [bind]. rewrite Hidx, Hl0.
    destruct (line_cmp_range l) as [E|[E|E]]; rewrite matching_lines_cons, E;
      cbn [Z.ltb Z.eqb Pos.eqb Z.compare orb].
    + rewrite Hnext.
      destruct (IH (pre ++ [l]) fuel acc) as (t & Ht & Hf); auto.
      exists t. split; [exact Ht|now apply flag_ok_less].
    + rewrite Hr'. cbn [bind]. rewrite Hdata, Hnext. unfold clone.
      destruct (IH (pre ++ [l]) fuel (acc ++ [l])) as (t & Ht & Hf); auto.
      { unfold len in *. rewrite length_app. simpl. lia. }
      exists t. rewrite Ht, <- app_assoc. split; [reflexivity|now apply flag_ok_match].
    + exists true. rewrite app_nil_r, cap_lines_full by assumption.
      split; [reflexivity|now apply flag_ok_greater].
Qed.

Lemma scanLinesMatching_from (ls : list (list byte)) (n : Z) :
  (forall l, In l ls -> ~ In nl l) ->
  forall cur pre fuel trailing,
    ls = pre ++ cur ->
    (List.length (join_lines cur) <= fuel)%nat ->
    trailing = -1 \/
    (exists pre' l', pre = pre' ++ [l'] /\ trailing = len (join_lines pre') /\
                     line_cmp b l' = -1) ->
    exists offset terminate0 terminate,
      scanLineOffset_loop fuel s (block_buffer ls stale) b trailing
        (len (join_lines pre)) = Done (offset, terminate0) /\
      (if (offset =? -1) || terminate0 then Done ([], terminate0)
       else scanLinesMatching_loop (slice.length (block_buffer ls stale)) s
              (block_buffer ls stale) b n [] offset terminate0)
      = Done (cap_lines n (matching_lines b cur), terminate) /\
      flag_ok b n [] cur terminate.
Proof.
  intros Hall.
  assert (Hnil : forall k, cap_lines k [] = []).
  { intros k. unfold cap_lines. destruct (k >? 0); [apply firstn_nil|reflexivity]. }
  assert (Hzero : len (@nil (list byte)) <= n \/ n <= 0) by (unfold len; simpl; lia).
  induction cur as [|l rest IH]; intros pre fuel trailing Hls Hfuel Htr.
  - rewrite app_nil_r in Hls. subst pre.
    assert (E : (len (join_lines ls) <? slice.len (block_buffer ls stale)) = false)
      by (apply Z.ltb_ge; unfold block_buffer, slice.len, len; simpl; lia).
    assert (R : scanLineOffset_loop fuel s (block_buffer ls stale) b trailing
                  (len (join_lines ls)) = Done (scanLineOffset_miss s trailing false))
      by (destruct fuel; simpl; rewrite E; reflexivity).
    rewrite R. unfold scanLineOffset_miss.
    assert (Hmiss : Done ([], false) = Done (cap_lines n (matching_lines b []), false))
      by (unfold matching_lines; simpl; now rewrite Hnil).
    destruct Htr as [->|(pre' & l' & Hpre & -> & Hc)].
    + exists (-1), false, false. rewrite andb_false_r. cbn [Z.eqb orb].
      split; [reflexivity|]. split; [exact Hmiss|apply flag_ok_nil].
    + destruct (Searcher.matchLE s); cbn [andb].
      * assert (G : (len (join_lines pre') >? -1) = true)
          by (apply Z.gtb_lt; unfold len; lia).
        rewrite G. eexists _, _.
        assert (G' : (len (join_lines pre') =? -1) = false)
          by (apply Z.eqb_neq; unfold len; lia).
        rewrite G'. cbn [orb].
        destruct (scanLinesMatching_loop_block ls n [l'] pre'
                    (slice.length (block_buffer ls stale)) [])
          as (t & Ht & HtA & HtB & HtC); auto.
        -- intros x [<-|[]]. apply Hall. rewrite Hpre. apply in_or_app. right. now left.
        -- rewrite Hpre. unfold block_buffer. simpl slice.length.
           rewrite join_lines_app, length_app. lia.
        -- rewrite matching_lines_cons in *. cbn [existsb app] in *.
           rewrite Hc in *. cbn [Z.eqb orb] in *.
           exists t. split; [reflexivity|]. split; [exact Ht|].
           repeat split; auto.
      * exists (-1), false, false. cbn [Z.eqb orb].
        split; [reflexivity|]. split; [exact Hmiss|apply flag_ok_nil].
  - assert (Hl : ~ In nl l)
      by (apply Hall; rewrite Hls; apply in_or_app; right; now left).
    destruct (at_line pre l rest Hl)
      as (Hlt & (w & Hw & Hcmp) & (r & Hr & Hidx) & _ & Hnext).
    rewrite <- Hls in Hlt, Hw, Hr.
    destruct fuel as [|fuel].
    { rewrite join_lines_cons, length_app in Hfuel. simpl in Hfuel. lia. }
    assert (Hl0 : (len l =? -1) = false) by (apply Z.eqb_neq; unfold len; lia).
    assert (Hfuel' : (List.length (join_lines rest) <= fuel)%nat).
    { rewrite join_lines_cons, length_app in Hfuel. simpl in Hfuel. lia. }
    assert (Hpre : ls = (pre ++ [l]) ++ rest)
      by (now rewrite <- app_assoc).
    cbn [scanLineOffset_loop]. rewrite Hlt, Hw. cbn [bind]. rewrite Hcmp.
    destruct (line_cmp_range l) as [E|[E|E]]; rewrite E; cbn [Z.eqb Pos.eqb orb].
    + rewrite Hr. cbn [bind]. rewrite Hidx, Hl0, Hnext.
      destruct (IH (pre ++ [l]) fuel (len (join_lines pre)))
        as (o & t0 & t & H1 & H2 & H3); auto.
      { right. exists pre, l. auto. }
      exists o, t0, t. rewrite matching_lines_cons, E. cbn [Z.eqb].
      split; [exact H1|]. split; [exact H2|now apply flag_ok_less].
    + eexists _, _.
      assert (H1 : (len (join_lines pre) =? -1) = false)
        by (apply Z.eqb_neq; unfold len; lia).
      rewrite H1. cbn [orb].
      destruct (scanLinesMatching_loop_block ls n (l :: rest) pre
                  (slice.length (block_buffer ls stale)) [])
        as (t & Ht & Hf); auto.
      * intros x Hx. apply Hall. rewrite Hls. apply in_or_app. now right.
      * rewrite Hls. unfold block_buffer. simpl slice.length.
        rewrite join_lines_app, length_app. lia.
      * exists t. split; [reflexivity|]. split; [exact Ht|exact Hf].
    + unfold scanLineOffset_miss. rewrite matching_lines_cons, E.
      cbn [Z.eqb Pos.eqb].
      destruct (Searcher.matchLE s && (trailing >? -1));
        eexists _, true, true; rewrite orb_true_r, Hnil;
        (split; [reflexivity|]); (split; [reflexivity|now apply flag_ok_greater]).
Qed.

Hypothesis no_matchLE : Searcher.matchLE s = false.

Lemma scanLineOffset_loop_block (ls : list (list byte)) :
  forall cur pre fuel trailing,
    ls = pre ++ cur ->
    (forall l, In l cur -> ~ In nl l) ->
    (List.length (join_lines cur) <= fuel)%nat ->
    scanLineOffset_loop fuel s (block_buffer ls stale) b trailing
      (len (join_lines pre))
    = Done (first_not_less b (len (join_lines pre)) cur).
Proof.
  assert (Hmiss : forall trailing t, scanLineOffset_miss s trailing t = (-1, t))
    by (intros; unfold scanLineOffset_miss; now rewrite no_matchLE).
  induction cur as [|l rest IH]; intros pre fuel trailing Hls Hnl Hfuel.
  - rewrite app_nil_r in Hls. subst pre.
    assert (E : (len (join_lines ls) <? slice.len (block_buffer ls stale)) = false)
      by (apply Z.ltb_ge; unfold block_buffer, slice.len, len; simpl; lia).
    destruct fuel; simpl; rewrite E, Hmiss; reflexivity.
  - destruct (at_line pre l rest (Hnl l (or_introl eq_refl)))
      as (Hlt & (w & Hw & Hcmp) & (r & Hr & Hidx) & _ & Hnext).
    rewrite <- Hls in Hlt, Hw, Hr.
    destruct fuel as [|fuel].
    { rewrite join_lines_cons, length_app in Hfuel. simpl in Hfuel. lia. }
    assert (Hl0 : (len l =? -1) = false) by (apply Z.eqb_neq; unfold len; lia).
    assert (Hfuel' : (List.length (join_lines rest) <= fuel)%nat).
    { rewrite join_lines_cons, length_app in Hfuel. simpl in Hfuel. lia. }
    assert (Hrest : forall l', In l' rest -> ~ In nl l')
      by (intros l' H; apply Hnl; now right).
    assert (Hpre : ls = (pre ++ [l]) ++ rest)
      by (now rewrite <- app_assoc).
    cbn [scanLineOffset_loop first_not_less]. rewrite Hlt, Hw. cbn [bind].
    rewrite Hcmp.
    destruct (line_cmp_range l) as [E|[E|E]]; rewrite E; cbn [Z.eqb].
    + rewrite Hr. cbn [bind]. rewrite Hidx, Hl0, Hnext.
      rewrite (IH (pre ++ [l]) fuel); auto.
    + reflexivity.
    + now rewrite Hmiss.
Qed.

End BlockScan.

(** ** What a scan of one block returns *)

Lemma line_cmp_HasPrefix (b : list byte) :
  ~ In nl b -> forall l, (line_cmp b l =? 0) = bytes.HasPrefix l b.
Proof.
  unfold line_cmp. induction b as [|c b IH]; intros Hnl l.
  - rewrite PrefixCompare_nil_r. now destruct l.
  - assert (Hc : c <> nl) by (intros ->; apply Hnl; now left).
    assert (Hb : ~ In nl b) by (intros H; apply Hnl; now right).
    destruct l as [|a l]; simpl app; rewrite PrefixCompare_cons; simpl bytes.HasPrefix.
    + destruct (bytes.byte_compare nl c) eqn:E; try reflexivity.
      apply byte_compare_eq in E. congruence.
    + destruct (bytes.byte_compare a c) eqn:E.
      * apply byte_compare_eq in E. subst a.
        rewrite (Byte.byte_dec_lb eq_refl). simpl. now apply IH.
      * destruct (Byte.eqb a c) eqn:F; [|reflexivity].
        apply Byte.byte_dec_bl in F. subst a.
        rewrite byte_compare_refl in E. discriminate.
      * destruct (Byte.eqb a c) eqn:F; [|reflexivity].
        apply Byte.byte_dec_bl in F. subst a.
        rewrite byte_compare_refl in E. discriminate.
Qed.

Lemma line_cmp_mono (b l1 l2 : list byte) :
  line_le l1 l2 -> line_cmp b l1 <= line_cmp b l2.
Proof. apply PrefixCompare_mono. Qed.

Lemma sorted_after_greater (b : list byte) :
  forall rest l,
    Sorted line_le (l :: rest) -> line_cmp b l = 1 ->
    filter (fun x => line_cmp b x =? 0) rest = [].
Proof.
  induction rest as [|r rest IH]; intros l Hs Hl.
  - reflexivity.
  - apply Sorted_inv in Hs. destruct Hs as [Hs Hd].
    apply HdRel_inv in Hd. apply (line_cmp_mono b) in Hd.
    assert (Hr : line_cmp b r = 1).
    { pose proof (PrefixCompare_range (r ++ [nl]) b) as R. unfold line_cmp in *. lia. }
    simpl. rewrite Hr. simpl. now apply (IH r).
Qed.

Lemma matching_lines_sorted (b : list byte) (ls : list (list byte)) :
  Sorted line_le ls ->
  matching_lines b ls = filter (fun l => line_cmp b l =? 0) ls.
Proof.
  induction ls as [|l ls IH]; intros Hs.
  - reflexivity.
  - rewrite matching_lines_cons. simpl filter.
    pose proof (Sorted_inv Hs) as [Hs' _].
    destruct (PrefixCompare_range (l ++ [nl]) b) as [E|[E|E]];
      fold (line_cmp b l) in E; rewrite E; simpl.
    + now apply IH.
    + f_equal. now apply IH.
    + symmetry. now apply (sorted_after_greater b ls l).
Qed.

Lemma scanLinesMatching_block_flag (s : Searcher.t) (b stale : list byte)
    (ls : list (list byte)) (n : Z) :
  Searcher.compare s = PrefixCompare ->
  ~ In nl b ->
  len b <= len stale + 1 ->
  (forall l, In l ls -> ~ In nl l) ->
  exists terminate,
    scanLinesMatching s (block_buffer ls stale) b n
    = Done (cap_lines n (matching_lines b ls), terminate) /\
    flag_ok b n [] ls terminate.
Proof.
  intros Hcmp Hb Hfit Hls.
  destruct (scanLinesMatching_from s b stale Hcmp Hb Hfit ls n Hls ls []
              (slice.length (block_buffer ls stale)) (-1) eq_refl)
    as (o & t0 & t & H1 & H2 & H3).
  - unfold block_buffer. simpl. lia.
  - now left.
  - exists t. split; [|exact H3].
    unfold scanLinesMatching, scanLineOffset.
    change (len (join_lines [])) with 0 in H1. rewrite H1. exact H2.
Qed.

(** X4. [scanLinesMatching] on a buffer that holds whole lines.  With the
    default comparator, search bytes without a newline, and a buffer whose
    backing array has [len(b) - 1] bytes after its last line, the scan
    returns: its lines are those that begin with [b] among the lines before
    the first line greater than [b], at most [n] of them when [n > 0]; its
    flag, when there is no cap, tells whether a greater line was met, and
    is set in any case when there was one.  [MatchLE] makes no
    difference. *)
Theorem scanLinesMatching_whole_lines (s : Searcher.t) (b stale : list byte)
    (ls : list (list byte)) (n : Z) :
  Searcher.compare s = PrefixCompare ->
  ~ In nl b ->
  len b <= len stale + 1 ->
  (forall l, In l ls -> ~ In nl l) ->
  exists terminate,
    scanLinesMatching s (block_buffer ls stale) b n
    = Done (cap_lines n
              (filter (fun l => bytes.HasPrefix l b)
                 (take_while (fun l => negb (line_cmp b l =? 1)) ls)),
            terminate) /\
    (n <= 0 -> terminate = existsb (fun l => line_cmp b l =? 1) ls) /\
    (existsb (fun l => line_cmp b l =? 1) ls = true -> terminate = true).
Proof.
  intros Hcmp Hb Hfit Hls.
  destruct (scanLinesMatching_block_flag s b stale ls n Hcmp Hb Hfit Hls)
    as (t & Ht & HA & HB & _).
  exists t. split; [|split; assumption].
  rewrite Ht. unfold matching_lines. do 3 f_equal.
  apply filter_ext. intros l. now apply line_cmp_HasPrefix.
Qed.

Lemma scanLinesMatching_whole_lines_witness :
  exists terminate,
    scanLinesMatching (searcher_on file_alstom entries_alstom)
      (block_buffer (map bytes_of alstom_lines) (repeat x00 100))
      (bytes_of "alstom.com,") 1
    = Done (cap_lines 1
              (filter (fun l => bytes.HasPrefix l (bytes_of "alstom.com,"))
                 (take_while
                    (fun l => negb (line_cmp (bytes_of "alstom.com,") l =? 1))
                    (map bytes_of alstom_lines))),
            terminate) /\
    (1 <= 0 -> terminate =
       existsb (fun l => line_cmp (bytes_of "alstom.com,") l =? 1)
         (map bytes_of alstom_lines)) /\
    (existsb (fun l => line_cmp (bytes_of "alstom.com,") l =? 1)
       (map bytes_of alstom_lines) = true -> terminate = true).
Proof.
  apply (scanLinesMatching_whole_lines (searcher_on file_alstom entries_alstom)
           (bytes_of "alstom.com,") (repeat x00 100)
           (map bytes_of alstom_lines) 1).
  - reflexivity.
  - vm_compute. intuition discriminate.
  - vm_compute. discriminate.
  - intros l H. vm_compute in H. vm_compute.
    repeat (destruct H as [<-|H]; [intuition discriminate|]). destruct H.
Defined.

(** X5. On a block whose lines are in order, [scanLinesMatching] returns
    exactly the lines of the block that begin with [b], in the order of the
    file, at most [n] of them when [n > 0]. *)
Theorem scanLinesMatching_sorted_block (s : Searcher.t) (b stale : list byte)
    (ls : list (list byte)) (n : Z) :
  Searcher.compare s = PrefixCompare ->
  ~ In nl b ->
  len b <= len stale + 1 ->
  (forall l, In l ls -> ~ In nl l) ->
  Sorted line_le ls ->
  exists terminate,
    scanLinesMatching s (block_buffer ls stale) b n
    = Done (cap_lines n (filter (fun l => bytes.HasPrefix l b) ls), terminate).
Proof.
  intros Hcmp Hb Hfit Hls Hs.
  destruct (scanLinesMatching_block_flag s b stale ls n Hcmp Hb Hfit Hls)
    as (t & Ht & _).
  exists t. rewrite Ht, matching_lines_sorted by assumption. do 3 f_equal.
  apply filter_ext. intros l. now apply line_cmp_HasPrefix.
Qed.

Lemma scanLinesMatching_sorted_block_witness :
  exists terminate,
    scanLinesMatching (searcher_on file_alstom entries_alstom)
      (block_buffer (map bytes_of alstom_lines) (repeat x00 100))
      (bytes_of "alstom.com,") 0
    = Done (cap_lines 0
              (filter (fun l => bytes.HasPrefix l (bytes_of "alstom.com,"))
                 (map bytes_of alstom_lines)),
            terminate).
Proof.
  apply (scanLinesMatching_sorted_block (searcher_on file_alstom entries_alstom)
           (bytes_of "alstom.com,") (repeat x00 100)
           (map bytes_of alstom_lines) 0).
  - reflexivity.
  - vm_compute. intuition discriminate.
  - vm_compute. discriminate.
  - intros l H. vm_compute in H. vm_compute.
    repeat (destruct H as [<-|H]; [intuition discriminate|]). destruct H.
  - repeat constructor; vm_compute; discriminate.
Defined.

(** ** Where [scanLineOffset] stops *)

Lemma first_not_less_spec (b : list byte) :
  forall cur off,
    (fst (first_not_less b off cur) = -1 /\
     matching_lines b cur = [] /\
     snd (first_not_less b off cur) = existsb (fun l => line_cmp b l =? 1) cur) \/
    (exists pre l rest,
       cur = pre ++ l :: rest /\
       first_not_less b off cur = (off + len (join_lines pre), false) /\
       line_cmp b l = 0 /\
       Forall (fun x => line_cmp b x = -1) pre).
Proof.
  induction cur as [|l rest IH]; intros off.
  - left. repeat split.
  - cbn [first_not_less existsb]. rewrite matching_lines_cons.
    destruct (PrefixCompare_range (l ++ [nl]) b) as [E|[E|E]];
      fold (line_cmp b l) in E; rewrite E; cbn [Z.eqb Pos.eqb orb].
    + destruct (IH (off + len l + 1)) as [H|(pre & l' & rest' & -> & H & Hl' & Hpre)].
      * now left.
      * right. exists (l :: pre), l', rest'. repeat split; auto.
        rewrite H, join_lines_cons. f_equal. unfold len.
        rewrite length_app. simpl. lia.
    + right. exists [], l, rest. repeat split; auto.
      change (len (join_lines [])) with 0. f_equal. lia.
    + left. repeat split.
Qed.

(** X6. [scanLineOffset] on a buffer that holds whole lines, when [MatchLE] is
    not set.  It returns, and either the offset is -1, no line would be
    returned for [b], and the flag tells whether a line greater than [b]
    was met; or the offset is that of the first line that begins with [b],
    all lines before it are less than [b], and the flag is not set. *)
Theorem scanLineOffset_whole_lines (s : Searcher.t) (b stale : list byte)
    (ls : list (list byte)) :
  Searcher.compare s = PrefixCompare ->
  Searcher.matchLE s = false ->
  ~ In nl b ->
  len b <= len stale + 1 ->
  (forall l, In l ls -> ~ In nl l) ->
  exists offset terminate,
    scanLineOffset s (block_buffer ls stale) b = Done (offset, terminate) /\
    ((offset = -1 /\
      filter (fun l => bytes.HasPrefix l b)
        (take_while (fun l => negb (line_cmp b l =? 1)) ls) = [] /\
      terminate = existsb (fun l => line_cmp b l =? 1) ls) \/
     (exists pre l rest,
        ls = pre ++ l :: rest /\
        offset = len (join_lines pre) /\
        terminate = false /\
        bytes.HasPrefix l b = true /\
        Forall (fun x => line_cmp b x = -1) pre)).
Proof.
  intros Hcmp Hle Hb Hfit Hls.
  unfold scanLineOffset.
  change 0 with (len (join_lines [])).
  rewrite (scanLineOffset_loop_block s b stale Hcmp Hb Hfit Hle ls ls []); auto.
  change (len (join_lines [])) with 0.
  destruct (first_not_less b 0 ls) as [o t] eqn:E.
  exists o, t. split; [reflexivity|].
  destruct (first_not_less_spec b ls 0) as [(H1 & H2 & H3)|(pre & l & rest & H1 & H2 & H3 & H4)].
  - left. rewrite E in *. simpl in *. repeat split; auto.
    unfold matching_lines in H2. rewrite <- H2.
    apply filter_ext. intros l. symmetry. now apply line_cmp_HasPrefix.
  - right. exists pre, l, rest. rewrite E in H2. inversion H2. subst.
    repeat split; auto.
    rewrite <- line_cmp_HasPrefix by assumption. now rewrite H3.
Qed.

Lemma scanLineOffset_whole_lines_witness :
  exists offset terminate,
    scanLineOffset (searcher_on file_alstom entries_alstom)
      (block_buffer (map bytes_of alstom_lines) (repeat x00 100))
      (bytes_of "alstom.com.au,") = Done (offset, terminate) /\
    ((offset = -1 /\
      filter (fun l => bytes.HasPrefix l (bytes_of "alstom.com.au,"))
        (take_while
           (fun l => negb (line_cmp (bytes_of "alstom.com.au,") l =? 1))
           (map bytes_of alstom_lines)) = [] /\
      terminate = existsb (fun l => line_cmp (bytes_of "alstom.com.au,") l =? 1)
                    (map bytes_of alstom_lines)) \/
     (exists pre l rest,
        map bytes_of alstom_lines = pre ++ l :: rest /\
        offset = len (join_lines pre) /\
        terminate = false /\
        bytes.HasPrefix l (bytes_of "alstom.com.au,") = true /\
        Forall (fun x => line_cmp (bytes_of "alstom.com.au,") x = -1) pre)).
Proof.
  apply (scanLineOffset_whole_lines (searcher_on file_alstom entries_alstom)
           (bytes_of "alstom.com.au,") (repeat x00 100)
           (map bytes_of alstom_lines)).
  - reflexivity.
  - reflexivity.
  - vm_compute. intuition discriminate.
  - vm_compute. discriminate.
  - intros l H. vm_compute in H. vm_compute.
    repeat (destruct H as [<-|H]; [intuition discriminate|]). destruct H.
Defined.

(** ** Reading and scanning the blocks of an index *)

Lemma readBlockEntry_reads (s : Searcher.t) (entry : IndexEntry.t)
    (before after : list byte) (ls : list (list byte)) :
  Searcher.r s = before ++ join_lines ls ++ after ->
  IndexEntry.Offset entry = len before ->
  IndexEntry.Length entry = len (join_lines ls) ->
  Searcher.bufOffset s <> IndexEntry.Offset entry ->
  IndexEntry.Length entry <= slice.cap (Searcher.buf s) ->
  readBlockEntry s entry
  = Done (Searcher.with_buf s
            (block_buffer ls
               (skipn (List.length (join_lines ls)) (slice.array (Searcher.buf s))))
            (IndexEntry.Offset entry), None).
Proof.
  intros Hr Hoff Hlen Hne Hcap. unfold readBlockEntry.
  rewrite (proj2 (Z.eqb_neq _ _) Hne).
  assert (G : (IndexEntry.Length entry >? slice.cap (Searcher.buf s)) = false).
  { destruct (Z.gtb_spec (IndexEntry.Length entry) (slice.cap (Searcher.buf s))); [lia|reflexivity]. }
  rewrite G. unfold slice.upto, slice.sub.
  assert (C : (0 <=? 0) && (0 <=? IndexEntry.Length entry)
              && (IndexEntry.Length entry <=? slice.cap (Searcher.buf s)) = true).
  { rewrite !andb_true_iff. repeat split; apply Z.leb_le; unfold len in *; lia. }
  rewrite C. cbn [bind]. unfold ReadAt.
  assert (N : (IndexEntry.Offset entry <? 0) = false)
    by (apply Z.ltb_ge; unfold len in *; lia).
  rewrite N, Hr, Hoff, Hlen. unfold len.
  rewrite Z.sub_0_r, !Nat2Z.id. cbn [slice.length skipn].
  rewrite skipn_length_app, firstn_length_app.
  unfold slice.write, slice.len. cbn [slice.length slice.array].
  rewrite Z.ltb_irrefl. reflexivity.
Qed.

Lemma matching_lines_app (b : list byte) (x y : list (list byte)) :
  matching_lines b (x ++ y)
  = if existsb (fun l => line_cmp b l =? 1) x then matching_lines b x
    else matching_lines b x ++ matching_lines b y.
Proof.
  induction x as [|l x IH].
  - reflexivity.
  - simpl app. rewrite !matching_lines_cons. cbn [existsb].
    destruct (line_cmp b l =? 1); cbn [orb]; [reflexivity|].
    rewrite IH.
    destruct (line_cmp b l =? 0), (existsb (fun l0 => line_cmp b l0 =? 1) x);
      reflexivity.
Qed.

Lemma firstn_absorb {A : Type} (n : nat) (a m x : list A) :
  firstn n (a ++ firstn n m ++ x) = firstn n (a ++ m ++ x).
Proof.
  rewrite !(firstn_app n a). f_equal.
  destruct (Nat.le_gt_cases (List.length m) n) as [H|H].
  - now rewrite (firstn_all2 (n:=n) m).
  - rewrite !firstn_app, firstn_firstn, length_firstn.
    replace (Nat.min (n - List.length a) n) with (n - List.length a)%nat by lia.
    replace (n - List.length a - Nat.min n (List.length m))%nat with 0%nat by lia.
    replace (n - List.length a - List.length m)%nat with 0%nat by lia.
    reflexivity.
Qed.

Lemma cap_lines_absorb (n : Z) (a m x : list (list byte)) :
  cap_lines n (a ++ cap_lines n m ++ x) = cap_lines n (a ++ m ++ x).
Proof.
  unfold cap_lines. destruct (n >? 0); [apply firstn_absorb|reflexivity].
Qed.

Lemma cap_lines_enough (n : Z) (a m x : list (list byte)) :
  n > 0 -> len m >= n ->
  cap_lines n (a ++ cap_lines n m) = cap_lines n (a ++ m ++ x).
Proof.
  intros Hn Hm. rewrite <- (cap_lines_absorb n a m x).
  unfold cap_lines. destruct (Z.gtb_spec n 0); [|lia].
  rewrite !(firstn_app (Z.to_nat n) a). f_equal.
  rewrite firstn_app, length_firstn. unfold len in Hm.
  replace (Z.to_nat n - List.length a - Nat.min (Z.to_nat n) (List.length m))%nat
    with 0%nat by lia.
  simpl. now rewrite app_nil_r.
Qed.

Lemma block_nonempty (ls : list (list byte)) : ls <> [] -> 0 < len (join_lines ls).
Proof.
  destruct ls as [|l ls]; [congruence|]. intros _.
  rewrite join_lines_cons. unfold len. rewrite length_app. simpl. lia.
Qed.

Section IndexedScan.

Variable index : Index.t.
Variable k : list byte.
Variable n : Z.

Let b := k ++ Index.Delimiter index.

Hypothesis no_newline : ~ In nl b.

Lemma scanIndexedLines_loop_blocks :
  forall es bs ls entry done_ before s acc fuel,
    Index.List index = done_ ++ entry :: es ->
    Searcher.r s = before ++ join_lines (List.concat (ls :: bs)) ->
    IndexEntry.Offset entry = len before ->
    IndexEntry.Length entry = len (join_lines ls) ->
    block_layout (len before + len (join_lines ls)) es bs = true ->
    Searcher.bufOffset s < len before ->
    Searcher.compare s = PrefixCompare ->
    Forall (block_fits (slice.cap (Searcher.buf s)) b) (ls :: bs) ->
    (List.length es < fuel)%nat ->
    exists s' lines,
      scanIndexedLines_loop fuel index s k n acc (len done_) entry
      = Done (s', indexed_result lines) /\
      cap_lines n lines
      = cap_lines n (acc ++ matching_lines b (List.concat (ls :: bs))).
Proof.
  induction es as [|e' es IH];
    intros bs ls entry done_ before s acc fuel Hlist Hr Hoff Hlen Hlay Hbo Hcmp Hfit Hfuel.
  all: destruct fuel as [|fuel]; [simpl in Hfuel; lia|].
  all: pose proof (Forall_inv Hfit) as (Hne & Hcap & Hwin & Hnl).
  all: pose proof (block_nonempty ls Hne) as Hpos.
  all: cbn [scanIndexedLines_loop].
  all: simpl List.concat in Hr; rewrite join_lines_app in Hr.
  all: rewrite (readBlockEntry_reads s entry before (join_lines (List.concat bs)) ls)
         by (auto; lia).
  all: cbn [bind].
  all: match goal with |- context [Searcher.with_buf ?s0 ?buf ?o] =>
         set (s1 := Searcher.with_buf s0 buf o) end.
  all: change (Searcher.buf s1) with
         (block_buffer ls (skipn (List.length (join_lines ls))
                             (slice.array (Searcher.buf s)))).
  all: fold b.
  all: destruct (scanLinesMatching_block_flag s1 b
                   (skipn (List.length (join_lines ls)) (slice.array (Searcher.buf s)))
                   ls n Hcmp no_newline) as (t & Ht & HA & HB & HC);
         [ unfold len, slice.cap in *; rewrite length_skipn; lia | exact Hnl | ].
  all: rewrite Ht; cbn [bind].
  all: assert (Hl : (if len (cap_lines n (matching_lines b ls)) >? 0
                     then acc ++ cap_lines n (matching_lines b ls) else acc)
                    = acc ++ cap_lines n (matching_lines b ls))
         by (destruct (cap_lines n (matching_lines b ls)); simpl;
             [now rewrite app_nil_r | reflexivity]).
  all: rewrite Hl.
  all: assert (Hstop : t = true ->
                 cap_lines n (acc ++ cap_lines n (matching_lines b ls))
                 = cap_lines n (acc ++ matching_lines b (List.concat (ls :: bs)))).
  1,3: intros Htrue; simpl List.concat; rewrite matching_lines_app;
       destruct (HC Htrue) as [Hgt|[Hn Hm]];
       [ rewrite Hgt;
         rewrite <- (app_nil_r (cap_lines n (matching_lines b ls)));
         rewrite cap_lines_absorb; now rewrite app_nil_r
       | destruct (existsb (fun l => line_cmp b l =? 1) ls);
         [ rewrite <- (app_nil_r (cap_lines n (matching_lines b ls)));
           rewrite cap_lines_absorb; now rewrite app_nil_r
         | now apply cap_lines_enough ] ].
  - (* last entry *)
    destruct bs as [|? ?]; [|simpl in Hlay; discriminate].
    destruct t.
    + eexists _, _. split; [reflexivity|]. now apply Hstop.
    + assert (Hn : blockEntryN index (len done_ + 1) = (IndexEntry.zero, false)).
      { unfold blockEntryN. rewrite Hlist.
        assert (E : (len done_ + 1 >=? len (done_ ++ [entry])) = true).
        { apply Z.geb_le. unfold len. rewrite length_app. simpl. lia. }
        rewrite E. now rewrite orb_true_r. }
      rewrite Hn. eexists _, _. split; [reflexivity|].
      simpl List.concat. rewrite app_nil_r.
      rewrite <- (app_nil_r (cap_lines n (matching_lines b ls))).
      rewrite cap_lines_absorb. now rewrite app_nil_r.
  - destruct bs as [|ls' bs]; [simpl in Hlay; discriminate|].
    simpl in Hlay. apply andb_prop in Hlay. destruct Hlay as [Hlay Hlay'].
    apply andb_prop in Hlay. destruct Hlay as [Ho' Hl'].
    apply Z.eqb_eq in Ho', Hl'.
    destruct t.
    + eexists _, _. split; [reflexivity|]. now apply Hstop.
    + assert (Hn : blockEntryN index (len done_ + 1) = (e', true)).
      { unfold blockEntryN. rewrite Hlist.
        assert (E : (len done_ + 1 <? 0) || (len done_ + 1 >=? len (done_ ++ entry :: e' :: es)) = false).
        { apply orb_false_iff. split.
          - apply Z.ltb_ge. unfold len. lia.
          - destruct (Z.geb_spec (len done_ + 1) (len (done_ ++ entry :: e' :: es))) as [H|H];
              [|reflexivity].
            unfold len in H. rewrite length_app in H. simpl in H. lia. }
        rewrite E.
        replace (Z.to_nat (len done_ + 1)) with (List.length (done_ ++ [entry]))
          by (unfold len; rewrite length_app; simpl; lia).
        replace (done_ ++ entry :: e' :: es) with ((done_ ++ [entry]) ++ e' :: es)
          by (now rewrite <- app_assoc).
        rewrite nth_error_app2 by lia. now rewrite Nat.sub_diag. }
      rewrite Hn.
      assert (Hno : existsb (fun l => line_cmp b l =? 1) ls = false).
      { destruct (existsb (fun l => line_cmp b l =? 1) ls); [|reflexivity].
        now specialize (HB eq_refl). }
      destruct (IH bs ls' e' (done_ ++ [entry]) (before ++ join_lines ls) s1
                  (acc ++ cap_lines n (matching_lines b ls)) fuel)
        as (s' & lines & Hrun & Hlines).
      * now rewrite <- app_assoc.
      * subst s1. simpl. rewrite Hr. now rewrite <- app_assoc.
      * rewrite Ho'. unfold len. rewrite length_app. lia.
      * exact Hl'.
      * replace (len (before ++ join_lines ls)) with (len before + len (join_lines ls))
          by (unfold len; rewrite length_app; lia).
        exact Hlay'.
      * subst s1. simpl. rewrite Hoff. unfold len in *. rewrite length_app. lia.
      * exact Hcmp.
      * subst s1. simpl Searcher.buf.
        replace (slice.cap (block_buffer ls (skipn (List.length (join_lines ls))
                                               (slice.array (Searcher.buf s)))))
          with (slice.cap (Searcher.buf s)).
        -- exact (Forall_inv_tail Hfit).
        -- unfold slice.cap, block_buffer, len in *. simpl.
           rewrite length_app, length_skipn. lia.
      * simpl in Hfuel. lia.
      * exists s', lines.
        replace (len done_ + 1) with (len (done_ ++ [entry]))
          by (unfold len; rewrite length_app; simpl; lia).
        split; [exact Hrun|].
        rewrite Hlines. simpl List.concat.
        rewrite (matching_lines_app b ls), Hno, <- !app_assoc.
        apply cap_lines_absorb.
Qed.

End IndexedScan.

(** ** Lookups through the index *)

Lemma block_layout_split :
  forall entries blocks off e entry,
    block_layout off entries blocks = true ->
    nth_error entries e = Some entry ->
    exists done_ es bdone ls bs,
      entries = done_ ++ entry :: es /\ List.length done_ = e /\
      blocks = bdone ++ ls :: bs /\ List.length bdone = e /\
      IndexEntry.Offset entry = off + len (join_lines (List.concat bdone)) /\
      IndexEntry.Length entry = len (join_lines ls) /\
      block_layout (IndexEntry.Offset entry + IndexEntry.Length entry) es bs = true.
Proof.
  induction entries as [|x entries IH]; intros blocks off e entry Hlay Hnth.
  - destruct e; discriminate.
  - destruct blocks as [|ls blocks]; [discriminate|].
    simpl in Hlay. apply andb_prop in Hlay. destruct Hlay as [Hlay Hrest].
    apply andb_prop in Hlay. destruct Hlay as [Ho Hl].
    apply Z.eqb_eq in Ho, Hl.
    destruct e as [|e].
    + inversion Hnth. subst x.
      exists [], entries, [], ls, blocks. simpl.
      repeat split; auto.
      * change (len []) with 0. lia.
      * now rewrite Ho, Hl.
    + simpl in Hnth.
      destruct (IH blocks _ e entry Hrest Hnth)
        as (done_ & es & bdone & ls' & bs & -> & Hd & -> & Hb & Hoff & Hlen & Hlay).
      exists (x :: done_), es, (ls :: bdone), ls', bs. simpl.
      repeat split; auto.
      rewrite Hoff, join_lines_app. unfold len. rewrite length_app. lia.
Qed.

Lemma matching_lines_HasPrefix (b : list byte) (ls : list (list byte)) :
  ~ In nl b ->
  matching_lines b ls
  = filter (fun l => bytes.HasPrefix l b)
      (take_while (fun l => negb (line_cmp b l =? 1)) ls).
Proof.
  intros Hb. unfold matching_lines.
  apply filter_ext. intros l. now apply line_cmp_HasPrefix.
Qed.

Lemma Sorted_app_r {A : Type} (R : A -> A -> Prop) (x y : list A) :
  Sorted R (x ++ y) -> Sorted R y.
Proof.
  induction x as [|a x IH]; simpl; intros H; [exact H|].
  apply IH. now apply Sorted_inv in H.
Qed.

Section IndexedLookup.

Variable BlockEntry : Index.t -> list byte -> exec (Z * IndexEntry.t).
Variable zstd_Decompress : slice.t -> list byte -> slice.t * option error.
Variable NewIndex : string -> Index.t + error.
Variable Index_Filename : Index.t -> string.

Variable s : Searcher.t.
Variable index : Index.t.
Variable k : list byte.
Variable skipped : list byte.
Variable blocks : list (list (list byte)).
Variable e : nat.
Variable entry : IndexEntry.t.

Let b := k ++ Index.Delimiter index.

Hypothesis not_compressed : isCompressed Index_Filename s = false.
Hypothesis has_index : Searcher.Index s = Some index.
Hypothesis located : BlockEntry index k = Done (Z.of_nat e, entry).
Hypothesis located_entry : nth_error (Index.List index) e = Some entry.
Hypothesis file_is_blocks :
  Searcher.r s = skipped ++ join_lines (List.concat blocks).
Hypothesis layout : block_layout (len skipped) (Index.List index) blocks = true.
Hypothesis nothing_read : Searcher.bufOffset s = -1.
Hypothesis default_compare : Searcher.compare s = PrefixCompare.
Hypothesis no_newline : ~ In nl b.
Hypothesis blocks_fit : Forall (block_fits (slice.cap (Searcher.buf s)) b) blocks.

Lemma LinesN_blocks (fuel : nat) (n : Z) :
  exists s' lines,
    LinesN BlockEntry zstd_Decompress NewIndex Index_Filename fuel s k n
    = Done (s', indexed_result lines) /\
    cap_lines n lines
    = cap_lines n (matching_lines b (List.concat (skipn e blocks))).
Proof.
  destruct (block_layout_split _ _ _ _ _ layout located_entry)
    as (done_ & es & bdone & ls & bs & Hlist & Hd & Hblocks & Hb & Hoff & Hlen & Hlay').
  assert (Hbefore : len (skipped ++ join_lines (List.concat bdone))
                    = IndexEntry.Offset entry)
    by (rewrite Hoff; unfold len; rewrite length_app; lia).
  destruct (scanIndexedLines_loop_blocks index k n no_newline es bs ls entry done_
              (skipped ++ join_lines (List.concat bdone)) s []
              (S (List.length (Index.List index))))
    as (s' & lines & Hrun & Hlines).
  - exact Hlist.
  - rewrite file_is_blocks, Hblocks, concat_app, join_lines_app, app_assoc.
    reflexivity.
  - now rewrite Hbefore.
  - exact Hlen.
  - rewrite <- Hlen, Hbefore. exact Hlay'.
  - rewrite nothing_read. unfold len. lia.
  - exact default_compare.
  - pose proof blocks_fit as Hfit. rewrite Hblocks in Hfit.
    apply Forall_app in Hfit. apply Hfit.
  - rewrite Hlist, length_app. simpl. lia.
  - exists s', lines. split.
    + unfold LinesN. rewrite not_compressed, has_index.
      unfold scanIndexedLines. rewrite has_index, located.
      cbn [bind]. unfold len in Hrun. rewrite Hd in Hrun. exact Hrun.
    + rewrite Hlines, Hblocks, <- Hb, skipn_length_app. reflexivity.
Qed.

End IndexedLookup.

(** X7. [LinesN] through an index whose entries lie on blocks of whole lines.
    The file is the bytes [skipped] (a header line, or nothing) and then
    the lines of [blocks] in order, entry [i] of the index has
    the offset and length of block [i], no block is empty, and each
    leaves room in the read buffer for a window of [len(k) + len(delimiter)]
    bytes after its last byte.  If the block locator returns the position
    [e] and the entry at [e], the lookup returns, and its first [n] lines
    (all of them when [n <= 0]) are the first [n] of: the lines that begin
    with the key and the delimiter, among the lines from block [e] on that
    come before the first line greater than the key.  The error is
    [ErrNotFound] exactly when no line is returned. *)
Theorem LinesN_over_blocks
    (BlockEntry : Index.t -> list byte -> exec (Z * IndexEntry.t))
    (zstd_Decompress : slice.t -> list byte -> slice.t * option error)
    (NewIndex : string -> Index.t + error)
    (Index_Filename : Index.t -> string)
    (fuel : nat) (s : Searcher.t) (index : Index.t) (k : list byte) (n : Z)
    (skipped : list byte) (blocks : list (list (list byte))) (e : nat)
    (entry : IndexEntry.t) :
  isCompressed Index_Filename s = false ->
  Searcher.Index s = Some index ->
  BlockEntry index k = Done (Z.of_nat e, entry) ->
  nth_error (Index.List index) e = Some entry ->
  Searcher.r s = skipped ++ join_lines (List.concat blocks) ->
  block_layout (len skipped) (Index.List index) blocks = true ->
  Searcher.bufOffset s = -1 ->
  Searcher.compare s = PrefixCompare ->
  ~ In nl (k ++ Index.Delimiter index) ->
  Forall (block_fits (slice.cap (Searcher.buf s)) (k ++ Index.Delimiter index))
    blocks ->
  exists s' lines,
    LinesN BlockEntry zstd_Decompress NewIndex Index_Filename fuel s k n
    = Done (s', (lines, if len lines =? 0 then Some ErrNotFound else None)) /\
    cap_lines n lines
    = cap_lines n
        (filter (fun l => bytes.HasPrefix l (k ++ Index.Delimiter index))
           (take_while
              (fun l => negb (line_cmp (k ++ Index.Delimiter index) l =? 1))
              (List.concat (skipn e blocks)))).
Proof.
  intros Hz Hix Hloc Hnth Hr Hlay Hbo Hcmp Hnl Hfit.
  destruct (LinesN_blocks BlockEntry zstd_Decompress NewIndex Index_Filename
              s index k skipped blocks e entry Hz Hix Hloc Hnth Hr Hlay Hbo Hcmp Hnl Hfit
              fuel n) as (s' & lines & Hrun & Hlines).
  exists s', lines. split.
  - rewrite Hrun. unfold indexed_result. now destruct (len lines =? 0).
  - rewrite Hlines. now rewrite matching_lines_HasPrefix.
Qed.

Lemma LinesN_over_blocks_witness :
  exists s' lines,
    LinesN locator_LT no_Decompress no_NewIndex Index.Filepath 0
      (searcher_on file_spill entries_spill) (bytes_of "b") 2
    = Done (s', (lines, if len lines =? 0 then Some ErrNotFound else None)) /\
    cap_lines 2 lines
    = cap_lines 2
        (filter (fun l => bytes.HasPrefix l (bytes_of "b" ++ bytes_of ","))
           (take_while
              (fun l => negb (line_cmp (bytes_of "b" ++ bytes_of ",") l =? 1))
              (List.concat (skipn 0 blocks_spill)))).
Proof.
  apply (LinesN_over_blocks locator_LT no_Decompress no_NewIndex Index.Filepath
           0%nat (searcher_on file_spill entries_spill)
           (index_of_entries entries_spill) (bytes_of "b") 2 [] blocks_spill
           0%nat (IndexEntry.mk "a" 0 8)).
  - reflexivity.
  - reflexivity.
  - vm_compute. reflexivity.
  - reflexivity.
  - vm_compute. reflexivity.
  - vm_compute. reflexivity.
  - reflexivity.
  - reflexivity.
  - vm_compute. intuition discriminate.
  - repeat constructor; try discriminate; try (vm_compute; discriminate);
      intros l H; vm_compute in H; vm_compute;
      repeat (destruct H as [<-|H]; [intuition discriminate|]); destruct H.
Defined.

(** X8. [Lines] on a sorted file.  Under the conditions of the theorem above,
    if the lines of the file are in order and no line of the blocks before
    the located one begins with the key and the delimiter, [Lines] returns
    exactly the lines of the file that begin with them, in file order, and
    [ErrNotFound] when there is none. *)
Theorem Lines_sorted_file
    (BlockEntry : Index.t -> list byte -> exec (Z * IndexEntry.t))
    (zstd_Decompress : slice.t -> list byte -> slice.t * option error)
    (NewIndex : string -> Index.t + error)
    (Index_Filename : Index.t -> string)
    (fuel : nat) (s : Searcher.t) (index : Index.t) (k : list byte)
    (skipped : list byte) (blocks : list (list (list byte))) (e : nat)
    (entry : IndexEntry.t) :
  isCompressed Index_Filename s = false ->
  Searcher.Index s = Some index ->
  BlockEntry index k = Done (Z.of_nat e, entry) ->
  nth_error (Index.List index) e = Some entry ->
  Searcher.r s = skipped ++ join_lines (List.concat blocks) ->
  block_layout (len skipped) (Index.List index) blocks = true ->
  Searcher.bufOffset s = -1 ->
  Searcher.compare s = PrefixCompare ->
  ~ In nl (k ++ Index.Delimiter index) ->
  Forall (block_fits (slice.cap (Searcher.buf s)) (k ++ Index.Delimiter index))
    blocks ->
  Sorted line_le (List.concat blocks) ->
  (forall l, In l (List.concat (firstn e blocks)) ->
             bytes.HasPrefix l (k ++ Index.Delimiter index) = false) ->
  exists s',
    Lines BlockEntry zstd_Decompress NewIndex Index_Filename fuel s k
    = Done (s',
            let lines := filter (fun l => bytes.HasPrefix l (k ++ Index.Delimiter index))
                           (List.concat blocks) in
            (lines, if len lines =? 0 then Some ErrNotFound else None)).
Proof.
  intros Hz Hix Hloc Hnth Hr Hlay Hbo Hcmp Hnl Hfit Hsorted Hbefore.
  destruct (LinesN_blocks BlockEntry zstd_Decompress NewIndex Index_Filename
              s index k skipped blocks e entry Hz Hix Hloc Hnth Hr Hlay Hbo Hcmp Hnl Hfit
              fuel 0) as (s' & lines & Hrun & Hlines).
  exists s'. unfold Lines. rewrite Hrun. unfold indexed_result.
  change (cap_lines 0 lines) with lines in Hlines.
  change (cap_lines 0 ?x) with x in Hlines.
  rewrite <- (firstn_skipn e blocks) in Hsorted.
  rewrite concat_app in Hsorted. apply Sorted_app_r in Hsorted.
  rewrite matching_lines_sorted in Hlines by assumption.
  assert (E : filter (fun l => bytes.HasPrefix l (k ++ Index.Delimiter index))
                (List.concat blocks) = lines).
  { rewrite <- (firstn_skipn e blocks) at 1. rewrite concat_app, filter_app.
    replace (filter (fun l => bytes.HasPrefix l (k ++ Index.Delimiter index))
               (List.concat (firstn e blocks))) with (@nil (list byte)).
    - simpl. rewrite Hlines. apply filter_ext. intros l.
      symmetry. now apply line_cmp_HasPrefix.
    - symmetry. induction (List.concat (firstn e blocks)) as [|x xs IH]; [reflexivity|].
      simpl. rewrite (Hbefore x (or_introl eq_refl)).
      apply IH. intros l Hl. apply Hbefore. now right. }
  cbv zeta. rewrite E. now destruct (len lines =? 0).
Qed.

Lemma Lines_sorted_file_witness :
  exists s',
    Lines locator_LT no_Decompress no_NewIndex Index.Filepath 0
      (searcher_on file_spill entries_spill) (bytes_of "b")
    = Done (s',
            let lines := filter (fun l => bytes.HasPrefix l (bytes_of "b" ++ bytes_of ","))
                           (List.concat blocks_spill) in
            (lines, if len lines =? 0 then Some ErrNotFound else None)).
Proof.
  apply (Lines_sorted_file locator_LT no_Decompress no_NewIndex Index.Filepath
           0%nat (searcher_on file_spill entries_spill)
           (index_of_entries entries_spill) (bytes_of "b") [] blocks_spill
           0%nat (IndexEntry.mk "a" 0 8)).
  - reflexivity.
  - reflexivity.
  - vm_compute. reflexivity.
  - reflexivity.
  - vm_compute. reflexivity.
  - vm_compute. reflexivity.
  - reflexivity.
  - reflexivity.
  - vm_compute. intuition discriminate.
  - repeat constructor; try discriminate; try (vm_compute; discriminate);
      intros l H; vm_compute in H; vm_compute;
      repeat (destruct H as [<-|H]; [intuition discriminate|]); destruct H.
  - repeat constructor; vm_compute; discriminate.
  - intros l H. destruct H.
Defined.

(** X9. [Line] returns the first line that [Lines] would return.  Under the
    conditions of [LinesN_over_blocks], [Line] returns the first line that
    begins with the key and the delimiter among the lines from the located
    block on that come before the first line greater than the key, and
    [ErrNotFound] with an empty line when there is none. *)
Theorem Line_first_match
    (BlockEntry : Index.t -> list byte -> exec (Z * IndexEntry.t))
    (zstd_Decompress : slice.t -> list byte -> slice.t * option error)
    (NewIndex : string -> Index.t + error)
    (Index_Filename : Index.t -> string)
    (fuel : nat) (s : Searcher.t) (index : Index.t) (k : list byte)
    (skipped : list byte) (blocks : list (list (list byte))) (e : nat)
    (entry : IndexEntry.t) :
  isCompressed Index_Filename s = false ->
  Searcher.Index s = Some index ->
  BlockEntry index k = Done (Z.of_nat e, entry) ->
  nth_error (Index.List index) e = Some entry ->
  Searcher.r s = skipped ++ join_lines (List.concat blocks) ->
  block_layout (len skipped) (Index.List index) blocks = true ->
  Searcher.bufOffset s = -1 ->
  Searcher.compare s = PrefixCompare ->
  ~ In nl (k ++ Index.Delimiter index) ->
  Forall (block_fits (slice.cap (Searcher.buf s)) (k ++ Index.Delimiter index))
    blocks ->
  exists s',
    Line BlockEntry zstd_Decompress NewIndex Index_Filename fuel s k
    = Done (s',
            match filter (fun l => bytes.HasPrefix l (k ++ Index.Delimiter index))
                    (take_while
                       (fun l => negb (line_cmp (k ++ Index.Delimiter index) l =? 1))
                       (List.concat (skipn e blocks))) with
            | [] => ([], Some ErrNotFound)
            | line :: _ => (line, None)
            end).
Proof.
  intros Hz Hix Hloc Hnth Hr Hlay Hbo Hcmp Hnl Hfit.
  destruct (LinesN_blocks BlockEntry zstd_Decompress NewIndex Index_Filename
              s index k skipped blocks e entry Hz Hix Hloc Hnth Hr Hlay Hbo Hcmp Hnl Hfit
              fuel 1) as (s' & lines & Hrun & Hlines).
  exists s'. unfold Line. rewrite Hrun. cbn [bind].
  rewrite matching_lines_HasPrefix in Hlines by assumption.
  unfold cap_lines in Hlines. simpl in Hlines.
  destruct (filter _ _) as [|m ms]; destruct lines as [|x xs];
    simpl in Hlines; try discriminate; [reflexivity|].
  inversion Hlines. subst. reflexivity.
Qed.

Lemma Line_first_match_witness :
  exists s',
    Line locator_LT no_Decompress no_NewIndex Index.Filepath 0
      (searcher_on file_spill entries_spill) (bytes_of "b")
    = Done (s',
            match filter (fun l => bytes.HasPrefix l (bytes_of "b" ++ bytes_of ","))
                    (take_while
                       (fun l => negb (line_cmp (bytes_of "b" ++ bytes_of ",") l =? 1))
                       (List.concat (skipn 0 blocks_spill))) with
            | [] => ([], Some ErrNotFound)
            | line :: _ => (line, None)
            end).
Proof.
  apply (Line_first_match locator_LT no_Decompress no_NewIndex Index.Filepath
           0%nat (searcher_on file_spill entries_spill)
           (index_of_entries entries_spill) (bytes_of "b") [] blocks_spill
           0%nat (IndexEntry.mk "a" 0 8)).
  - reflexivity.
  - reflexivity.
  - vm_compute. reflexivity.
  - reflexivity.
  - vm_compute. reflexivity.
  - vm_compute. reflexivity.
  - reflexivity.
  - reflexivity.
  - vm_compute. intuition discriminate.
  - repeat constructor; try discriminate; try (vm_compute; discriminate);
      intros l H; vm_compute in H; vm_compute;
      repeat (destruct H as [<-|H]; [intuition discriminate|]); destruct H.
Defined.

(** ** Reading a block *)

Lemma readBlockEntry_buffer (s : Searcher.t) (entry : IndexEntry.t) :
  0 <= IndexEntry.Length entry ->
  exists buf,
    (if IndexEntry.Length entry >? slice.cap (Searcher.buf s)
     then slice.make (IndexEntry.Length entry)
     else slice.upto (Searcher.buf s) (IndexEntry.Length entry)) = Done buf /\
    slice.length buf = Z.to_nat (IndexEntry.Length entry) /\
    (slice.length buf <= List.length (slice.array buf))%nat.
Proof.
  intros HL.
  destruct (Z.gtb_spec (IndexEntry.Length entry) (slice.cap (Searcher.buf s))) as [Hgt|Hle].
  - unfold slice.make. destruct (Z.ltb_spec (IndexEntry.Length entry) 0); [lia|].
    eexists. split; [reflexivity|]. simpl. rewrite repeat_length. split; [reflexivity|lia].
  - unfold slice.upto, slice.sub.
    assert (C : (0 <=? 0) && (0 <=? IndexEntry.Length entry)
                && (IndexEntry.Length entry <=? slice.cap (Searcher.buf s)) = true).
    { rewrite !andb_true_iff. repeat split; apply Z.leb_le; lia. }
    rewrite C. eexists. split; [reflexivity|]. simpl.
    rewrite Z.sub_0_r. split; [reflexivity|]. unfold slice.cap in Hle. lia.
Qed.

(** X10. A successful [readBlockEntry].  For an entry that lies within the
    file ([0 <= Offset], [0 <= Length], [Offset + Length <= len(file)]) and
    is not the one the searcher holds, [readBlockEntry] returns no error;
    afterwards [s.buf] is exactly the bytes [file[Offset : Offset+Length]]
    (whether the buffer was re-sliced or newly made), [s.bufOffset] is the
    entry's offset, and a second call for the same entry changes
    nothing. *)
Theorem readBlockEntry_loads (s : Searcher.t) (entry : IndexEntry.t) :
  Searcher.bufOffset s <> IndexEntry.Offset entry ->
  0 <= IndexEntry.Offset entry ->
  0 <= IndexEntry.Length entry ->
  IndexEntry.Offset entry + IndexEntry.Length entry <= len (Searcher.r s) ->
  exists s',
    readBlockEntry s entry = Done (s', None) /\
    slice.data (Searcher.buf s')
    = firstn (Z.to_nat (IndexEntry.Length entry))
        (skipn (Z.to_nat (IndexEntry.Offset entry)) (Searcher.r s)) /\
    Searcher.bufOffset s' = IndexEntry.Offset entry /\
    Searcher.r s' = Searcher.r s /\
    readBlockEntry s' entry = Done (s', None).
Proof.
  intros Hne HO HL Hin.
  destruct (readBlockEntry_buffer s entry HL) as (buf & Hbuf & Hlen & Hcap).
  set (got := firstn (slice.length buf)
                (skipn (Z.to_nat (IndexEntry.Offset entry)) (Searcher.r s))).
  assert (Hgot : List.length got = slice.length buf).
  { unfold got. rewrite length_firstn, length_skipn, Hlen. unfold len in Hin. lia. }
  exists (Searcher.with_buf s (slice.write buf got) (IndexEntry.Offset entry)).
  assert (Hrun : readBlockEntry s entry
                 = Done (Searcher.with_buf s (slice.write buf got)
                           (IndexEntry.Offset entry), None)).
  { unfold readBlockEntry. rewrite (proj2 (Z.eqb_neq _ _) Hne), Hbuf. cbn [bind].
    unfold ReadAt. rewrite (proj2 (Z.ltb_ge _ _) HO). fold got.
    unfold len, slice.len. rewrite Hgot, Z.ltb_irrefl.
    rewrite Hlen, Z2Nat.id by lia. now rewrite Z.ltb_irrefl. }
  split; [exact Hrun|]. split; [|split; [reflexivity|split; [reflexivity|]]].
  - simpl. unfold slice.data, slice.write. simpl.
    rewrite <- Hgot, firstn_length_app. unfold got. now rewrite Hlen.
  - unfold readBlockEntry. simpl. now rewrite Z.eqb_refl.
Qed.

Lemma readBlockEntry_loads_witness :
  exists s',
    readBlockEntry (searcher_on file_spill entries_spill) (IndexEntry.mk "b" 8 8)
    = Done (s', None) /\
    slice.data (Searcher.buf s')
    = firstn (Z.to_nat 8) (skipn (Z.to_nat 8) file_spill) /\
    Searcher.bufOffset s' = 8 /\
    Searcher.r s' = file_spill /\
    readBlockEntry s' (IndexEntry.mk "b" 8 8) = Done (s', None).
Proof.
  apply (readBlockEntry_loads (searcher_on file_spill entries_spill)
           (IndexEntry.mk "b" 8 8)).
  - vm_compute. discriminate.
  - vm_compute. discriminate.
  - vm_compute. discriminate.
  - vm_compute. discriminate.
Defined.



(** ** The word-boundary test *)

Lemma PrefixCompare_app (b0 : list byte) :
  forall more, PrefixCompare (b0 ++ more) b0 = 0.
Proof.
  induction b0 as [|c b0 IH]; intros more.
  - apply PrefixCompare_nil_r.
  - simpl app. rewrite PrefixCompare_cons, byte_compare_refl. apply IH.
Qed.

Lemma slice_sub_of_list (pre : list byte) (c : byte) (post : list byte) :
  exists r,
    slice.sub (slice.of_list (pre ++ c :: post)) (len pre) (len pre + 1) = Done r /\
    slice.data r = [c].
Proof.
  unfold slice.sub, slice.of_list, slice.cap, len. simpl slice.array.
  assert (C : (0 <=? Z.of_nat (List.length pre))
              && (Z.of_nat (List.length pre) <=? Z.of_nat (List.length pre) + 1)
              && (Z.of_nat (List.length pre) + 1
                  <=? Z.of_nat (List.length (pre ++ c :: post))) = true).
  { rewrite !andb_true_iff. repeat split; apply Z.leb_le; try lia.
    rewrite length_app. simpl. lia. }
  rewrite C. eexists. split; [reflexivity|].
  unfold slice.data. simpl.
  rewrite Nat2Z.id, skipn_length_app.
  replace (Z.to_nat (Z.of_nat (List.length pre) + 1 - Z.of_nat (List.length pre)))
    with 1%nat by lia.
  reflexivity.
Qed.

(** X12. The word-boundary rule of [checkPrefixMatch].  When the searcher has
    [boundary] set and [bufa] continues after a non-empty match [b], the
    line is kept exactly when the last byte of [b] and the byte after the
    match are of different classes (one a word byte [\w], the other not),
    and is replaced by an empty slice otherwise; a [bufa] that is exactly
    [b] is kept whatever the setting.  In both cases no error is returned
    and [brk] is false. *)
Theorem checkPrefixMatch_boundary (s : Searcher.t) (b0 : list byte) (x y : byte)
    (rest : list byte) :
  (Searcher.boundary s = true ->
   checkPrefixMatch s (b0 ++ x :: y :: rest) (b0 ++ [x])
   = Done (if Bool.eqb (is_word x) (is_word y) then []
           else b0 ++ x :: y :: rest, false, None)) /\
  checkPrefixMatch s (b0 ++ [x]) (b0 ++ [x]) = Done (b0 ++ [x], false, None).
Proof.
  split.
  - intros Hb. unfold checkPrefixMatch.
    replace (b0 ++ x :: y :: rest) with ((b0 ++ [x]) ++ y :: rest)
      by (now rewrite <- app_assoc).
    rewrite PrefixCompare_app. cbn [Z.ltb Z.gtb Z.compare]. rewrite Hb.
    assert (G : (len ((b0 ++ [x]) ++ y :: rest) >? len (b0 ++ [x])) = true).
    { apply Z.gtb_lt. unfold len. rewrite !length_app. simpl. lia. }
    rewrite G. cbn [andb].
    destruct (slice_sub_of_list (b0 ++ [x]) y rest) as (rn & Hn & Hdn).
    rewrite Hn.
    replace (len (b0 ++ [x]) - 1) with (len b0)
      by (unfold len; rewrite length_app; simpl; lia).
    replace (len (b0 ++ [x])) with (len b0 + 1)
      by (unfold len; rewrite length_app; simpl; lia).
    replace ((b0 ++ [x]) ++ y :: rest) with (b0 ++ x :: y :: rest)
      by (now rewrite <- app_assoc).
    destruct (slice_sub_of_list b0 x (y :: rest)) as (rl & Hl & Hdl).
    rewrite Hl. cbn [bind]. rewrite Hdl, Hdn.
    unfold reWord_Match, clone. simpl existsb. rewrite !orb_false_r.
    destruct (is_word x), (is_word y); reflexivity.
  - unfold checkPrefixMatch.
    assert (E : PrefixCompare (b0 ++ [x]) (b0 ++ [x]) = 0).
    { rewrite <- (app_nil_r (b0 ++ [x])) at 1. apply PrefixCompare_app. }
    rewrite E. cbn [Z.ltb Z.gtb Z.compare].
    assert (G : (len (b0 ++ [x]) >? len (b0 ++ [x])) = false).
    { destruct (Z.gtb_spec (len (b0 ++ [x])) (len (b0 ++ [x]))); [lia|reflexivity]. }
    rewrite G, andb_false_r. reflexivity.
Qed.

Lemma checkPrefixMatch_boundary_witness :
  checkPrefixMatch
    (setOptions (searcher_on file_a entries_a) (Options.mk false true false))
    (bytes_of "foo" ++ "o"%byte :: ","%byte :: bytes_of "1") (bytes_of "foo" ++ ["o"%byte])
  = Done (if Bool.eqb (is_word "o"%byte) (is_word ","%byte) then []
          else bytes_of "foo" ++ "o"%byte :: ","%byte :: bytes_of "1", false, None).
Proof.
  apply (checkPrefixMatch_boundary
           (setOptions (searcher_on file_a entries_a) (Options.mk false true false))
           (bytes_of "foo") "o"%byte ","%byte (bytes_of "1")).
  reflexivity.
Defined.

(** X13. With [boundary] set and empty search bytes, [checkPrefixMatch]
    panics on every non-empty [bufa]: the match is trivial, and
    [bufa[len(b)-1 : len(b)]] is [bufa[-1:0]]. *)
Theorem checkPrefixMatch_empty_b_panics (s : Searcher.t) (bufa : list byte) :
  Searcher.boundary s = true ->
  bufa <> [] ->
  checkPrefixMatch s bufa [] = Panic.
Proof.
  intros Hb Hne. unfold checkPrefixMatch.
  rewrite PrefixCompare_nil_r. cbn [Z.ltb Z.gtb Z.compare]. rewrite Hb.
  assert (G : (len bufa >? len (@nil byte)) = true).
  { apply Z.gtb_lt. unfold len. destruct bufa; [congruence|simpl; lia]. }
  rewrite G. reflexivity.
Qed.

Lemma checkPrefixMatch_empty_b_panics_witness :
  checkPrefixMatch
    (setOptions (searcher_on file_a entries_a) (Options.mk false true false))
    (bytes_of "a,1") [] = Panic.
Proof.
  apply (checkPrefixMatch_empty_b_panics
           (setOptions (searcher_on file_a entries_a) (Options.mk false true false))
           (bytes_of "a,1")).
  - reflexivity.
  - vm_compute. discriminate.
Defined.

(** ** The block searches on sorted and on empty indexes *)

Section BinarySearchFromFirst.

Variable list : list IndexEntry.t.
Variable goes_right : IndexEntry.t -> bool.

Hypothesis initial_segment :
  forall i j ei ej, (i <= j)%nat ->
    nth_error list i = Some ei -> nth_error list j = Some ej ->
    goes_right ej = true -> goes_right ei = true.

(** As [search_loop_last], without the test holding at [begin]: the loop
    then may stay at [begin]. *)
Lemma search_loop_last_or_begin (fuel : nat) :
  forall begin end_ eb,
    0 <= begin -> begin <= end_ -> end_ < len list ->
    end_ - begin <= Z.of_nat fuel ->
    nth_error list (Z.to_nat begin) = Some eb ->
    (forall j e, end_ < j -> nth_error list (Z.to_nat j) = Some e ->
                 goes_right e = false) ->
    exists p e,
      search_loop list goes_right fuel begin end_ = Done p /\
      begin <= p <= end_ /\
      nth_error list (Z.to_nat p) = Some e /\
      (p = begin \/ goes_right e = true) /\
      (forall j e', p < j -> nth_error list (Z.to_nat j) = Some e' ->
                    goes_right e' = false).
Proof.
  induction fuel as [|fuel IH]; intros begin end_ eb H0 Hbe Hlen Hfuel Hb Hend.
  - rewrite search_loop_exit by lia. exists begin, eb.
    repeat split; auto; try lia.
    intros j e' Hj. apply Hend. lia.
  - destruct (Z.le_gt_cases (end_ - begin) 0) as [Hle|Hgt].
    { rewrite search_loop_exit by lia. exists begin, eb.
      repeat split; auto; try lia.
      intros j e' Hj. apply Hend. lia. }
    simpl. destruct (Z.gtb_spec (end_ - begin) 0); [|lia].
    unfold search_step.
    pose proof (midpoint_range begin end_ ltac:(lia)) as Hm.
    destruct (index_Done list (midpoint begin end_)) as (em & -> & Hem); [lia|].
    simpl. destruct (goes_right em) eqn:Egm; simpl.
    + destruct (search_loop_last list goes_right initial_segment fuel
                  (midpoint begin end_) end_ em)
        as (p & e & Hp & Hr & Hpe & Hge & Hrest); auto; try lia.
      exists p, e. repeat split; auto; lia.
    + destruct (Z.eqb_spec end_ (midpoint begin end_)) as [Heq|Hne]; simpl.
      * exists begin, eb. repeat split; auto; try lia.
        intros j e' Hj Hje.
        pose proof (midpoint_at_end begin end_ ltac:(lia) (eq_sym Heq)).
        destruct (Z.eq_dec j end_) as [->|].
        -- rewrite Heq in Hje. congruence.
        -- apply (Hend j e'); [lia | exact Hje].
      * destruct (IH begin (midpoint begin end_) eb)
          as (p & e & Hp & Hr & Hpe & Hge & Hrest); auto; try lia.
        { intros j e' Hj Hje.
          destruct (goes_right e') eqn:Ege; [|reflexivity].
          rewrite <- Egm. symmetry.
          apply (initial_segment (Z.to_nat (midpoint begin end_)) (Z.to_nat j) em e');
            auto. lia. }
        exists p, e. repeat split; auto; lia.
Qed.

End BinarySearchFromFirst.

(** X14. [blockEntryLT] on a sorted index.  For a non-empty entry list in
    ascending key order, and a [prefixCompare] whose "less than [key]"
    verdict is downward closed in the key order (as that of
    [PrefixCompare] is), [blockEntryLT] returns a position of the list and
    the entry there; no entry after it is less than [key]; and either the
    entry is less than [key], or the position is 0, the fall-back the
    source's FIXME describes. *)
Theorem blockEntryLT_sorted (prefixCompare : list byte -> list byte -> Z)
    (i : Index.t) (key : list byte) :
  Index.List i <> [] ->
  Sorted key_le (Index.List i) ->
  (forall x y, strings.Compare x y <= 0 ->
     prefixCompare (list_byte_of_string y) key = -1 ->
     prefixCompare (list_byte_of_string x) key = -1) ->
  exists p e,
    blockEntryLT prefixCompare i key = Done (p, e) /\
    0 <= p /\ nth_error (Index.List i) (Z.to_nat p) = Some e /\
    (p = 0 \/ prefixCompare (list_byte_of_string (IndexEntry.Key e)) key = -1) /\
    (forall j e', p < j -> nth_error (Index.List i) (Z.to_nat j) = Some e' ->
                  prefixCompare (list_byte_of_string (IndexEntry.Key e')) key <> -1).
Proof.
  intros Hne HS Hmono.
  set (lt := fun e => prefixCompare (list_byte_of_string (IndexEntry.Key e)) key =? -1).
  destruct (Index.List i) as [|e0 rest] eqn:Hl; [congruence|]. rewrite <- Hl in *.
  assert (Hlen : 0 < len (Index.List i)) by (rewrite Hl; unfold len; simpl; lia).
  destruct (search_loop_last_or_begin (Index.List i) lt) with
      (fuel := List.length (Index.List i)) (begin := 0)
      (end_ := len (Index.List i) - 1) (eb := e0)
    as (p & e & Hp & Hr & Hpe & Hge & Hrest); try lia; try (unfold len; lia).
  - intros a b ea eb Hab Ha Hb. unfold lt. rewrite !Z.eqb_eq.
    apply Hmono. exact (Sorted_key_le_nth _ HS a b ea eb Hab Ha Hb).
  - now rewrite Hl.
  - intros j e' Hj Hje.
    assert (H : nth_error (Index.List i) (Z.to_nat j) <> None) by congruence.
    apply nth_error_Some in H. unfold len in Hj. lia.
  - exists p, e. unfold blockEntryLT. fold lt. rewrite Hp. simpl bind.
    destruct (index_Done (Index.List i) p) as (e' & -> & He'); [lia|].
    assert (e' = e) by congruence. subst e'. simpl.
    split; [reflexivity|]. split; [lia|]. split; [exact Hpe|]. split.
    + destruct Hge as [->|Hge]; [now left|]. right. now apply Z.eqb_eq in Hge.
    + intros j e' Hj Hje. specialize (Hrest j e' Hj Hje). unfold lt in Hrest.
      now apply Z.eqb_neq in Hrest.
Qed.

Lemma PrefixCompare_less_closed (key : list byte) (x y : string) :
  strings.Compare x y <= 0 ->
  PrefixCompare (list_byte_of_string y) key = -1 ->
  PrefixCompare (list_byte_of_string x) key = -1.
Proof.
  intros Hxy Hy.
  assert (H : bytes.Compare (list_byte_of_string x) (list_byte_of_string y) <= 0).
  { rewrite <- strings_Compare_bytes. now rewrite !string_of_list_byte_of_string. }
  apply (PrefixCompare_mono key) in H.
  destruct (PrefixCompare_range (list_byte_of_string x) key) as [E|[E|E]]; lia.
Qed.

Lemma blockEntryLT_sorted_witness :
  exists p e,
    blockEntryLT PrefixCompare three_entries (bytes_of "d") = Done (p, e) /\
    0 <= p /\ nth_error (Index.List three_entries) (Z.to_nat p) = Some e /\
    (p = 0 \/ PrefixCompare (list_byte_of_string (IndexEntry.Key e)) (bytes_of "d") = -1) /\
    (forall j e', p < j ->
       nth_error (Index.List three_entries) (Z.to_nat j) = Some e' ->
       PrefixCompare (list_byte_of_string (IndexEntry.Key e')) (bytes_of "d") <> -1).
Proof.
  apply (blockEntryLT_sorted PrefixCompare three_entries (bytes_of "d")).
  - discriminate.
  - repeat constructor; vm_compute; discriminate.
  - apply PrefixCompare_less_closed.
Defined.

(** X15. On an index with no entries both binary searches panic -
    [blockEntryLE] at [i.List[0]], [blockEntryLT] at [list[begin]] after a
    loop that is not entered - while [blockEntryN] reports that there is
    no entry. *)
Theorem block_searches_on_empty_index (prefixCompare : list byte -> list byte -> Z)
    (i : Index.t) (key : list byte) (n : Z) :
  Index.List i = [] ->
  blockEntryLE i key = Panic /\
  blockEntryLT prefixCompare i key = Panic /\
  blockEntryN i n = (IndexEntry.zero, false).
Proof.
  intros H. unfold blockEntryLE, blockEntryLT, blockEntryN. rewrite H.
  repeat split.
  unfold len. simpl.
  destruct (Z.ltb_spec n 0); [reflexivity|].
  destruct (Z.geb_spec n 0); [reflexivity|lia].
Qed.

Lemma block_searches_on_empty_index_witness :
  blockEntryLE (empty_index 4096) (bytes_of "a") = Panic /\
  blockEntryLT PrefixCompare (empty_index 4096) (bytes_of "a") = Panic /\
  blockEntryN (empty_index 4096) 0 = (IndexEntry.zero, false).
Proof.
  apply (block_searches_on_empty_index PrefixCompare (empty_index 4096)
           (bytes_of "a") 0).
  reflexivity.
Defined.

(** ** The compressed lookup does not advance *)

(** X16. [scanCompressedLines] asks for block [e + 1] on every pass, [e]
    being the position the locator gave, and never changes [e].  So once
    the block after the located one is loaded and its scan does not set
    the terminate flag - it holds no line greater than the key - the loop
    scans that same block again and again, appending its matches to
    [lines] each time: no number of passes makes it return. *)
Theorem scanCompressedLines_loop_never_leaves
    (zstd_Decompress : slice.t -> list byte -> slice.t * option error)
    (index : Index.t) (s : Searcher.t) (k : list byte) (n : Z)
    (l : list (list byte)) (e : Z) (next : IndexEntry.t) :
  Searcher.dbufOffset s = IndexEntry.Offset next ->
  scanLinesMatching s (Searcher.dbuf s) (k ++ Index.Delimiter index) n
    = Done (l, false) ->
  blockEntryN index (e + 1) = (next, true) ->
  forall fuel lines,
    scanCompressedLines_loop zstd_Decompress fuel index s k n lines e next
    = OutOfFuel.
Proof.
  intros Hoff Hscan Hnext. induction fuel as [|fuel IH]; intros lines;
    simpl; [reflexivity|].
  unfold decompressBlockEntry. rewrite Hoff, Z.eqb_refl. simpl.
  rewrite Hscan. simpl. rewrite Hnext. apply IH.
Qed.

Lemma scanCompressedLines_loop_never_leaves_witness :
  scanCompressedLines_loop stored_Decompress 1000
    (index_of_entries entries_two_blocks) searcher_zst_2 (bytes_of "ab!1") 0
    [] 0 (IndexEntry.mk "ab!1" 5 7)
  = OutOfFuel.
Proof.
  apply (scanCompressedLines_loop_never_leaves stored_Decompress
           (index_of_entries entries_two_blocks) searcher_zst_2 (bytes_of "ab!1") 0
           [bytes_of "ab!1,1"] 0 (IndexEntry.mk "ab!1" 5 7)).
  - reflexivity.
  - vm_compute. reflexivity.
  - reflexivity.
Defined.

(** ** The index that [generateLineIndex] builds *)

Lemma close_last_snoc (init : list IndexEntry.t) (last : IndexEntry.t) (pos : Z) :
  close_last (init ++ [last]) pos
  = init ++ [IndexEntry.mk (IndexEntry.Key last) (IndexEntry.Offset last)
               (pos - IndexEntry.Offset last)].
Proof.
  unfold close_last. rewrite rev_app_distr. simpl. now rewrite rev_involutive.
Qed.

Lemma close_last_keys (list : list IndexEntry.t) (pos : Z) :
  map IndexEntry.Key (close_last list pos) = map IndexEntry.Key list.
Proof.
  destruct list as [|e list]; [reflexivity|].
  destruct (@exists_last _ (e :: list)) as (init & last & E); [discriminate|].
  rewrite E, close_last_snoc, !map_app. reflexivity.
Qed.

Lemma Sorted_key_le_keys (l1 l2 : list IndexEntry.t) :
  map IndexEntry.Key l1 = map IndexEntry.Key l2 ->
  Sorted key_le l1 -> Sorted key_le l2.
Proof.
  revert l2. induction l1 as [|a l1 IH]; intros [|b l2] Hk Hs; try discriminate.
  - constructor.
  - simpl in Hk. injection Hk as Hab Hrest.
    apply Sorted_inv in Hs. destruct Hs as [Hs Hd].
    constructor; [now apply IH|].
    destruct l1 as [|a' l1], l2 as [|b' l2]; try discriminate; constructor.
    apply HdRel_inv in Hd. simpl in Hrest. injection Hrest as Hab' _.
    unfold key_le in *. now rewrite <- Hab, <- Hab'.
Qed.

Lemma Sorted_key_le_snoc (l : list IndexEntry.t) (x : IndexEntry.t) :
  Sorted key_le l -> Forall (fun e => key_le e x) l -> Sorted key_le (l ++ [x]).
Proof.
  induction l as [|a l IH]; intros Hs Hf.
  - repeat constructor.
  - apply Sorted_inv in Hs. destruct Hs as [Hs Hd].
    pose proof (Forall_inv Hf) as Ha. pose proof (Forall_inv_tail Hf) as Hl.
    simpl. constructor; [now apply IH|].
    destruct l as [|b l]; simpl; constructor; [exact Ha|].
    now apply HdRel_inv in Hd.
Qed.

Lemma block_layout_snoc :
  forall es bs off e lb,
    block_layout off es bs = true ->
    IndexEntry.Offset e = off + len (join_lines (List.concat bs)) ->
    IndexEntry.Length e = len (join_lines lb) ->
    block_layout off (es ++ [e]) (bs ++ [lb]) = true.
Proof.
  induction es as [|x es IH]; intros [|ls bs] off e lb Hlay Ho Hl;
    try discriminate.
  - simpl in *. change (len []) with 0 in Ho.
    rewrite !andb_true_iff, !Z.eqb_eq. repeat split; lia.
  - simpl in Hlay. apply andb_prop in Hlay. destruct Hlay as [Hlay Hrest].
    simpl. rewrite Hlay. simpl. apply IH; auto.
    simpl in Ho. rewrite join_lines_app in Ho. unfold len in *.
    rewrite length_app in Ho. lia.
Qed.

Lemma block_layout_snoc_inv :
  forall es blocks off e,
    block_layout off (es ++ [e]) blocks = true ->
    exists bs lb,
      blocks = bs ++ [lb] /\ block_layout off es bs = true /\
      IndexEntry.Offset e = off + len (join_lines (List.concat bs)) /\
      IndexEntry.Length e = len (join_lines lb).
Proof.
  induction es as [|x es IH]; intros [|ls blocks] off e Hlay; try discriminate.
  - simpl in Hlay. destruct blocks; [|rewrite andb_false_r in Hlay; discriminate].
    rewrite !andb_true_iff, !Z.eqb_eq in Hlay. destruct Hlay as [[Ho Hl] _].
    exists [], ls. repeat split; auto. change (len (join_lines (List.concat []))) with 0. lia.
  - simpl in Hlay. apply andb_prop in Hlay. destruct Hlay as [Hlay Hrest].
    destruct (IH blocks _ e Hrest) as (bs & lb & -> & Hbs & Ho & Hl).
    exists (ls :: bs), lb. repeat split; auto.
    + simpl. now rewrite Hlay, Hbs.
    + simpl. rewrite join_lines_app. unfold len in *. rewrite length_app. lia.
Qed.

Lemma block_layout_nil_l (off : Z) (blocks : list (list (list byte))) :
  block_layout off [] blocks = true -> blocks = [].
Proof. destruct blocks; [reflexivity|discriminate]. Qed.

Lemma len_join_lines_snoc (ls : list (list byte)) (line : list byte) :
  len (join_lines (ls ++ [line])) = len (join_lines ls) + (len line + 1).
Proof.
  rewrite join_lines_app. unfold len, join_lines at 2. simpl.
  rewrite !length_app. simpl. lia.
Qed.

Lemma laid_out_extend (entries : list IndexEntry.t) (done : list (list byte))
    (line : list byte) :
  laid_out entries (len (join_lines done)) done ->
  laid_out entries (len (join_lines (done ++ [line]))) (done ++ [line]).
Proof.
  intros (skipped & blocks & Hdone & Hne & Hlay). unfold laid_out.
  destruct entries as [|x list'] eqn:El.
  - simpl in Hlay. destruct blocks; [|discriminate].
    exists (done ++ [line]), []. simpl. rewrite app_nil_r. repeat split; auto.
  - destruct (@exists_last _ (x :: list')) as (init & last & E); [discriminate|].
    rewrite E in *. rewrite close_last_snoc in *.
    apply block_layout_snoc_inv in Hlay.
    destruct Hlay as (bs & lb & -> & Hbs & Ho & Hl). simpl in Ho, Hl.
    exists skipped, (bs ++ [lb ++ [line]]). repeat split.
    + rewrite Hdone, !concat_app. simpl. now rewrite !app_nil_r, <- !app_assoc.
    + apply Forall_app in Hne. destruct Hne as [Hb _].
      apply Forall_app. split; [exact Hb|]. constructor; [|constructor].
      destruct lb; discriminate.
    + apply block_layout_snoc; auto. simpl.
      rewrite !len_join_lines_snoc in *. lia.
Qed.

Lemma laid_out_new (entries : list IndexEntry.t) (done : list (list byte))
    (line : list byte) (key : string) :
  laid_out entries (len (join_lines done)) done ->
  laid_out (close_last entries (len (join_lines done))
              ++ [IndexEntry.mk key (len (join_lines done)) 0])
    (len (join_lines (done ++ [line]))) (done ++ [line]).
Proof.
  intros (skipped & blocks & Hdone & Hne & Hlay).
  exists skipped, (blocks ++ [[line]]). repeat split.
  - rewrite Hdone, concat_app. simpl. now rewrite <- app_assoc.
  - apply Forall_app. split; [exact Hne|]. repeat constructor. discriminate.
  - rewrite close_last_snoc. apply block_layout_snoc; auto; simpl.
    + rewrite Hdone, join_lines_app. unfold len. rewrite length_app. lia.
    + rewrite len_join_lines_snoc. unfold join_lines, len. simpl.
      rewrite app_nil_r, length_app. simpl. lia.
Qed.

Lemma laid_out_reset (pos : Z) (done : list (list byte)) : laid_out [] pos done.
Proof. exists done, []. simpl. rewrite app_nil_r. repeat split; auto. Qed.

Lemma keys_le_trans (keys : list string) (a b : string) :
  Forall (fun k => strings.Compare k a <= 0) keys ->
  strings.Compare a b <= 0 ->
  Forall (fun k => strings.Compare k b <= 0) keys.
Proof.
  intros Hf Hab. eapply Forall_impl; [|exact Hf].
  intros k Hk. now apply (strings_Compare_le_trans k a b).
Qed.

Lemma Sorted_new_entry (entries : list IndexEntry.t) (pos : Z) (key : string) (x : IndexEntry.t) :
  IndexEntry.Key x = key ->
  Sorted key_le entries ->
  Forall (fun k => strings.Compare k key <= 0) (map IndexEntry.Key entries) ->
  Sorted key_le (close_last entries pos ++ [x]) /\
  Forall (fun k => strings.Compare k key <= 0)
    (map IndexEntry.Key (close_last entries pos ++ [x])).
Proof.
  intros Hx Hs Hf. split.
  - apply Sorted_key_le_snoc.
    + apply (Sorted_key_le_keys entries); [|exact Hs].
      symmetry. apply close_last_keys.
    + assert (H : Forall (fun k => strings.Compare k key <= 0)
                    (map IndexEntry.Key (close_last entries pos)))
        by (rewrite close_last_keys; exact Hf).
      rewrite Forall_map in H. eapply Forall_impl; [|exact H].
      intros e He. unfold key_le. now rewrite Hx.
  - rewrite map_app, close_last_keys. apply Forall_app. split; [exact Hf|].
    simpl. constructor; [|constructor]. rewrite Hx, strings_Compare_refl. lia.
Qed.

Lemma generateLineIndex_loop_inv :
  forall lines index entries pos bn prevKey skipH done index' entries' pos',
    generateLineIndex_loop lines index entries pos bn prevKey skipH
      = Done (index', (entries', pos'), None) ->
    pos = len (join_lines done) ->
    laid_out entries pos done ->
    Sorted key_le entries ->
    Forall (fun k => strings.Compare k (string_of_list_byte prevKey) <= 0)
      (map IndexEntry.Key entries) ->
    pos' = len (join_lines (done ++ lines)) /\
    laid_out entries' pos' (done ++ lines) /\
    Sorted key_le entries'.
Proof.
  induction lines as [|line lines IH];
    intros index entries pos bn prevKey skipH done index' entries' pos'
           Hrun Hpos Hlay Hs Hf.
  - simpl in Hrun. inversion Hrun; subst. rewrite app_nil_r. auto.
  - assert (Happ : done ++ line :: lines = (done ++ [line]) ++ lines)
      by (now rewrite <- app_assoc).
    assert (Hpos1 : pos + (len line + 1) = len (join_lines (done ++ [line])))
      by (rewrite len_join_lines_snoc; lia).
    rewrite Happ. subst pos.
    cbn [generateLineIndex_loop] in Hrun.
    destruct skipH.
    { eapply IH; eauto. rewrite Hpos1. now apply laid_out_extend. }
    destruct (SplitN_2_first line (Index.Delimiter index)) as [key| |] eqn:Hk;
      cbn [bind] in Hrun; try discriminate.
    destruct ((bytes.Compare prevKey key =? 1)
              && negb ((bn =? 0) && negb (Index.Header index))) eqn:Herr;
      [discriminate|].
    assert (Hkey : forall l, Sorted key_le l ->
               Forall (fun k => strings.Compare k (string_of_list_byte key) <= 0)
                 (map IndexEntry.Key l) ->
               laid_out l (len (join_lines done)) done ->
               forall idx b,
                 (if Index.Blocksize idx =? 0 then Panic
                  else
                    let currentBlockNumber :=
                      Z.quot (len (join_lines done)) (Index.Blocksize idx) in
                    let '(list, blockNumber) :=
                      if currentBlockNumber >? b
                      then (close_last l (len (join_lines done)) ++
                              [IndexEntry.mk (string_of_list_byte key)
                                 (len (join_lines done)) 0], currentBlockNumber)
                      else (l, b) in
                    generateLineIndex_loop lines idx list
                      (len (join_lines done) + (len line + 1)) blockNumber key false)
                 = Done (index', (entries', pos'), None) ->
               pos' = len (join_lines ((done ++ [line]) ++ lines)) /\
               laid_out entries' pos' ((done ++ [line]) ++ lines) /\
               Sorted key_le entries').
    { intros l Hsl Hfl Hll idx b Hr.
      destruct (Index.Blocksize idx =? 0); [discriminate|].
      cbv zeta in Hr.
      destruct (Z.quot (len (join_lines done)) (Index.Blocksize idx) >? b).
      - destruct (Sorted_new_entry l (len (join_lines done)) (string_of_list_byte key)
                    (IndexEntry.mk (string_of_list_byte key) (len (join_lines done)) 0)
                    eq_refl Hsl Hfl) as [Hs' Hf'].
        eapply IH; eauto. rewrite Hpos1. now apply laid_out_new.
      - eapply IH; eauto. rewrite Hpos1. now apply laid_out_extend. }
    destruct (bytes.Compare prevKey key =? 1) eqn:E1.
    + apply (Hkey [] ltac:(constructor) ltac:(constructor)
               (laid_out_reset _ _) _ _ Hrun).
    + assert (Hle : strings.Compare (string_of_list_byte prevKey)
                      (string_of_list_byte key) <= 0).
      { rewrite strings_Compare_bytes.
        destruct (bytes_Compare_range prevKey key) as [E|[E|E]]; rewrite E in *;
          lia. }
      pose proof (keys_le_trans _ _ _ Hf Hle) as Hf'.
      destruct (bytes.Compare prevKey key =? 0).
      * apply (Hkey entries Hs Hf' Hlay _ _ Hrun).
      * apply (Hkey entries Hs Hf' Hlay _ _ Hrun).
Qed.

(** X17. What a successful [generateLineIndex] leaves in the index.  The entry
    list is not empty, [Length] is its length, its keys are in ascending
    order, and the entries tile the input: after some skipped lines (a
    header, or what came before an out-of-order record in the first
    block), the lines fall into consecutive non-empty blocks of whole
    lines, and entry [i] has the byte offset and the byte length of block
    [i].  In particular each entry ends where the next begins, and the
    last one ends at the end of the input. *)
Theorem generateLineIndex_layout (index index' : Index.t) (lines : list (list byte)) :
  generateLineIndex index lines None = Done (index', None) ->
  Index.List index' <> [] /\
  Index.Length index' = len (Index.List index') /\
  Sorted key_le (Index.List index') /\
  exists skipped blocks,
    lines = skipped ++ List.concat blocks /\
    Forall (fun ls => ls <> []) blocks /\
    block_layout (len (join_lines skipped)) (Index.List index') blocks = true.
Proof.
  unfold generateLineIndex. intros H.
  destruct (Index.Blocksize index <? 0); [discriminate|].
  destruct (generateLineIndex_loop lines (set_KeysUnique index true) [] 0 (-1) []
              (Index.Header (set_KeysUnique index true)))
    as [[[idx [entries pos]] err]| |] eqn:Hloop; cbn [bind] in H; try discriminate.
  destruct err as [err|]; [inversion H|].
  destruct (len entries =? 0) eqn:Hlen; [inversion H|].
  destruct (generateLineIndex_loop_inv lines _ [] 0 (-1) [] _ [] idx entries pos Hloop)
    as (Hpos & Hlay & Hs).
  - reflexivity.
  - apply laid_out_reset.
  - constructor.
  - constructor.
  - assert (Hlist : Index.List index' = close_last entries pos).
    { inversion H. destruct (Index.KeysUnique idx); reflexivity. }
    assert (Hn : Index.Length index' = len (Index.List index')).
    { inversion H. destruct (Index.KeysUnique idx); reflexivity. }
    rewrite Hlist in *. simpl in Hlay.
    split; [|split; [exact Hn|split]].
    + destruct entries as [|x entries]; [discriminate|].
      destruct (@exists_last _ (x :: entries)) as (init & last & E); [discriminate|].
      rewrite E, close_last_snoc. destruct init; discriminate.
    + apply (Sorted_key_le_keys entries); [|exact Hs].
      symmetry. apply close_last_keys.
    + exact Hlay.
Qed.

Lemma generateLineIndex_layout_witness :
  Index.List line_index_spill <> [] /\
  Index.Length line_index_spill = len (Index.List line_index_spill) /\
  Sorted key_le (Index.List line_index_spill) /\
  exists skipped blocks,
    lines_spill = skipped ++ List.concat blocks /\
    Forall (fun ls => ls <> []) blocks /\
    block_layout (len (join_lines skipped)) (Index.List line_index_spill) blocks
    = true.
Proof.
  apply (generateLineIndex_layout (empty_index 8) line_index_spill lines_spill).
  vm_compute. reflexivity.
Defined.

(** ** The index that [generateBlockIndex] builds *)

Lemma reset_lengths_keys (l : list IndexEntry.t) :
  map IndexEntry.Key (reset_lengths l) = map IndexEntry.Key l.
Proof.
  induction l as [|e [|e' rest] IH]; try reflexivity.
  change (reset_lengths (e :: e' :: rest))
    with (IndexEntry.mk (IndexEntry.Key e) (IndexEntry.Offset e)
            (IndexEntry.Offset e' - IndexEntry.Offset e) :: reset_lengths (e' :: rest)).
  cbn [map]. rewrite IH. reflexivity.
Qed.

Lemma reset_lengths_offsets (l : list IndexEntry.t) :
  map IndexEntry.Offset (reset_lengths l) = map IndexEntry.Offset l.
Proof.
  induction l as [|e [|e' rest] IH]; try reflexivity.
  change (reset_lengths (e :: e' :: rest))
    with (IndexEntry.mk (IndexEntry.Key e) (IndexEntry.Offset e)
            (IndexEntry.Offset e' - IndexEntry.Offset e) :: reset_lengths (e' :: rest)).
  cbn [map]. rewrite IH. reflexivity.
Qed.

Lemma reset_lengths_contiguous (l : list IndexEntry.t) :
  forall i e e',
    nth_error (reset_lengths l) i = Some e ->
    nth_error (reset_lengths l) (S i) = Some e' ->
    IndexEntry.Offset e + IndexEntry.Length e = IndexEntry.Offset e'.
Proof.
  induction l as [|x [|x' rest] IH]; intros i e e' He He'.
  - destruct i; discriminate.
  - destruct i as [|[|i]]; discriminate.
  - change (reset_lengths (x :: x' :: rest))
      with (IndexEntry.mk (IndexEntry.Key x) (IndexEntry.Offset x)
              (IndexEntry.Offset x' - IndexEntry.Offset x) :: reset_lengths (x' :: rest))
      in He, He'.
    destruct i as [|i].
    + cbn [nth_error] in He, He'. inversion He; subst e.
      cbn [IndexEntry.Offset IndexEntry.Length].
      pose proof (reset_lengths_offsets (x' :: rest)) as Ho.
      destruct (reset_lengths (x' :: rest)) as [|y ys]; [discriminate|].
      inversion He'; subst y. cbn [map] in Ho. inversion Ho. lia.
    + cbn [nth_error] in He, He'. now apply (IH i).
Qed.

Lemma generateBlockIndex_loop_sorted (fuel : nat) (reader : list byte) :
  forall index buf entries pos firstBlock prev index' entries',
    generateBlockIndex_loop fuel reader index buf entries pos firstBlock prev
      = Done (index', entries', None) ->
    Sorted key_le entries ->
    Forall (fun e => key_le e prev) entries ->
    Sorted key_le entries'.
Proof.
  induction fuel as [|fuel IH];
    intros index buf entries pos firstBlock prev index' entries' Hrun Hs Hf;
    [discriminate|].
  cbn [generateBlockIndex_loop] in Hrun.
  destruct (ReadAt reader buf pos) as [[buf1 bytesread] err].
  assert (Hbody :
    (if bytesread >? 0
     then
       '(entry, blockPosition, err0) <-
         processBlock fuel reader buf1 bytesread pos (Index.Delimiter index)
           (match err with Some _ => true | None => false end) ;;
       match err0 with
       | Some err1 => Done (index, entries, Some err1)
       | None =>
           if strings.gt (IndexEntry.Key prev) (IndexEntry.Key entry)
           then Done (index, entries, Some (ErrOther "Error: key sort violation"))
           else
             generateBlockIndex_loop fuel reader
               (if firstBlock && (IndexEntry.Offset entry >? 0)
                then set_Header index true else index) buf1
               (if String.eqb (IndexEntry.Key prev) (IndexEntry.Key entry)
                   && (IndexEntry.Offset prev =? IndexEntry.Offset entry)
                then entries else entries ++ [entry])
               (blockPosition + bytesread) false entry
       end
     else if match err with Some _ => true | None => false end
          then Done (index, entries, None)
          else generateBlockIndex_loop fuel reader index buf1 entries pos false prev)
    = Done (index', entries', None) -> Sorted key_le entries').
  { clear Hrun. destruct (bytesread >? 0).
    - destruct (processBlock fuel reader buf1 bytesread pos (Index.Delimiter index)
                  (match err with Some _ => true | None => false end))
        as [[[entry bp] [e|]]| |]; cbn [bind]; try discriminate.
      destruct (strings.gt (IndexEntry.Key prev) (IndexEntry.Key entry)) eqn:Hgt;
        [discriminate|].
      assert (Hle : key_le prev entry).
      { unfold key_le. unfold strings.gt in Hgt.
        destruct (strings_Compare_range (IndexEntry.Key prev) (IndexEntry.Key entry))
          as [E|[E|E]]; rewrite E in *; lia. }
      assert (Hf' : Forall (fun e => key_le e entry) entries).
      { eapply Forall_impl; [|exact Hf]. intros a Ha. unfold key_le in *.
        now apply (strings_Compare_le_trans _ (IndexEntry.Key prev)). }
      destruct (String.eqb (IndexEntry.Key prev) (IndexEntry.Key entry)
                && (IndexEntry.Offset prev =? IndexEntry.Offset entry));
        intros H; eapply IH; try exact H; auto.
      + now apply Sorted_key_le_snoc.
      + apply Forall_app. split; [exact Hf'|].
        constructor; [|constructor]. unfold key_le.
        rewrite strings_Compare_refl. lia.
    - destruct (match err with Some _ => true | None => false end).
      + intros H. inversion H. now subst.
      + intros H. eapply IH; eauto. }
  destruct err as [[]|]; try discriminate; now apply Hbody.
Qed.

(** X18. What a successful [generateBlockIndex] leaves in the index.  The
    entry list is not empty, [Length] is its length, [KeysUnique] is
    false, the keys are in ascending order (the order [blockEntryLE]
    relies on), and every entry but the last ends where the next one
    begins. *)
Theorem generateBlockIndex_sorted (fuel : nat) (index index' : Index.t)
    (reader : list byte) :
  generateBlockIndex fuel index reader = Done (index', None) ->
  Index.List index' <> [] /\
  Index.Length index' = len (Index.List index') /\
  Index.KeysUnique index' = false /\
  Sorted key_le (Index.List index') /\
  (forall i e e',
     nth_error (Index.List index') i = Some e ->
     nth_error (Index.List index') (S i) = Some e' ->
     IndexEntry.Offset e + IndexEntry.Length e = IndexEntry.Offset e').
Proof.
  unfold generateBlockIndex. intros H.
  destruct (slice.make (Index.Blocksize index)) as [buf| |]; cbn [bind] in H;
    try discriminate.
  destruct (generateBlockIndex_loop fuel reader index buf [] 0 true IndexEntry.zero)
    as [[[idx entries] err]| |] eqn:Hloop; cbn [bind] in H; try discriminate.
  destruct err as [err|]; [inversion H|].
  destruct (len entries =? 0) eqn:Hlen; [inversion H|].
  inversion H. subst index'. simpl.
  pose proof (generateBlockIndex_loop_sorted fuel reader _ _ _ _ _ _ _ _ Hloop
                ltac:(constructor) ltac:(constructor)) as Hs.
  repeat split.
  - destruct entries as [|x [|y rest]]; discriminate.
  - apply (Sorted_key_le_keys entries); [|exact Hs].
    symmetry. apply reset_lengths_keys.
  - apply reset_lengths_contiguous.
Qed.

Lemma generateBlockIndex_sorted_witness :
  Index.List (index_of_entries entries_abcd) <> [] /\
  Index.Length (index_of_entries entries_abcd)
  = len (Index.List (index_of_entries entries_abcd)) /\
  Index.KeysUnique (index_of_entries entries_abcd) = false /\
  Sorted key_le (Index.List (index_of_entries entries_abcd)) /\
  (forall i e e',
     nth_error (Index.List (index_of_entries entries_abcd)) i = Some e ->
     nth_error (Index.List (index_of_entries entries_abcd)) (S i) = Some e' ->
     IndexEntry.Offset e + IndexEntry.Length e = IndexEntry.Offset e').
Proof.
  apply (generateBlockIndex_sorted 5 (empty_index defaultBlocksize)
           (index_of_entries entries_abcd) file_abcd).
  vm_compute. reflexivity.
Defined.

(** ** [processBlock] on a chunk that ends with its only newline *)

Lemma bytes_Index_nil (delim : list byte) : delim <> [] -> bytes.Index [] delim = -1.
Proof. destruct delim; [congruence|reflexivity]. Qed.

Lemma processBlock_at_newline (reader : list byte) (delim : list byte) :
  delim <> [] ->
  forall fuel junk n p eof,
    (1 <= n)%nat ->
    0 < p ->
    skipn (Z.to_nat p) reader = [nl] ->
    processBlock fuel reader (slice.mk (nl :: junk) n) 1 p delim eof = OutOfFuel.
Proof.
  intros Hd. induction fuel as [|fuel IH]; intros junk n p eof Hn Hp Hskip;
    [reflexivity|].
  assert (H1 : slice.upto (slice.mk (nl :: junk) n) 1 = Done (slice.mk (nl :: junk) 1)).
  { unfold slice.upto, slice.sub, slice.cap. cbn [slice.array].
    assert (C : (0 <=? 0) && (0 <=? 1) && (1 <=? Z.of_nat (List.length (nl :: junk))) = true).
    { rewrite !andb_true_iff. repeat split; apply Z.leb_le; simpl List.length; lia. }
    rewrite C. reflexivity. }
  assert (H2 : slice.sub (slice.mk (nl :: junk) n) (0 + 1) 1 = Done (slice.mk junk 0)).
  { unfold slice.sub, slice.cap. cbn [slice.array].
    assert (C : (0 <=? 0 + 1) && (0 + 1 <=? 1)
                && (1 <=? Z.of_nat (List.length (nl :: junk))) = true).
    { rewrite !andb_true_iff. repeat split; apply Z.leb_le; simpl List.length; lia. }
    rewrite C. reflexivity. }
  cbn [processBlock].
  rewrite (proj2 (Z.gtb_lt p 0)) by lia.
  rewrite H1. cbn [bind].
  change (slice.data (slice.mk (nl :: junk) 1)) with [nl].
  change (bytes.IndexByte [nl] nl) with 0.
  cbn [Z.eqb andb]. rewrite H2. cbn [bind].
  change (slice.data (slice.mk junk 0)) with (@nil byte).
  rewrite (bytes_Index_nil delim Hd). cbn [Z.eqb Pos.eqb].
  rewrite Z.add_0_r. unfold ReadAt.
  rewrite (proj2 (Z.ltb_ge p 0)) by lia.
  rewrite Hskip. cbn [slice.length].
  destruct n as [|n]; [lia|]. cbn [firstn]. rewrite firstn_nil.
  unfold slice.write. cbn [slice.array slice.length List.length skipn app].
  change (len [nl]) with 1.
  destruct (1 <? slice.len {| slice.array := nl :: junk; slice.length := S n |});
    apply IH; auto; lia.
Qed.

(** X19. [processBlock] does not return on a last chunk that has nothing after
    its first newline.  Let the chunk [buf[:bytesread]] be [tail ++ "\n"],
    the last bytes of the file, read at a block position greater than 0,
    with a non-empty delimiter.  The delimiter is looked for after the
    newline only; there is none, so the block is read again from the
    newline, and from then on each call reads the same single byte at the
    same position and calls itself: no depth of recursion gives a result
    (in Go, the stack overflows). *)
Theorem processBlock_last_newline_never_returns
    (reader before tail junk delim : list byte) (n : nat) (eof : bool) :
  reader = before ++ tail ++ [nl] ->
  before <> [] ->
  ~ In nl tail ->
  delim <> [] ->
  (List.length tail + 1 <= n)%nat ->
  forall fuel,
    processBlock fuel reader (slice.mk (tail ++ nl :: junk) n)
      (len tail + 1) (len before) delim eof
    = OutOfFuel.
Proof.
  intros Hr Hb Hnl Hd Hn fuel.
  assert (Hpos : 0 < len before)
    by (unfold len; destruct before; [congruence|simpl; lia]).
  destruct fuel as [|fuel]; [reflexivity|].
  set (buf := slice.mk (tail ++ nl :: junk) n).
  assert (Hcap : slice.cap buf = len tail + 1 + len junk).
  { unfold slice.cap, buf, len. simpl. rewrite length_app. simpl. lia. }
  assert (H1 : slice.upto buf (len tail + 1)
               = Done (slice.mk (tail ++ nl :: junk) (List.length tail + 1))).
  { unfold slice.upto, slice.sub. rewrite Hcap.
    assert (C : (0 <=? 0) && (0 <=? len tail + 1)
                && (len tail + 1 <=? len tail + 1 + len junk) = true).
    { rewrite !andb_true_iff. repeat split; apply Z.leb_le; unfold len; lia. }
    rewrite C. unfold buf. simpl. do 2 f_equal. unfold len. lia. }
  assert (D1 : slice.data (slice.mk (tail ++ nl :: junk) (List.length tail + 1))
               = tail ++ [nl]).
  { unfold slice.data. simpl.
    replace (tail ++ nl :: junk) with ((tail ++ [nl]) ++ junk)
      by (now rewrite <- app_assoc).
    replace (List.length tail + 1)%nat with (List.length (tail ++ [nl]))
      by (rewrite length_app; reflexivity).
    apply firstn_length_app. }
  assert (I1 : bytes.IndexByte (tail ++ [nl]) nl = len tail)
    by (now apply IndexByte_line).
  assert (H2 : slice.sub buf (len tail + 1) (len tail + 1)
               = Done (slice.mk junk 0)).
  { unfold slice.sub. rewrite Hcap.
    assert (C : (0 <=? len tail + 1) && (len tail + 1 <=? len tail + 1)
                && (len tail + 1 <=? len tail + 1 + len junk) = true).
    { rewrite !andb_true_iff. repeat split; apply Z.leb_le; unfold len; lia. }
    rewrite C. unfold buf. simpl. rewrite Z.sub_diag. f_equal. f_equal.
    replace (tail ++ nl :: junk) with ((tail ++ [nl]) ++ junk)
      by (now rewrite <- app_assoc).
    replace (Z.to_nat (len tail + 1)) with (List.length (tail ++ [nl]))
      by (rewrite length_app; unfold len; simpl; lia).
    apply skipn_length_app. }
  assert (E1 : (len tail =? -1) = false) by (apply Z.eqb_neq; unfold len; lia).
  cbn [processBlock].
  rewrite (proj2 (Z.gtb_lt (len before) 0)) by lia.
  rewrite H1. cbn [bind]. rewrite D1, I1, E1. cbn [andb].
  rewrite H2. cbn [bind].
  change (slice.data (slice.mk junk 0)) with (@nil byte).
  rewrite (bytes_Index_nil delim Hd). cbn [Z.eqb Pos.eqb].
  unfold ReadAt.
  rewrite (proj2 (Z.ltb_ge (len before + len tail) 0)) by (unfold len; lia).
  assert (Hskip : skipn (Z.to_nat (len before + len tail)) reader = [nl]).
  { rewrite Hr, app_assoc.
    replace (Z.to_nat (len before + len tail)) with (List.length (before ++ tail))
      by (rewrite length_app; unfold len; lia).
    apply skipn_length_app. }
  rewrite Hskip. unfold buf. cbn [slice.length].
  destruct n as [|n]; [lia|]. cbn [firstn]. rewrite firstn_nil.
  unfold slice.write. cbn [slice.array slice.length List.length app].
  change (len [nl]) with 1.
  destruct (1 <? slice.len {| slice.array := tail ++ nl :: junk; slice.length := S n |});
    apply processBlock_at_newline; auto; unfold len in *; lia.
Qed.

Lemma processBlock_last_newline_never_returns_witness :
  processBlock 1000 file_spill
    (slice.mk (bytes_of "c,1" ++ nl :: bytes_of "b,3" ++ [nl]) 8)
    (len (bytes_of "c,1") + 1) (len (unlines ["a,1"; "b,1"; "b,2"; "b,3"]%string))
    (bytes_of ",") true
  = OutOfFuel.
Proof.
  apply (processBlock_last_newline_never_returns file_spill
           (unlines ["a,1"; "b,1"; "b,2"; "b,3"]%string) (bytes_of "c,1")
           (bytes_of "b,3" ++ [nl]) (bytes_of ",") 8 true).
  - reflexivity.
  - vm_compute. discriminate.
  - vm_compute. intuition discriminate.
  - vm_compute. discriminate.
  - vm_compute. lia.
Defined.

Lemma HasPrefix_app (d r : list byte) : bytes.HasPrefix (d ++ r) d = true.
Proof.
  induction d as [|c d IH]; [now destruct r|].
  simpl. now rewrite (Byte.byte_dec_lb eq_refl), IH.
Qed.

Lemma bytes_Index_found (delim rest : list byte) :
  forall key,
    0 <= bytes.Index (key ++ delim ++ rest) delim <= len key.
Proof.
  induction key as [|c key IH].
  - simpl app. destruct (delim ++ rest) eqn:E.
    + destruct delim; [|discriminate]. simpl. unfold len. simpl. lia.
    + rewrite <- E. unfold bytes.Index.
      destruct (delim ++ rest) eqn:E'; [discriminate|].
      rewrite <- E'. rewrite HasPrefix_app. unfold len. simpl. lia.
  - simpl app. cbn [bytes.Index].
    destruct (bytes.HasPrefix (c :: key ++ delim ++ rest) delim).
    + unfold len. simpl. lia.
    + destruct (Z.eqb_spec (bytes.Index (key ++ delim ++ rest) delim) (-1)); [lia|].
      unfold len in *. simpl List.length. lia.
Qed.

Lemma IndexByte_absent (c : byte) (l : list byte) :
  ~ In c l -> bytes.IndexByte l c = -1.
Proof.
  induction l as [|a l IH]; intros H; [reflexivity|].
  simpl. destruct (Byte.eqb a c) eqn:E.
  - apply Byte.byte_dec_bl in E. subst. exfalso. apply H. now left.
  - rewrite IH by (intros H'; apply H; now right). reflexivity.
Qed.

Lemma slice_sub_data (array : list byte) (n : nat) (x y z : list byte) :
  array = x ++ y ++ z ->
  exists r,
    slice.sub (slice.mk array n) (len x) (len x + len y) = Done r /\
    slice.array r = y ++ z /\ slice.length r = List.length y /\ slice.data r = y.
Proof.
  intros ->. unfold slice.sub, slice.cap. cbn [slice.array].
  assert (C : (0 <=? len x) && (len x <=? len x + len y)
              && (len x + len y <=? Z.of_nat (List.length (x ++ y ++ z))) = true).
  { rewrite !andb_true_iff. repeat split; apply Z.leb_le; unfold len; try lia.
    rewrite !length_app. lia. }
  rewrite C. eexists. split; [reflexivity|].
  unfold slice.data. cbn [slice.array slice.length].
  replace (Z.to_nat (len x)) with (List.length x) by (unfold len; lia).
  replace (Z.to_nat (len x + len y - len x)) with (List.length y) by (unfold len; lia).
  rewrite skipn_length_app. repeat split. apply firstn_length_app.
Qed.

(** X20. [generateBlockIndex] does not return on a dataset of one line.  For
    a file that is one line with a key, the (non-empty) delimiter and a
    value, ended by a newline, and not longer than the blocksize: the
    first block is the whole file, the check for a header calls
    [processBlock] on the chunk that starts at the newline, and that call
    never returns (see [processBlock_last_newline_never_returns]).  So
    [NewIndex] cannot index such a file. *)
Theorem generateBlockIndex_one_line_never_returns (index : Index.t)
    (key rest : list byte) :
  Index.Delimiter index <> [] ->
  ~ In nl (key ++ Index.Delimiter index ++ rest) ->
  len (key ++ Index.Delimiter index ++ rest) + 1 <= Index.Blocksize index ->
  forall fuel,
    generateBlockIndex fuel index ((key ++ Index.Delimiter index ++ rest) ++ [nl])
    = OutOfFuel.
Proof.
  set (delim := Index.Delimiter index). set (line := key ++ delim ++ rest).
  intros Hd Hnl Hsize fuel.
  assert (Hline : 0 < len line).
  { unfold line, len. rewrite !length_app. destruct delim; [congruence|simpl; lia]. }
  unfold generateBlockIndex, slice.make.
  rewrite (proj2 (Z.ltb_ge (Index.Blocksize index) 0)) by lia. cbn [bind].
  destruct fuel as [|fuel]; [reflexivity|].
  cbn [generateBlockIndex_loop]. unfold ReadAt. cbn [Z.ltb Z.compare slice.length].
  cbn [Z.to_nat skipn].
  set (B := Z.to_nat (Index.Blocksize index)).
  assert (HB : (List.length (line ++ [nl]) <= B)%nat)
    by (unfold B, len in *; rewrite length_app; simpl; lia).
  rewrite (firstn_all2 (n:=B) (line ++ [nl])) by exact HB.
  assert (Hgt : (len (line ++ [nl]) >? 0) = true)
    by (apply Z.gtb_lt; unfold len in *; rewrite length_app; simpl; lia).
  set (buf1 := slice.write (slice.mk (repeat x00 B) B) (line ++ [nl])).
  assert (Hbuf1 : buf1 = slice.mk ((line ++ [nl])
                                     ++ skipn (List.length (line ++ [nl])) (repeat x00 B)) B)
    by reflexivity.
  assert (Hstuck : forall eof,
            processBlock fuel (line ++ [nl]) buf1 (len (line ++ [nl])) 0 delim eof
            = OutOfFuel).
  { intros eof. destruct fuel as [|fuel]; [reflexivity|].
    set (zeros := skipn (List.length (line ++ [nl])) (repeat x00 B)) in *.
    assert (Hlen : len (line ++ [nl]) = len line + 1)
      by (unfold len; rewrite length_app; simpl; lia).
    (* the slices the pass takes *)
    destruct (slice_sub_data (slice.array buf1) B [] (line ++ [nl]) zeros)
      as (r0 & Hr0 & _ & _ & Hd0); [rewrite Hbuf1; reflexivity|].
    change (len []) with 0 in Hr0. rewrite Z.add_0_l in Hr0.
    pose proof (bytes_Index_found delim rest key) as Hi. fold line in Hi.
    set (i := bytes.Index (line ++ [nl]) delim).
    assert (Hi' : 0 <= i <= len key).
    { unfold i, line. rewrite <- !app_assoc.
      apply (bytes_Index_found delim (rest ++ [nl]) key). }
    assert (Hik : (Z.to_nat i <= List.length line)%nat).
    { unfold line, len in *. rewrite length_app. lia. }
    destruct (slice_sub_data (slice.array buf1) B [] (firstn (Z.to_nat i) line)
                (skipn (Z.to_nat i) line ++ [nl] ++ zeros))
      as (r1 & Hr1 & _ & _ & Hd1).
    { rewrite Hbuf1. cbn [slice.array app]. fold zeros.
      rewrite <- (firstn_skipn (Z.to_nat i) line) at 1.
      now rewrite <- !app_assoc. }
    change (len []) with 0 in Hr1. rewrite Z.add_0_l in Hr1.
    replace (len (firstn (Z.to_nat i) line)) with i in Hr1
      by (unfold len; rewrite length_firstn; lia).
    assert (Hn1 : bytes.IndexByte (firstn (Z.to_nat i) line) nl = -1).
    { apply IndexByte_absent. intros H. apply Hnl.
      rewrite <- (firstn_skipn (Z.to_nat i) line). apply in_or_app. now left. }
    destruct (slice_sub_data (slice.array buf1) B line [nl] zeros)
      as (r2 & Hr2 & Ha2 & Hl2 & _).
    { rewrite Hbuf1. cbn [slice.array]. fold zeros. now rewrite <- app_assoc. }
    change (len [nl]) with 1 in Hr2. rewrite <- Hlen in Hr2.
    assert (Hup : slice.upto buf1 (len (line ++ [nl])) = Done r0)
      by (unfold slice.upto; rewrite Hbuf1 in *; exact Hr0).
    assert (E2 : r2 = slice.mk (nl :: zeros) 1)
      by (destruct r2; simpl in *; subst; reflexivity).
    assert (Hbuf1' : slice.mk (slice.array buf1) B = buf1) by (now rewrite Hbuf1).
    rewrite Hbuf1' in *.
    cbn [processBlock]. cbn [Z.gtb Z.compare bind andb].
    change (-1 + 1) with 0. rewrite Hr0. cbn [bind]. rewrite Hd0. fold i.
    assert (Ei : (i =? -1) = false) by (apply Z.eqb_neq; lia).
    rewrite Ei, Z.add_0_r, Hr1. cbn [bind]. rewrite Hd1, Hn1.
    cbn [Z.eqb negb Pos.eqb]. rewrite Hup. cbn [bind]. rewrite Hd0.
    rewrite (IndexByte_line line [] Hnl).
    rewrite (proj2 (Z.eqb_neq (len line) (-1))) by lia.
    rewrite Hr2. cbn [bind]. rewrite E2.
    replace (len (line ++ [nl]) - len line) with 1 by lia.
    rewrite Z.add_0_l.
    rewrite (processBlock_at_newline (line ++ [nl]) delim Hd fuel zeros 1 (len line) eof);
      [reflexivity|lia|lia|].
    replace (Z.to_nat (len line)) with (List.length line) by (unfold len; lia).
    apply skipn_length_app. }
  rewrite Hgt.
  destruct (len (line ++ [nl]) <? slice.len {| slice.array := repeat x00 B; slice.length := B |});
    rewrite Hstuck; reflexivity.
Qed.

Lemma generateBlockIndex_one_line_never_returns_witness :
  generateBlockIndex 1000 (empty_index 4096)
    ((bytes_of "a" ++ Index.Delimiter (empty_index 4096) ++ bytes_of "1") ++ [nl])
  = OutOfFuel.
Proof.
  apply (generateBlockIndex_one_line_never_returns (empty_index 4096)
           (bytes_of "a") (bytes_of "1")).
  - vm_compute. discriminate.
  - vm_compute. intuition discriminate.
  - vm_compute. discriminate.
Defined.

(** ** A first block without delimiter *)

(** X21. [ErrKeyExceedsBlocksize].  If the first [Blocksize] bytes of a
    non-empty dataset do not contain the delimiter, [generateBlockIndex]
    returns [ErrKeyExceedsBlocksize] and leaves the index as it was. *)
Theorem generateBlockIndex_key_exceeds_blocksize (fuel : nat) (index : Index.t)
    (reader : list byte) :
  0 < Index.Blocksize index ->
  reader <> [] ->
  bytes.Index (firstn (Z.to_nat (Index.Blocksize index)) reader)
    (Index.Delimiter index) = -1 ->
  (2 <= fuel)%nat ->
  generateBlockIndex fuel index reader = Done (index, Some ErrKeyExceedsBlocksize).
Proof.
  intros HB Hne Hidx Hfuel.
  destruct fuel as [|[|fuel]]; try lia.
  unfold generateBlockIndex, slice.make.
  rewrite (proj2 (Z.ltb_ge (Index.Blocksize index) 0)) by lia. cbn [bind].
  cbn [generateBlockIndex_loop]. unfold ReadAt.
  cbn [Z.ltb Z.compare slice.length Z.to_nat skipn].
  set (B := Z.to_nat (Index.Blocksize index)) in *.
  set (got := firstn B reader) in *.
  assert (Hgot : (0 < List.length got <= B)%nat).
  { unfold got. rewrite length_firstn. destruct reader; [congruence|]. simpl. lia. }
  assert (Hgt : (len got >? 0) = true) by (apply Z.gtb_lt; unfold len; lia).
  set (buf1 := slice.write (slice.mk (repeat x00 B) B) got).
  assert (Hrest : slice.sub buf1 0 (len got)
                  = Done (slice.mk (got ++ skipn (List.length got) (repeat x00 B))
                            (List.length got))).
  { unfold slice.sub, slice.cap, buf1, slice.write. cbn [slice.array slice.length].
    assert (C : (0 <=? 0) && (0 <=? len got)
                && (len got <=? Z.of_nat (List.length
                      (got ++ skipn (List.length got) (repeat x00 B)))) = true).
    { rewrite !andb_true_iff. repeat split; apply Z.leb_le; unfold len; try lia.
      rewrite length_app. lia. }
    rewrite C. cbn [Z.to_nat skipn]. do 2 f_equal. unfold len. lia. }
  assert (Hdata : slice.data (slice.mk (got ++ skipn (List.length got) (repeat x00 B))
                                (List.length got)) = got)
    by (unfold slice.data; cbn [slice.array slice.length]; apply firstn_length_app).
  assert (Hp : forall eof,
            processBlock (S fuel) reader buf1 (len got) 0 (Index.Delimiter index) eof
            = Done (IndexEntry.zero, 0, Some ErrKeyExceedsBlocksize)).
  { intros eof. cbn [processBlock]. cbn [Z.gtb Z.compare bind andb].
    change (-1 + 1) with 0. rewrite Hrest. cbn [bind]. rewrite Hdata, Hidx.
    reflexivity. }
  rewrite Hgt.
  destruct (len got <? slice.len {| slice.array := repeat x00 B; slice.length := B |});
    rewrite Hp; reflexivity.
Qed.

Lemma generateBlockIndex_key_exceeds_blocksize_witness :
  generateBlockIndex 2 (empty_index 1) file_spill
  = Done (empty_index 1, Some ErrKeyExceedsBlocksize).
Proof.
  apply (generateBlockIndex_key_exceeds_blocksize 2 (empty_index 1) file_spill).
  - reflexivity.
  - vm_compute. discriminate.
  - vm_compute. reflexivity.
  - lia.
Defined.

(** ** Results of an indexed lookup *)

(** X22. An uncompressed lookup through an index returns lines or an error,
    never both: whenever [LinesN] returns, either it has no line and the
    error is [ErrNotFound], or it has lines and no error, or it has no
    line and an error from reading a block, which is not [ErrNotFound]. *)
Theorem LinesN_lines_or_error
    (BlockEntry : Index.t -> list byte -> exec (Z * IndexEntry.t))
    (zstd_Decompress : slice.t -> list byte -> slice.t * option error)
    (NewIndex : string -> Index.t + error)
    (Index_Filename : Index.t -> string)
    (fuel : nat) (s s' : Searcher.t) (index : Index.t) (k : list byte) (n : Z)
    (ls : list (list byte)) (err : option error) :
  isCompressed Index_Filename s = false ->
  Searcher.Index s = Some index ->
  LinesN BlockEntry zstd_Decompress NewIndex Index_Filename fuel s k n
    = Done (s', (ls, err)) ->
  (ls = [] /\ err = Some ErrNotFound) \/
  (ls <> [] /\ err = None) \/
  (ls = [] /\ exists e', err = Some e' /\ e' <> ErrNotFound).
Proof.
  intros Hz Hix. unfold LinesN. rewrite Hz, Hix.
  unfold scanIndexedLines. rewrite Hix.
  destruct (BlockEntry index k) as [[e entry]| |]; cbn [bind]; try discriminate.
  apply scanIndexedLines_loop_returns.
Qed.

Lemma LinesN_lines_or_error_witness :
  (map bytes_of ["b,1"; "b,2"; "b,3"]%string = [] /\ @None error = Some ErrNotFound) \/
  (map bytes_of ["b,1"; "b,2"; "b,3"]%string <> [] /\ @None error = None) \/
  (map bytes_of ["b,1"; "b,2"; "b,3"]%string = [] /\
   exists e', @None error = Some e' /\ e' <> ErrNotFound).
Proof.
  apply (LinesN_lines_or_error locator_LT no_Decompress no_NewIndex Index.Filepath
           0%nat (searcher_on file_spill entries_spill)
           (match Lines locator_LT no_Decompress no_NewIndex Index.Filepath 0
                    (searcher_on file_spill entries_spill) (bytes_of "b") with
            | Done (s', _) => s'
            | _ => searcher_on file_spill entries_spill
            end)
           (index_of_entries entries_spill) (bytes_of "b") 0
           (map bytes_of ["b,1"; "b,2"; "b,3"]%string) None).
  - reflexivity.
  - reflexivity.
  - vm_compute. reflexivity.
Defined.

(** ** The name of the index file *)

Lemma replace_dots_idempotent (name : string) :
  replace_dots (replace_dots name) = replace_dots name.
Proof.
  induction name as [|c name IH]; [reflexivity|].
  simpl. rewrite IH. destruct (Ascii.eqb c ".") eqn:E; [reflexivity|].
  now rewrite E.
Qed.

Lemma replace_dots_length (name : string) :
  String.length (replace_dots name) = String.length name.
Proof. induction name as [|c name IH]; simpl; congruence. Qed.

Lemma append_length (a b : string) :
  String.length (String.append a b) = (String.length a + String.length b)%nat.
Proof. induction a as [|c a IH]; simpl; congruence. Qed.

(** X23. [indexFile] does not tell a dot from an underscore.  The name of the
    index file is four bytes longer than the file name, and a file name and
    the same name with its dots replaced by underscores (as [d.csv] and
    [d_csv]) have one and the same index file; [LoadIndex] tells them apart
    only by the [filepath] stored in the index. *)
Theorem indexFile_ignores_dots (name : string) :
  indexFile (replace_dots name) = indexFile name /\
  String.length (indexFile name) = (String.length name + 4)%nat.
Proof.
  unfold indexFile. split.
  - now rewrite replace_dots_idempotent.
  - rewrite append_length, replace_dots_length. reflexivity.
Qed.

(** ** Lookups and the linear scan *)

Lemma split_lines_from_line (l : list byte) :
  ~ In nl l ->
  forall cur rest,
    split_lines_from cur (l ++ nl :: rest)
    = (rev cur ++ l) :: split_lines_from [] rest.
Proof.
  induction l as [|a l IH]; intros Hnl cur rest.
  - simpl. now rewrite app_nil_r.
  - assert (Ha : Byte.eqb a nl = false).
    { destruct (Byte.eqb a nl) eqn:E; [|reflexivity].
      apply Byte.byte_dec_bl in E. subst. exfalso. apply Hnl. now left. }
    simpl. rewrite Ha, IH by (intros H; apply Hnl; now right).
    simpl. now rewrite <- app_assoc.
Qed.

Lemma split_lines_join_lines (ls : list (list byte)) :
  (forall l, In l ls -> ~ In nl l) -> split_lines (join_lines ls) = ls.
Proof.
  unfold split_lines. induction ls as [|l ls IH]; intros H; [reflexivity|].
  rewrite join_lines_cons, split_lines_from_line by (apply H; now left).
  simpl. f_equal. apply IH. intros x Hx. apply H. now right.
Qed.

Lemma first_occurrence (d : byte) (l : list byte) :
  In d l -> exists x y, l = x ++ d :: y /\ ~ In d x.
Proof.
  induction l as [|a l IH]; intros H; [destruct H|].
  destruct (Byte.eqb a d) eqn:E.
  - apply Byte.byte_dec_bl in E. subst. exists [], l. split; [reflexivity|]. intros [].
  - destruct H as [->|H]; [rewrite (Byte.byte_dec_lb eq_refl) in E; discriminate|].
    destruct (IH H) as (x & y & -> & Hx). exists (a :: x), y. split; [reflexivity|].
    intros [->|Hin]; [rewrite (Byte.byte_dec_lb eq_refl) in E; discriminate|].
    now apply Hx.
Qed.

Lemma HasPrefix_nil (l : list byte) : bytes.HasPrefix l [] = true.
Proof. now destruct l. Qed.

Lemma bytes_Index_byte (d : byte) (x y : list byte) :
  ~ In d x -> bytes.Index (x ++ d :: y) [d] = len x.
Proof.
  induction x as [|a x IH]; intros Hx.
  - simpl app. cbn [bytes.Index bytes.HasPrefix].
    now rewrite (Byte.byte_dec_lb eq_refl), HasPrefix_nil.
  - assert (Ha : Byte.eqb a d = false).
    { destruct (Byte.eqb a d) eqn:E; [|reflexivity].
      apply Byte.byte_dec_bl in E. subst. exfalso. apply Hx. now left. }
    simpl app. cbn [bytes.Index bytes.HasPrefix]. rewrite Ha. cbn [andb].
    rewrite IH by (intros H; apply Hx; now right).
    destruct (Z.eqb_spec (len x) (-1)); unfold len in *; [lia|].
    simpl List.length. lia.
Qed.

Lemma HasPrefix_key (d : byte) :
  forall k x y,
    ~ In d k -> ~ In d x ->
    bytes.HasPrefix (x ++ d :: y) (k ++ [d]) = (bytes.Compare x k =? 0).
Proof.
  induction k as [|c k IH]; intros x y Hk Hx.
  - destruct x as [|a x]; simpl app; cbn [bytes.HasPrefix bytes.Compare].
    + now rewrite (Byte.byte_dec_lb eq_refl), HasPrefix_nil.
    + destruct (Byte.eqb a d) eqn:E; [|reflexivity].
      apply Byte.byte_dec_bl in E. subst. exfalso. apply Hx. now left.
  - destruct x as [|a x]; simpl.
    + destruct (Byte.eqb d c) eqn:E; [|reflexivity].
      apply Byte.byte_dec_bl in E. subst. exfalso. apply Hk. now left.
    + destruct (bytes.byte_compare a c) eqn:E.
      * apply byte_compare_eq in E. subst c.
        rewrite (Byte.byte_dec_lb eq_refl). simpl.
        apply IH; [intros H; apply Hk; now right | intros H; apply Hx; now right].
      * destruct (Byte.eqb a c) eqn:F; [|reflexivity].
        apply Byte.byte_dec_bl in F. subst. rewrite byte_compare_refl in E. discriminate.
      * destruct (Byte.eqb a c) eqn:F; [|reflexivity].
        apply Byte.byte_dec_bl in F. subst. rewrite byte_compare_refl in E. discriminate.
Qed.

Lemma has_key_HasPrefix (d : byte) (k l : list byte) :
  ~ In d k -> In d l ->
  has_key [d] k l = bytes.HasPrefix l (k ++ [d]).
Proof.
  intros Hk Hl. destruct (first_occurrence d l Hl) as (x & y & -> & Hx).
  unfold has_key, key_field. rewrite bytes_Index_byte by assumption.
  destruct (Z.eqb_spec (len x) (-1)); [unfold len in *; lia|].
  replace (Z.to_nat (len x)) with (List.length x) by (unfold len; lia).
  rewrite firstn_length_app. symmetry. now apply HasPrefix_key.
Qed.

Lemma find_filter {A : Type} (f : A -> bool) (l : list A) :
  find f l = match filter f l with [] => None | x :: _ => Some x end.
Proof.
  induction l as [|a l IH]; [reflexivity|]. simpl. now destruct (f a).
Qed.

Lemma filter_none {A : Type} (f : A -> bool) (l : list A) :
  (forall x, In x l -> f x = false) -> filter f l = [].
Proof.
  induction l as [|a l IH]; intros H; [reflexivity|].
  simpl. rewrite (H a (or_introl eq_refl)). apply IH. intros x Hx. apply H. now right.
Qed.

Section LinearScan.

Variable BlockEntry : Index.t -> list byte -> exec (Z * IndexEntry.t).
Variable zstd_Decompress : slice.t -> list byte -> slice.t * option error.
Variable NewIndex : string -> Index.t + error.
Variable Index_Filename : Index.t -> string.

Variable s : Searcher.t.
Variable index : Index.t.
Variable k : list byte.
Variable d : byte.
Variable blocks : list (list (list byte)).
Variable e : nat.
Variable entry : IndexEntry.t.

Hypothesis not_compressed : isCompressed Index_Filename s = false.
Hypothesis has_index : Searcher.Index s = Some index.
Hypothesis located : BlockEntry index k = Done (Z.of_nat e, entry).
Hypothesis located_entry : nth_error (Index.List index) e = Some entry.
Hypothesis file_is_blocks : Searcher.r s = join_lines (List.concat blocks).
Hypothesis layout : block_layout 0 (Index.List index) blocks = true.
Hypothesis nothing_read : Searcher.bufOffset s = -1.
Hypothesis default_compare : Searcher.compare s = PrefixCompare.
Hypothesis one_byte_delimiter : Index.Delimiter index = [d].
Hypothesis delimiter_not_newline : d <> nl.
Hypothesis key_is_one_field : ~ In d k /\ ~ In nl k.
Hypothesis blocks_fit :
  Forall (block_fits (slice.cap (Searcher.buf s)) (k ++ [d])) blocks.
Hypothesis lines_have_delimiter : forall l, In l (List.concat blocks) -> In d l.
Hypothesis sorted : Sorted line_le (List.concat blocks).
Hypothesis nothing_before :
  forall l, In l (List.concat (firstn e blocks)) -> has_key [d] k l = false.

Lemma no_newline_in_search_bytes : ~ In nl (k ++ Index.Delimiter index).
Proof.
  rewrite one_byte_delimiter. intros H. apply in_app_or in H.
  destruct H as [H|[H|[]]]; [now apply key_is_one_field | congruence].
Qed.

Lemma matches_are_the_scan :
  matching_lines (k ++ Index.Delimiter index) (List.concat (skipn e blocks))
  = linear_scan_all [d] (Searcher.r s) k.
Proof.
  pose proof no_newline_in_search_bytes as Hnl.
  unfold linear_scan_all. rewrite file_is_blocks, split_lines_join_lines.
  2:{ intros l Hl. apply in_concat in Hl. destruct Hl as (ls & Hls & Hl).
      pose proof blocks_fit as Hfit. rewrite Forall_forall in Hfit.
      destruct (Hfit ls Hls) as (_ & _ & _ & H). now apply H. }
  pose proof sorted as Hs.
  rewrite <- (firstn_skipn e blocks) in Hs. rewrite concat_app in Hs.
  apply Sorted_app_r in Hs.
  rewrite matching_lines_sorted by assumption.
  rewrite <- (firstn_skipn e blocks) at 2. rewrite concat_app, filter_app.
  replace (filter (has_key [d] k) (List.concat (firstn e blocks)))
    with (@nil (list byte)).
  - simpl. apply filter_ext_in. intros l Hl.
    rewrite line_cmp_HasPrefix by assumption. rewrite one_byte_delimiter.
    symmetry. apply has_key_HasPrefix; [apply key_is_one_field|].
    apply lines_have_delimiter.
    rewrite <- (firstn_skipn e blocks), concat_app. apply in_or_app. now right.
  - symmetry. apply filter_none. exact nothing_before.
Qed.

Lemma Lines_is_linear_scan (fuel : nat) :
  exists s',
    Lines BlockEntry zstd_Decompress NewIndex Index_Filename fuel s k
    = Done (s', indexed_result (linear_scan_all [d] (Searcher.r s) k)).
Proof.
  pose proof no_newline_in_search_bytes as Hnl.
  assert (Hfit : Forall (block_fits (slice.cap (Searcher.buf s))
                           (k ++ Index.Delimiter index)) blocks)
    by (rewrite one_byte_delimiter; exact blocks_fit).
  destruct (LinesN_blocks BlockEntry zstd_Decompress NewIndex Index_Filename
              s index k [] blocks e entry not_compressed has_index located
              located_entry file_is_blocks layout nothing_read default_compare
              Hnl Hfit fuel 0) as (s' & lines & Hrun & Hlines).
  exists s'. unfold Lines. rewrite Hrun.
  change (cap_lines 0 lines) with lines in Hlines.
  change (cap_lines 0 ?x) with x in Hlines.
  now rewrite Hlines, matches_are_the_scan.
Qed.

Lemma Line_is_linear_scan (fuel : nat) :
  exists s',
    Line BlockEntry zstd_Decompress NewIndex Index_Filename fuel s k
    = Done (s',
            match linear_scan_first [d] (Searcher.r s) k with
            | Some line => (line, None)
            | None => ([], Some ErrNotFound)
            end).
Proof.
  pose proof no_newline_in_search_bytes as Hnl.
  assert (Hfit : Forall (block_fits (slice.cap (Searcher.buf s))
                           (k ++ Index.Delimiter index)) blocks)
    by (rewrite one_byte_delimiter; exact blocks_fit).
  destruct (LinesN_blocks BlockEntry zstd_Decompress NewIndex Index_Filename
              s index k [] blocks e entry not_compressed has_index located
              located_entry file_is_blocks layout nothing_read default_compare
              Hnl Hfit fuel 1) as (s' & lines & Hrun & Hlines).
  exists s'. unfold Line. rewrite Hrun. cbn [bind].
  rewrite matches_are_the_scan in Hlines.
  unfold linear_scan_first. rewrite find_filter.
  fold (linear_scan_all [d] (Searcher.r s) k).
  unfold cap_lines in Hlines. simpl in Hlines.
  destruct (linear_scan_all [d] (Searcher.r s) k) as [|m ms];
    destruct lines as [|x xs]; simpl in Hlines; try discriminate; [reflexivity|].
  inversion Hlines. subst. reflexivity.
Qed.

End LinearScan.

(** X24. [Lines] agrees with the linear scan.  Take a dataset of
    newline-terminated lines in bytewise order, each with the one-byte
    delimiter [d]; an index whose entries lie on non-empty blocks of whole
    lines that fit the read buffer and leave room after their last byte for
    a window of [len(k) + 1] bytes; a fresh uncompressed searcher with the
    default comparator; a key [k] without [d] and without newline; and a
    block locator that returns a position [e] of the index before which no
    line has the key [k].  Then [Lines(k)] returns exactly the lines whose
    first field is [k], as the linear scan of the file gives them, and
    [ErrNotFound] exactly when there is none. *)
Theorem Lines_agrees_with_linear_scan
    (BlockEntry : Index.t -> list byte -> exec (Z * IndexEntry.t))
    (zstd_Decompress : slice.t -> list byte -> slice.t * option error)
    (NewIndex : string -> Index.t + error)
    (Index_Filename : Index.t -> string)
    (fuel : nat) (s : Searcher.t) (index : Index.t) (k : list byte) (d : byte)
    (blocks : list (list (list byte))) (e : nat) (entry : IndexEntry.t) :
  isCompressed Index_Filename s = false ->
  Searcher.Index s = Some index ->
  BlockEntry index k = Done (Z.of_nat e, entry) ->
  nth_error (Index.List index) e = Some entry ->
  Searcher.r s = join_lines (List.concat blocks) ->
  block_layout 0 (Index.List index) blocks = true ->
  Searcher.bufOffset s = -1 ->
  Searcher.compare s = PrefixCompare ->
  Index.Delimiter index = [d] ->
  d <> nl ->
  ~ In d k /\ ~ In nl k ->
  Forall (block_fits (slice.cap (Searcher.buf s)) (k ++ [d])) blocks ->
  (forall l, In l (List.concat blocks) -> In d l) ->
  Sorted line_le (List.concat blocks) ->
  (forall l, In l (List.concat (firstn e blocks)) -> has_key [d] k l = false) ->
  exists s',
    Lines BlockEntry zstd_Decompress NewIndex Index_Filename fuel s k
    = Done (s',
            let lines := linear_scan_all [d] (Searcher.r s) k in
            (lines, if len lines =? 0 then Some ErrNotFound else None)).
Proof.
  intros H1 H2 H3 H4 H5 H6 H7 H8 H9 H10 H11 H12 H13 H14 H15.
  destruct (Lines_is_linear_scan BlockEntry zstd_Decompress NewIndex Index_Filename
              s index k d blocks e entry H1 H2 H3 H4 H5 H6 H7 H8 H9 H10 H11 H12
              H13 H14 H15 fuel) as (s' & Hrun).
  exists s'. rewrite Hrun. unfold indexed_result. cbv zeta.
  now destruct (len _ =? 0).
Qed.

Lemma Lines_agrees_with_linear_scan_witness :
  exists s',
    Lines locator_LT no_Decompress no_NewIndex Index.Filepath 0
      (searcher_on file_spill entries_spill) (bytes_of "c")
    = Done (s',
            let lines := linear_scan_all [","%byte]
                           (Searcher.r (searcher_on file_spill entries_spill))
                           (bytes_of "c") in
            (lines, if len lines =? 0 then Some ErrNotFound else None)).
Proof.
  apply (Lines_agrees_with_linear_scan locator_LT no_Decompress no_NewIndex
           Index.Filepath 0%nat (searcher_on file_spill entries_spill)
           (index_of_entries entries_spill) (bytes_of "c") ","%byte blocks_spill
           1%nat (IndexEntry.mk "b" 8 8)).
  - reflexivity.
  - reflexivity.
  - vm_compute. reflexivity.
  - reflexivity.
  - vm_compute. reflexivity.
  - vm_compute. reflexivity.
  - reflexivity.
  - reflexivity.
  - reflexivity.
  - discriminate.
  - vm_compute. intuition discriminate.
  - repeat constructor; try discriminate; try (vm_compute; discriminate);
      intros l H; vm_compute in H; vm_compute;
      repeat (destruct H as [<-|H]; [intuition discriminate|]); destruct H.
  - intros l H. vm_compute in H.
    repeat (destruct H as [<-|H]; [vm_compute; tauto|]). destruct H.
  - repeat constructor; vm_compute; discriminate.
  - intros l H. vm_compute in H.
    repeat (destruct H as [<-|H]; [vm_compute; reflexivity|]). destruct H.
Defined.

(** X25. [Line] agrees with the linear scan.  Under the conditions of
    [Lines_agrees_with_linear_scan], [Line(k)] returns the first line of
    the file whose first field is [k], and an empty line with
    [ErrNotFound] when the file has none. *)
Theorem Line_agrees_with_linear_scan
    (BlockEntry : Index.t -> list byte -> exec (Z * IndexEntry.t))
    (zstd_Decompress : slice.t -> list byte -> slice.t * option error)
    (NewIndex : string -> Index.t + error)
    (Index_Filename : Index.t -> string)
    (fuel : nat) (s : Searcher.t) (index : Index.t) (k : list byte) (d : byte)
    (blocks : list (list (list byte))) (e : nat) (entry : IndexEntry.t) :
  isCompressed Index_Filename s = false ->
  Searcher.Index s = Some index ->
  BlockEntry index k = Done (Z.of_nat e, entry) ->
  nth_error (Index.List index) e = Some entry ->
  Searcher.r s = join_lines (List.concat blocks) ->
  block_layout 0 (Index.List index) blocks = true ->
  Searcher.bufOffset s = -1 ->
  Searcher.compare s = PrefixCompare ->
  Index.Delimiter index = [d] ->
  d <> nl ->
  ~ In d k /\ ~ In nl k ->
  Forall (block_fits (slice.cap (Searcher.buf s)) (k ++ [d])) blocks ->
  (forall l, In l (List.concat blocks) -> In d l) ->
  Sorted line_le (List.concat blocks) ->
  (forall l, In l (List.concat (firstn e blocks)) -> has_key [d] k l = false) ->
  exists s',
    Line BlockEntry zstd_Decompress NewIndex Index_Filename fuel s k
    = Done (s',
            match linear_scan_first [d] (Searcher.r s) k with
            | Some line => (line, None)
            | None => ([], Some ErrNotFound)
            end).
Proof.
  intros H1 H2 H3 H4 H5 H6 H7 H8 H9 H10 H11 H12 H13 H14 H15.
  exact (Line_is_linear_scan BlockEntry zstd_Decompress NewIndex Index_Filename
           s index k d blocks e entry H1 H2 H3 H4 H5 H6 H7 H8 H9 H10 H11 H12
           H13 H14 H15 fuel).
Qed.

Lemma Line_agrees_with_linear_scan_witness :
  exists s',
    Line locator_LT no_Decompress no_NewIndex Index.Filepath 0
      (searcher_on file_spill entries_spill) (bytes_of "b")
    = Done (s',
            match linear_scan_first [","%byte]
                    (Searcher.r (searcher_on file_spill entries_spill))
                    (bytes_of "b") with
            | Some line => (line, None)
            | None => ([], Some ErrNotFound)
            end).
Proof.
  apply (Line_agrees_with_linear_scan locator_LT no_Decompress no_NewIndex
           Index.Filepath 0%nat (searcher_on file_spill entries_spill)
           (index_of_entries entries_spill) (bytes_of "b") ","%byte blocks_spill
           0%nat (IndexEntry.mk "a" 0 8)).
  - reflexivity.
  - reflexivity.
  - vm_compute. reflexivity.
  - reflexivity.
  - vm_compute. reflexivity.
  - vm_compute. reflexivity.
  - reflexivity.
  - reflexivity.
  - reflexivity.
  - discriminate.
  - vm_compute. intuition discriminate.
  - repeat constructor; try discriminate; try (vm_compute; discriminate);
      intros l H; vm_compute in H; vm_compute;
      repeat (destruct H as [<-|H]; [intuition discriminate|]); destruct H.
  - intros l H. vm_compute in H.
    repeat (destruct H as [<-|H]; [vm_compute; tauto|]). destruct H.
  - repeat constructor; vm_compute; discriminate.
  - intros l H. destruct H.
Defined.

(** ** When the window leaves the buffer *)

Section WindowPanic.

Variable s : Searcher.t.
Variable b : list byte.
Variable stale : list byte.

Hypothesis default_compare : Searcher.compare s = PrefixCompare.
Hypothesis no_newline : ~ In nl b.

(** As [at_line], with the room for the window looked at line by line. *)
Lemma at_line_window (pre : list (list byte)) (l : list byte) (rest : list (list byte)) :
  ~ In nl l ->
  let buf := block_buffer (pre ++ l :: rest) stale in
  let off := len (join_lines pre) in
  (off <? slice.len buf) = true /\
  (len b <= len l + 1 + len (join_lines rest) + len stale ->
   exists w, getNBytesFrom buf off (len b) = Done w /\
             Searcher.compare s (slice.data w) b = line_cmp b l) /\
  (len l + 1 + len (join_lines rest) + len stale < len b ->
   getNBytesFrom buf off (len b) = Panic) /\
  (exists r, slice.from buf off = Done r /\
             bytes.IndexByte (slice.data r) nl = len l) /\
  off + len l + 1 = len (join_lines (pre ++ [l])).
Proof.
  intros Hl buf off.
  assert (Harr : slice.array buf
                 = join_lines pre ++ (l ++ nl :: (join_lines rest ++ stale))).
  { unfold buf, block_buffer. simpl.
    rewrite join_lines_app, join_lines_cons, <- !app_assoc. reflexivity. }
  assert (Hlen : slice.len buf = off + len l + 1 + len (join_lines rest)).
  { unfold buf, block_buffer, slice.len, off, len. simpl.
    rewrite join_lines_app, join_lines_cons, !length_app. simpl. lia. }
  assert (Hcap : slice.cap buf = slice.len buf + len stale).
  { unfold buf, block_buffer, slice.cap, slice.len, len. simpl.
    rewrite length_app. lia. }
  assert (Hoff : Z.to_nat off = List.length (join_lines pre))
    by (unfold off, len; lia).
  assert (H0 : 0 <= off) by (unfold off, len; lia).
  assert (Hb0 : 0 <= len b) by (unfold len; lia).
  assert (Hl0 : 0 <= len l) by (unfold len; lia).
  assert (Hr0 : 0 <= len (join_lines rest)) by (unfold len; lia).
  assert (Hs0 : 0 <= len stale) by (unfold len; lia).
  split; [apply Z.ltb_lt; lia|].
  assert (Hsub : forall high, off <= high -> high <= slice.cap buf ->
            slice.sub buf off high
            = Done (slice.mk (l ++ nl :: (join_lines rest ++ stale))
                             (Z.to_nat (high - off)))).
  { intros high H1 H2. unfold slice.sub.
    destruct (Z.leb_spec 0 off); [|lia].
    destruct (Z.leb_spec off high); [|lia].
    destruct (Z.leb_spec high (slice.cap buf)); [|lia]. cbn [andb].
    rewrite Harr, Hoff, skipn_length_app. reflexivity. }
  split; [|split; [|split]].
  - intros Hroom. eexists. split.
    + unfold getNBytesFrom. apply Hsub; lia.
    + rewrite default_compare. unfold slice.data. simpl.
      replace (Z.to_nat (off + len b - off)) with (List.length b) by (unfold len; lia).
      assert (Hfit : (List.length b <= List.length (l ++ nl :: (join_lines rest ++ stale)))%nat).
      { rewrite length_app. simpl. rewrite length_app. unfold len in *. lia. }
      rewrite PrefixCompare_window by (rewrite length_firstn; lia).
      now apply window_compare.
  - intros Hout. unfold getNBytesFrom, slice.sub.
    destruct (Z.leb_spec (off + len b) (slice.cap buf)); [lia|].
    now rewrite andb_false_r.
  - eexists. split.
    + unfold slice.from. apply Hsub; lia.
    + unfold slice.data. simpl.
      replace (Z.to_nat (slice.len buf - off))
        with (List.length (l ++ nl :: join_lines rest))
        by (rewrite length_app; simpl; unfold len in *; lia).
      replace (l ++ nl :: join_lines rest ++ stale)
        with ((l ++ nl :: join_lines rest) ++ stale)
        by (now rewrite <- app_assoc).
      rewrite firstn_length_app. now apply IndexByte_line.
  - unfold off, len. rewrite join_lines_app, length_app.
    unfold join_lines at 3. simpl. rewrite app_nil_r, length_app. simpl. lia.
Qed.

Lemma scanLineOffset_loop_window_panics (ls : list (list byte)) (l : list byte) :
  ~ In nl l ->
  len l + 1 + len stale < len b ->
  forall cur done fuel trailing,
    ls = done ++ cur ++ [l] ->
    (forall x, In x cur -> ~ In nl x) ->
    Forall (fun x => line_cmp b x = -1) cur ->
    (List.length (join_lines (cur ++ [l])) <= fuel)%nat ->
    scanLineOffset_loop fuel s (block_buffer ls stale) b trailing
      (len (join_lines done)) = Panic.
Proof.
  intros Hl Hout.
  induction cur as [|x cur IH]; intros done fuel trailing Hls Hnl Hless Hfuel.
  - simpl app in *.
    destruct (at_line_window done l [] Hl) as (Hlt & _ & Hp & _).
    rewrite <- Hls in Hlt, Hp.
    destruct fuel as [|fuel].
    { rewrite join_lines_cons, length_app in Hfuel. simpl in Hfuel. lia. }
    cbn [scanLineOffset_loop]. rewrite Hlt, Hp; [reflexivity|].
    change (len (join_lines [])) with 0. lia.
  - assert (Hx : ~ In nl x) by (apply Hnl; now left).
    destruct (at_line_window done x (cur ++ [l]) Hx)
      as (Hlt & Hfit & Hp & (r & Hr & Hidx) & Hnext).
    simpl app in Hls. rewrite <- Hls in Hlt, Hfit, Hp, Hr.
    destruct fuel as [|fuel].
    { simpl app in Hfuel. rewrite join_lines_cons, length_app in Hfuel.
      simpl in Hfuel. lia. }
    cbn [scanLineOffset_loop]. rewrite Hlt.
    destruct (Z_le_gt_dec (len b)
                (len x + 1 + len (join_lines (cur ++ [l])) + len stale)) as [Hroom|Hno].
    + destruct (Hfit Hroom) as (w & Hw & Hcmp).
      rewrite Hw. cbn [bind]. rewrite Hcmp, (Forall_inv Hless). cbn [Z.eqb].
      rewrite Hr. cbn [bind]. rewrite Hidx.
      rewrite (proj2 (Z.eqb_neq (len x) (-1))) by (unfold len; lia).
      rewrite Hnext. apply IH.
      * rewrite Hls. now rewrite <- app_assoc.
      * intros y Hy. apply Hnl. now right.
      * exact (Forall_inv_tail Hless).
      * simpl app in Hfuel. rewrite join_lines_cons, length_app in Hfuel.
        simpl in Hfuel. lia.
    + rewrite Hp by lia. reflexivity.
Qed.

End WindowPanic.

(** X26. The panic of the unclamped window, in general.  Let a buffer hold
    whole lines, let every line before the last compare less than the
    search bytes [b], and let the last line, its newline and what the
    backing array has after it be shorter than [b].  Then
    [scanLinesMatching] panics: the scan goes from line to line, and at the
    last line at the latest [getNBytesFrom] slices [buf[offset:offset+len(b)]]
    past the capacity. *)
Theorem scanLinesMatching_window_panics (s : Searcher.t) (b stale : list byte)
    (pre : list (list byte)) (l : list byte) (n : Z) :
  Searcher.compare s = PrefixCompare ->
  ~ In nl b ->
  (forall x, In x (pre ++ [l]) -> ~ In nl x) ->
  Forall (fun x => line_cmp b x = -1) pre ->
  len l + 1 + len stale < len b ->
  scanLinesMatching s (block_buffer (pre ++ [l]) stale) b n = Panic.
Proof.
  intros Hcmp Hb Hnl Hless Hout.
  assert (Hl : ~ In nl l) by (apply Hnl; apply in_or_app; right; now left).
  unfold scanLinesMatching, scanLineOffset.
  change 0 with (len (join_lines [])).
  rewrite (scanLineOffset_loop_window_panics s b stale Hcmp Hb (pre ++ [l]) l
             Hl Hout pre []); auto.
  intros x Hx. apply Hnl. apply in_or_app. now left.
Qed.

Lemma scanLinesMatching_window_panics_witness :
  scanLinesMatching (searcher_on file_a entries_a)
    (block_buffer [bytes_of "a,1"; bytes_of "b,2"] []) (bytes_of "cccccc,") 0
  = Panic.
Proof.
  apply (scanLinesMatching_window_panics (searcher_on file_a entries_a)
           (bytes_of "cccccc,") [] [bytes_of "a,1"] (bytes_of "b,2") 0).
  - reflexivity.
  - vm_compute. intuition discriminate.
  - intros x H. vm_compute in H. vm_compute.
    repeat (destruct H as [<-|H]; [intuition discriminate|]). destruct H.
  - repeat constructor.
  - vm_compute. reflexivity.
Defined.

(** ** The cap on the number of lines *)

(** One pass of the loop of [scanIndexedLines]: the read of a block of
    whole lines and the scan of it. *)
Lemma scan_pass (s : Searcher.t) (entry : IndexEntry.t) (b before after : list byte)
    (ls : list (list byte)) (n : Z) :
  Searcher.r s = before ++ join_lines ls ++ after ->
  IndexEntry.Offset entry = len before ->
  IndexEntry.Length entry = len (join_lines ls) ->
  Searcher.bufOffset s <> IndexEntry.Offset entry ->
  Searcher.compare s = PrefixCompare ->
  ~ In nl b ->
  block_fits (slice.cap (Searcher.buf s)) b ls ->
  exists s1 t,
    readBlockEntry s entry = Done (s1, None) /\
    scanLinesMatching s1 (Searcher.buf s1) b n
    = Done (cap_lines n (matching_lines b ls), t) /\
    flag_ok b n [] ls t /\
    Searcher.r s1 = Searcher.r s /\
    Searcher.compare s1 = Searcher.compare s /\
    Searcher.bufOffset s1 = IndexEntry.Offset entry /\
    slice.cap (Searcher.buf s1) = slice.cap (Searcher.buf s).
Proof.
  intros Hr Ho Hl Hne Hcmp Hb (Hnon & Hcap & Hwin & Hnl).
  rewrite (readBlockEntry_reads s entry before after ls Hr Ho Hl Hne) by lia.
  set (stale := skipn (List.length (join_lines ls)) (slice.array (Searcher.buf s))).
  set (s1 := Searcher.with_buf s (block_buffer ls stale) (IndexEntry.Offset entry)).
  destruct (scanLinesMatching_block_flag s1 b stale ls n Hcmp Hb) as (t & Ht & Hf).
  - unfold stale, len, slice.cap in *. rewrite length_skipn. lia.
  - exact Hnl.
  - exists s1, t.
    split; [reflexivity|]. split; [exact Ht|]. split; [exact Hf|].
    split; [reflexivity|]. split; [reflexivity|]. split; [reflexivity|].
    unfold s1, block_buffer, stale, slice.cap, len in *. simpl.
    rewrite length_app, length_skipn. lia.
Qed.

Lemma append_found (acc l : list (list byte)) :
  (if len l >? 0 then acc ++ l else acc) = acc ++ l.
Proof. destruct l; simpl; [now rewrite app_nil_r | reflexivity]. Qed.

(** X27. [LinesN] can return more than [n] lines.  The cap [n] is applied to
    the lines of each block, not to the lines returned.  For a file of two
    blocks of whole lines (under the conditions of [LinesN_over_blocks])
    and a lookup that starts at the first: if the first block has matching
    lines, fewer than [n], and no line greater than the key, then [LinesN]
    returns all of them followed by the first [n] matching lines of the
    second block: up to [n - 1] lines more than [n]. *)
Theorem LinesN_exceeds_n
    (BlockEntry : Index.t -> list byte -> exec (Z * IndexEntry.t))
    (zstd_Decompress : slice.t -> list byte -> slice.t * option error)
    (NewIndex : string -> Index.t + error)
    (Index_Filename : Index.t -> string)
    (fuel : nat) (s : Searcher.t) (index : Index.t) (k : list byte) (n : Z)
    (ls1 ls2 : list (list byte)) (entry1 entry2 : IndexEntry.t) :
  isCompressed Index_Filename s = false ->
  Searcher.Index s = Some index ->
  BlockEntry index k = Done (0, entry1) ->
  Index.List index = [entry1; entry2] ->
  Searcher.r s = join_lines (ls1 ++ ls2) ->
  block_layout 0 (Index.List index) [ls1; ls2] = true ->
  Searcher.bufOffset s = -1 ->
  Searcher.compare s = PrefixCompare ->
  ~ In nl (k ++ Index.Delimiter index) ->
  Forall (block_fits (slice.cap (Searcher.buf s)) (k ++ Index.Delimiter index))
    [ls1; ls2] ->
  existsb (fun l => line_cmp (k ++ Index.Delimiter index) l =? 1) ls1 = false ->
  0 < len (matching_lines (k ++ Index.Delimiter index) ls1) < n ->
  exists s',
    LinesN BlockEntry zstd_Decompress NewIndex Index_Filename fuel s k n
    = Done (s', (matching_lines (k ++ Index.Delimiter index) ls1
                 ++ firstn (Z.to_nat n)
                      (matching_lines (k ++ Index.Delimiter index) ls2), None)) /\
    (n <= len (matching_lines (k ++ Index.Delimiter index) ls2) ->
     len (matching_lines (k ++ Index.Delimiter index) ls1
          ++ firstn (Z.to_nat n)
               (matching_lines (k ++ Index.Delimiter index) ls2))
     = len (matching_lines (k ++ Index.Delimiter index) ls1) + n).
Proof.
  set (b := k ++ Index.Delimiter index).
  intros Hz Hix Hloc Hlist Hr Hlay Hbo Hcmp Hnl Hfit Hno Hm1.
  rewrite Hlist in Hlay. simpl in Hlay.
  rewrite !andb_true_iff, !Z.eqb_eq in Hlay.
  destruct Hlay as [[Ho1 Hl1] [[Ho2 Hl2] _]].
  pose proof (Forall_inv Hfit) as Hfit1.
  pose proof (Forall_inv (Forall_inv_tail Hfit)) as Hfit2.
  assert (Hpos1 : 0 < len (join_lines ls1))
    by (apply block_nonempty; apply Hfit1).
  destruct (scan_pass s entry1 b [] (join_lines ls2) ls1 n)
    as (s1 & t1 & Hread1 & Hscan1 & Hflag1 & Hr1 & Hc1 & Hb1 & Hcap1); auto.
  { rewrite Hr, join_lines_app. reflexivity. }
  { rewrite Hbo, Ho1. lia. }
  destruct (scan_pass s1 entry2 b (join_lines ls1) [] ls2 n)
    as (s2 & t2 & Hread2 & Hscan2 & Hflag2 & _); auto.
  { rewrite Hr1, Hr, join_lines_app, app_nil_r. reflexivity. }
  { rewrite Hb1, Ho1, Ho2. lia. }
  { now rewrite Hc1. }
  { now rewrite Hcap1. }
  assert (Ht1 : t1 = false).
  { destruct t1; [|reflexivity]. destruct Hflag1 as (_ & _ & HC).
    destruct (HC eq_refl) as [H|[_ H]]; [fold b in Hno; congruence|].
    simpl app in H. lia. }
  assert (Hcap_n : cap_lines n (matching_lines b ls1) = matching_lines b ls1)
    by (apply cap_lines_full; lia).
  assert (Hcap2 : cap_lines n (matching_lines b ls2)
                  = firstn (Z.to_nat n) (matching_lines b ls2)).
  { unfold cap_lines. destruct (Z.gtb_spec n 0); [reflexivity|lia]. }
  assert (Hres : indexed_result (matching_lines b ls1
                                 ++ firstn (Z.to_nat n) (matching_lines b ls2))
                 = (matching_lines b ls1
                    ++ firstn (Z.to_nat n) (matching_lines b ls2), None)).
  { unfold indexed_result.
    destruct (matching_lines b ls1) as [|m ms]; [unfold len in Hm1; simpl in Hm1; lia|reflexivity]. }
  exists s2. split.
  - unfold LinesN. rewrite Hz, Hix. unfold scanIndexedLines.
    rewrite Hix, Hloc, Hlist. cbn [bind List.length].
    cbn [scanIndexedLines_loop]. rewrite Hread1. cbn [bind]. fold b.
    rewrite Hscan1. cbn [bind]. rewrite Ht1, Hcap_n, append_found.
    assert (Hn1 : blockEntryN index (0 + 1) = (entry2, true))
      by (unfold blockEntryN; rewrite Hlist; reflexivity).
    rewrite Hn1. rewrite Hread2. cbn [bind]. fold b.
    rewrite Hscan2. cbn [bind]. rewrite Hcap2, append_found. simpl app.
    assert (Hn2 : blockEntryN index (0 + 1 + 1) = (IndexEntry.zero, false))
      by (unfold blockEntryN; rewrite Hlist; reflexivity).
    rewrite Hn2. destruct t2; now rewrite Hres.
  - intros Hge. unfold len in *. rewrite length_app, length_firstn. lia.
Qed.

Lemma LinesN_exceeds_n_witness :
  exists s',
    LinesN locator_LT no_Decompress no_NewIndex Index.Filepath 0
      (searcher_on file_four entries_four) (bytes_of "b") 2
    = Done (s', (matching_lines (bytes_of "b" ++ bytes_of ",") (map bytes_of ["a,1"; "b,1"]%string)
                 ++ firstn (Z.to_nat 2)
                      (matching_lines (bytes_of "b" ++ bytes_of ",")
                         (map bytes_of ["b,2"; "b,3"]%string)), None)) /\
    (2 <= len (matching_lines (bytes_of "b" ++ bytes_of ",")
                 (map bytes_of ["b,2"; "b,3"]%string)) ->
     len (matching_lines (bytes_of "b" ++ bytes_of ",") (map bytes_of ["a,1"; "b,1"]%string)
          ++ firstn (Z.to_nat 2)
               (matching_lines (bytes_of "b" ++ bytes_of ",")
                  (map bytes_of ["b,2"; "b,3"]%string)))
     = len (matching_lines (bytes_of "b" ++ bytes_of ",")
              (map bytes_of ["a,1"; "b,1"]%string)) + 2).
Proof.
  apply (LinesN_exceeds_n locator_LT no_Decompress no_NewIndex Index.Filepath
           0%nat (searcher_on file_four entries_four)
           (index_of_entries entries_four) (bytes_of "b") 2
           (map bytes_of ["a,1"; "b,1"]%string) (map bytes_of ["b,2"; "b,3"]%string)
           (IndexEntry.mk "a" 0 8) (IndexEntry.mk "b" 8 8)).
  - reflexivity.
  - reflexivity.
  - vm_compute. reflexivity.
  - reflexivity.
  - vm_compute. reflexivity.
  - vm_compute. reflexivity.
  - reflexivity.
  - reflexivity.
  - vm_compute. intuition discriminate.
  - repeat constructor; try discriminate; try (vm_compute; discriminate);
      intros l H; vm_compute in H; vm_compute;
      repeat (destruct H as [<-|H]; [intuition discriminate|]); destruct H.
  - vm_compute. reflexivity.
  - vm_compute. split; reflexivity.
Defined.
